(** * lloansys: the loan lifecycle and the EMI arithmetic

    A shallow embedding of the domain logic of the loan-management
    dashboards:

    - [src/utils/formatDate.js]: the two [calculateEMI] variants;
    - [src/pages/Borrower/BorrowerDashboard.jsx]: [generateEMISchedule],
      [handleRequestLoan], [handleRepayment], [updateLoans];
    - [src/pages/Admin/AdminDashboard.jsx]: [handleApprove],
      [handleReject], [handleAssignLender], [handleSaveLoan];
    - [src/pages/Lender/LenderDashboard.jsx]: [handleDisburse],
      [updateLoans].

    JavaScript Numbers are IEEE 754 binary64 values.  They are modelled by
    [spec_float] with precision 53 and maximal exponent 1024, so that
    [/], [*], [+] and [-] round exactly as the program's do. *)

From Stdlib Require Import ZArith QArith Qabs Qpower String Ascii List Bool Lia Lqa.
From Stdlib Require Import SpecFloat DecimalString.
From stdpp Require Import base option list gmap.

Open Scope Z_scope.

(** ** Numbers *)

Module Num.

Definition number := spec_float.

Definition prec : Z := 53.
Definition emax : Z := 1024.

Definition add : number -> number -> number := SFadd prec emax.
Definition sub : number -> number -> number := SFsub prec emax.
Definition mul : number -> number -> number := SFmul prec emax.
Definition div : number -> number -> number := SFdiv prec emax.
Definition leb : number -> number -> bool := SFleb.
Definition ltb : number -> number -> bool := SFltb.

(** The Number nearest to the integer [k] (an integer literal of the
    source, or a conversion that is exact below 2^53). *)
Definition of_Z (k : Z) : number := binary_normalize prec emax k 0 false.

Definition zero : number := S754_zero false.

(** ToBoolean: [+0], [-0] and [NaN] are falsy. *)
Definition truthy (x : number) : bool :=
  match x with
  | S754_zero _ | S754_nan => false
  | _ => true
  end.

(** [x || d] on Numbers. *)
Definition or_else (x d : number) : number := if truthy x then x else d.

(** A binary64 value: the mantissa is canonical and the exponent in range. *)
Definition is_binary64 (x : number) : bool := valid_binary prec emax x.

(** The mathematical value of a finite Number. *)
Definition magnitude (m : positive) (e : Z) : Q :=
  if 0 <=? e then inject_Z (Z.pos m * 2 ^ e)
  else Z.pos m # Z.to_pos (2 ^ (- e)).

Definition value (x : number) : option Q :=
  match x with
  | S754_zero _ => Some 0%Q
  | S754_finite s m e => Some (if s then (- magnitude m e)%Q else magnitude m e)
  | _ => None
  end.

(** The natural number that a Number is, if it is one. *)
Definition natural (x : number) : option Z :=
  match x with
  | S754_zero _ => Some 0
  | S754_finite false m e =>
      if 0 <=? e then Some (Z.pos m * 2 ^ e)
      else if Z.pos m mod 2 ^ (- e) =? 0 then Some (Z.pos m / 2 ^ (- e))
      else None
  | _ => None
  end.

(** ToIntegerOrInfinity followed by the clamp of ToLength, as
    [Array.from({ length: x })] reads the [length] property. *)
Definition ToLength (x : number) : Z :=
  match x with
  | S754_finite false m e =>
      Z.min (if 0 <=? e then Z.pos m * 2 ^ e else Z.pos m / 2 ^ (- e))
            (2 ^ 53 - 1)
  | S754_infinity false => 2 ^ 53 - 1
  | _ => 0
  end.

(** [Math.round]: the nearest integer, a tie going towards +∞; the sign of
    a zero result is the sign of the argument. *)
Definition Math_round (x : number) : number :=
  match x with
  | S754_finite s m e =>
      if 0 <=? e then x
      else
        let d := 2 ^ (- e) in
        let k := (2 * (if s then Z.neg m else Z.pos m) + d) / (2 * d) in
        binary_normalize prec emax k 0 s
  | _ => x
  end.

(** The text that [toFixed(2)] returns.  For a finite Number below 10^21 in
    absolute value it is a sign, the integer digits, a point and two
    digits: [Fixed2 neg cents] with [cents] the integer [n] for which
    [n / 100] is nearest to [|x|], the larger one on a tie.  Otherwise
    [toFixed] falls back on Number::toString, kept as [General x]. *)
Inductive NumberText : Type :=
  | Fixed2 (negative : bool) (cents : Z)
  | General (x : number).

Definition half_up_cents (m : positive) (e : Z) : Z :=
  if 0 <=? e then Z.pos m * 2 ^ e * 100
  else (Z.pos m * 200 + 2 ^ (- e)) / (2 * 2 ^ (- e)).

Definition at_least_1e21 (m : positive) (e : Z) : bool :=
  if 0 <=? e then 10 ^ 21 <=? Z.pos m * 2 ^ e
  else 10 ^ 21 * 2 ^ (- e) <=? Z.pos m.

Definition toFixed2 (x : number) : NumberText :=
  match x with
  | S754_zero _ => Fixed2 false 0
  | S754_finite s m e =>
      if at_least_1e21 m e then General x else Fixed2 s (half_up_cents m e)
  | _ => General x
  end.

(** Decimal digits of a natural number, as a template literal prints it. *)
Definition digits (n : N) : string := NilEmpty.string_of_uint (N.to_uint n).

Definition two_digits (n : N) : string :=
  if (n <? 10)%N then String "0" (digits n) else digits n.

(** The characters of a [Fixed2] text. *)
Definition show_fixed2 (negative : bool) (cents : Z) : string :=
  let c := Z.to_N cents in
  String.append (if negative then "-" else "")
    (String.append (digits (c / 100))
       (String.append "." (two_digits (c mod 100)))).

(** The value of the decimal that a text denotes. *)
Definition text_value (t : NumberText) : option Q :=
  match t with
  | Fixed2 s c => Some (if s then (- (c # 100))%Q else (c # 100)%Q)
  | General x => value x
  end.

(** Equality of representations. *)
Definition eqb (x y : number) : bool :=
  match x, y with
  | S754_zero a, S754_zero b | S754_infinity a, S754_infinity b => Bool.eqb a b
  | S754_nan, S754_nan => true
  | S754_finite a m e, S754_finite b m' e' =>
      Bool.eqb a b && (Pos.eqb m m' && (e =? e'))
  | _, _ => false
  end.

(** [x] is a zero, a finite Number or an infinity with the sign [s]. *)
Definition signed (s : bool) (x : number) : Prop :=
  match x with
  | S754_zero s' | S754_infinity s' | S754_finite s' _ _ => s' = s
  | S754_nan => False
  end.

(** [x] is positive, finite and at most [d] units in the last place away
    from [y]. *)
Definition within_ulps (d : Z) (x y : number) : bool :=
  match x, y with
  | S754_finite false m e, S754_finite false m' e' =>
      (e =? e') && (Z.abs (Z.pos m - Z.pos m') <=? d)
  | _, _ => false
  end.

(** Equality of texts. *)
Definition text_eqb (a b : NumberText) : bool :=
  match a, b with
  | Fixed2 s c, Fixed2 s' c' => Bool.eqb s s' && (c =? c')
  | General x, General y => eqb x y
  | _, _ => false
  end.

End Num.

Declare Scope num_scope.
Delimit Scope num_scope with num.
Bind Scope num_scope with Num.number.
Infix "+" := Num.add : num_scope.
Infix "-" := Num.sub : num_scope.
Infix "*" := Num.mul : num_scope.
Infix "/" := Num.div : num_scope.
Infix "<=?" := Num.leb : num_scope.
Infix "<?" := Num.ltb : num_scope.
Notation "x '||' d" := (Num.or_else x d) (at level 50, left associativity) : num_scope.

Open Scope string_scope.
Open Scope Z_scope.

(** ** The data model *)

(** The six status texts that the dashboards write and offer. *)
Inductive Status : Type :=
  | Pending | Approved | Assigned | FundsDisbursed | Completed | Rejected.

Definition status_text (s : Status) : string :=
  match s with
  | Pending => "Pending"
  | Approved => "Approved"
  | Assigned => "Assigned"
  | FundsDisbursed => "Funds Disbursed"
  | Completed => "Completed"
  | Rejected => "Rejected"
  end.

Definition status_eqb (a b : Status) : bool :=
  match a, b with
  | Pending, Pending | Approved, Approved | Assigned, Assigned
  | FundsDisbursed, FundsDisbursed | Completed, Completed
  | Rejected, Rejected => true
  | _, _ => false
  end.

(** The terminal states of the lifecycle. *)
Definition terminal (s : Status) : bool :=
  match s with
  | Completed | Rejected => true
  | _ => false
  end.

Module Repayment.
Record t : Type := mk {
  month : string;
  amount : Num.NumberText;
  paid : bool
}.

(** [{ ...r, paid: true }] *)
Definition mark_paid (r : t) : t :=
  {| month := month r; amount := amount r; paid := true |}.
End Repayment.

Module User.
Record t : Type := mk {
  id : Z;
  name : string;
  email : string;
  role : string
}.
End User.

Module Loan.
Record t : Type := mk {
  id : Z;
  borrowerId : Z;
  borrowerName : string;
  amount : Num.number;
  duration : Num.number;
  purpose : string;
  aadhar : string;
  pan : string;
  address : string;
  status : Status;
  lenderId : option Z;
  lenderName : option string;
  repayments : option (list Repayment.t);
  createdAt : string;
  disbursedAt : option string
}.

(** [{ ...loan, status: s }] *)
Definition with_status (s : Status) (l : t) : t :=
  mk (id l) (borrowerId l) (borrowerName l) (amount l) (duration l)
     (purpose l) (aadhar l) (pan l) (address l) s (lenderId l)
     (lenderName l) (repayments l) (createdAt l) (disbursedAt l).

(** [{ ...loan, repayments: rs }] *)
Definition with_repayments (rs : list Repayment.t) (l : t) : t :=
  mk (id l) (borrowerId l) (borrowerName l) (amount l) (duration l)
     (purpose l) (aadhar l) (pan l) (address l) (status l) (lenderId l)
     (lenderName l) (Some rs) (createdAt l) (disbursedAt l).

(** [{ ...loan, lenderId: i, lenderName: n, status: s }] *)
Definition with_lender (i : Z) (n : string) (s : Status) (l : t) : t :=
  mk (id l) (borrowerId l) (borrowerName l) (amount l) (duration l)
     (purpose l) (aadhar l) (pan l) (address l) s (Some i) (Some n)
     (repayments l) (createdAt l) (disbursedAt l).

(** [{ ...loan, status: s, disbursedAt: d }] *)
Definition with_disbursement (s : Status) (d : string) (l : t) : t :=
  mk (id l) (borrowerId l) (borrowerName l) (amount l) (duration l)
     (purpose l) (aadhar l) (pan l) (address l) s (lenderId l)
     (lenderName l) (repayments l) (createdAt l) (Some d).

(** [{ ...loan, amount: a, duration: d, purpose: p, status: s }] *)
Definition with_edit (a d : Num.number) (p : string) (s : Status) (l : t) : t :=
  mk (id l) (borrowerId l) (borrowerName l) a d p (aadhar l) (pan l)
     (address l) s (lenderId l) (lenderName l) (repayments l)
     (createdAt l) (disbursedAt l).

(** [loan.repayments] read where a missing schedule counts as empty. *)
Definition schedule (l : t) : list Repayment.t :=
  match repayments l with Some rs => rs | None => [] end.

(** [repayments.every((r) => r.paid)] *)
Definition all_paid (rs : list Repayment.t) : bool :=
  forallb Repayment.paid rs.
End Loan.

(** What a handler leaves behind: the collection it passes to
    [updateLoans], or the error toast it returns with instead. *)
Inductive Outcome : Type :=
  | Updated (loans : list Loan.t)
  | Refused (message : string).

(** A dashboard holds its own list of loans ([view]), next to the
    collection under the key ["loans"] of the local storage. *)
Record Store : Type := mkStore {
  view : list Loan.t;
  stored : list Loan.t
}.

(** ** The borrower dashboard *)

Module Borrower.
Import Num.

(** [generateEMISchedule]; the arguments are the Numbers that the loan
    record holds, on which [Number(...)] is the identity.
    [Array.from({ length: months }, f)] reads the length with ToLength and
    creates the array of that length, which throws a RangeError from the
    length 2^32 on: [None] is that exception.  Below it the array has one
    entry for each index. *)
Definition generateEMISchedule (amount duration : number)
    : option (list Repayment.t) :=
  let principal := (amount || zero)%num in
  let months := (duration || of_Z 1)%num in
  let perMonth := toFixed2 (principal / months)%num in
  if 2 ^ 32 <=? ToLength months then None
  else
    Some
      (fmap (fun i : nat =>
              {| Repayment.month := String.append "Month " (digits (N.of_nat (i + 1)));
                 Repayment.amount := perMonth;
                 Repayment.paid := false |})
           (seq 0 (Z.to_nat (ToLength months)))).

(** The borrower's [updateLoans]: the state setter and the merge into the
    stored collection. *)
Definition updateLoans (user : User.t) (updatedBorrowerLoans : list Loan.t)
    (st : Store) : Store :=
  let allLoans := stored st in
  let merged :=
    fmap (fun loan =>
           if Loan.borrowerId loan =? User.id user
           then match List.find (fun l => Loan.id l =? Loan.id loan)
                                updatedBorrowerLoans with
                | Some l => l
                | None => loan
                end
           else loan)
        allLoans in
  let newOnes :=
    List.filter
      (fun bLoan => negb (existsb (fun loan => Loan.id loan =? Loan.id bLoan) merged))
      updatedBorrowerLoans in
  {| view := updatedBorrowerLoans; stored := merged ++ newOnes |}.

(** The initial load: the borrower's own loans out of the stored ones. *)
Definition load (user : User.t) (allLoans : list Loan.t) : Store :=
  {| view := List.filter (fun loan => Loan.borrowerId loan =? User.id user) allLoans;
     stored := allLoans |}.

(** The effect that gives an active loan its schedule.  [updated] holds a
    new object exactly where [needsSchedule] holds, which is what
    [hasChanges] detects by comparing references. *)
Definition needsSchedule (loan : Loan.t) : bool :=
  let isActiveStatus :=
    status_eqb (Loan.status loan) Approved
    || status_eqb (Loan.status loan) FundsDisbursed in
  isActiveStatus
  && match Loan.repayments loan with
     | None => true
     | Some rs => (length rs =? 0)%nat
     end.

Definition withSchedule (loan : Loan.t) : option Loan.t :=
  if needsSchedule loan
  then
    match generateEMISchedule (Loan.amount loan) (Loan.duration loan) with
    | Some repayments => Some (Loan.with_repayments repayments loan)
    | None => None
    end
  else Some loan.

(** [loans.map] stops at the first loan whose schedule throws, before
    [updateLoans] is reached: the effect then leaves no state behind. *)
Definition ensureSchedules (user : User.t) (st : Store) : option Store :=
  let loans := view st in
  if (length loans =? 0)%nat then Some st
  else
    match mapM withSchedule loans with
    | Some updated =>
        let hasChanges := existsb needsSchedule loans in
        Some (if hasChanges then updateLoans user updated st else st)
    | None => None
    end.

(** The loan request form, with [Number(...)] already applied to the two
    numeric inputs. *)
Record LoanForm : Type := mkForm {
  form_amount : number;
  form_duration : number;
  form_purpose : string;
  form_aadhar : string;
  form_pan : string;
  form_address : string
}.

Definition is_empty (s : string) : bool :=
  match s with EmptyString => true | _ => false end.

Section Handlers.
(** [String.prototype.trim] of the host. *)
Variable trim : string -> string.

(** [handleRequestLoan]; [now] is [Date.now()] and [nowISO] is
    [new Date().toISOString()]. *)
Definition handleRequestLoan (user : User.t) (loanData : LoanForm)
    (now : Z) (nowISO : string) (loans : list Loan.t) : Outcome :=
  let amountNum := form_amount loanData in
  let durationNum := form_duration loanData in
  if (amountNum <=? zero)%num || (durationNum <=? zero)%num
  then Refused "Amount and duration must be positive."
  else if is_empty (trim (form_aadhar loanData))
  then Refused "Please enter your Aadhar number."
  else if is_empty (trim (form_pan loanData))
  then Refused "Please enter your PAN number."
  else if is_empty (trim (form_address loanData))
  then Refused "Please enter your address."
  else
    let newLoan :=
      {| Loan.id := now;
         Loan.borrowerId := User.id user;
         Loan.borrowerName := User.name user;
         Loan.amount := amountNum;
         Loan.duration := durationNum;
         Loan.purpose := trim (form_purpose loanData);
         Loan.aadhar := trim (form_aadhar loanData);
         Loan.pan := trim (form_pan loanData);
         Loan.address := trim (form_address loanData);
         Loan.status := Pending;
         Loan.lenderId := None;
         Loan.lenderName := None;
         Loan.repayments := Some [];
         Loan.createdAt := nowISO;
         Loan.disbursedAt := None |} in
    Updated (loans ++ [newLoan]).
End Handlers.

(** The callback of [handleRepayment] on the loan whose id matches. *)
Definition repay (index : nat) (loan : Loan.t) : Loan.t :=
  let repayments := Loan.schedule loan in
  match repayments !! index with
  | None => loan
  | Some r =>
      if Repayment.paid r then loan
      else
        let repayments := <[index := Repayment.mark_paid r]> repayments in
        let allPaid := Loan.all_paid repayments in
        Loan.with_status (if allPaid then Completed else Loan.status loan)
          (Loan.with_repayments repayments loan)
  end.

(** The [updatedLoans] of [handleRepayment]. *)
Definition repaidLoans (loanId : Z) (index : nat) (loans : list Loan.t)
    : list Loan.t :=
  fmap (fun loan => if negb (Loan.id loan =? loanId) then loan else repay index loan)
      loans.

Definition handleRepayment (user : User.t) (loanId : Z) (index : nat)
    (st : Store) : Store :=
  let updatedLoans := repaidLoans loanId index (view st) in
  updateLoans user updatedLoans st.

(** The filter of the repayment tracker and the condition under which a
    row shows its [Pay EMI] button. *)
Definition repayable (loan : Loan.t) : bool :=
  status_eqb (Loan.status loan) Approved
  || status_eqb (Loan.status loan) FundsDisbursed
  || status_eqb (Loan.status loan) Completed.

Definition showPayEMI (loan : Loan.t) (emi : Repayment.t) : bool :=
  repayable loan
  && (negb (Repayment.paid emi) && negb (status_eqb (Loan.status loan) Completed)).

End Borrower.

(** ** The admin dashboard *)

Module Admin.
Import Num.

Definition handleApprove (id : Z) (loans : list Loan.t) : list Loan.t :=
  fmap (fun loan => if Loan.id loan =? id then Loan.with_status Approved loan else loan)
      loans.

Definition handleReject (id : Z) (loans : list Loan.t) : list Loan.t :=
  fmap (fun loan => if Loan.id loan =? id then Loan.with_status Rejected loan else loan)
      loans.

(** The callback of [handleAssignLender] on the loan whose id matches. *)
Definition assign (lender : User.t) (loan : Loan.t) : Loan.t :=
  let newStatus :=
    if status_eqb (Loan.status loan) Pending || status_eqb (Loan.status loan) Assigned
    then Approved
    else Loan.status loan in
  Loan.with_lender (User.id lender) (User.name lender) newStatus loan.

(** [handleAssignLender].  [selectedLenders] maps a loan id to the value
    of its lender select: [None] for the empty ["Select Lender"] option,
    [Some i] for the option of the user with id [i]. *)
Definition handleAssignLender (users : list User.t)
    (selectedLenders : gmap Z (option Z)) (loanId : Z) (loans : list Loan.t)
    : Outcome :=
  match selectedLenders !! loanId with
  | None | Some None => Refused "Please select a lender!"
  | Some (Some lenderId) =>
      match List.find (fun u => User.id u =? lenderId) users with
      | None => Refused "Invalid lender!"
      | Some lender =>
          Updated
            (fmap (fun loan =>
                    if negb (Loan.id loan =? loanId) then loan else assign lender loan)
                 loans)
      end
  end.

(** The edit form of a loan row, with [Number(...)] already applied to the
    two numeric inputs; [edit_status] is [None] for the empty text. *)
Record EditingLoan : Type := mkEdit {
  edit_amount : number;
  edit_duration : number;
  edit_purpose : string;
  edit_status : option Status
}.

(** [startEditLoan] *)
Definition startEditLoan (loan : Loan.t) : EditingLoan :=
  {| edit_amount := Loan.amount loan;
     edit_duration := Loan.duration loan;
     edit_purpose := Loan.purpose loan;
     edit_status := Some (Loan.status loan) |}.

Section Handlers.
(** [String.prototype.trim] of the host. *)
Variable trim : string -> string.

Definition handleSaveLoan (editingLoan : EditingLoan) (loanId : Z)
    (loans : list Loan.t) : Outcome :=
  let amountNum := edit_amount editingLoan in
  let durationNum := edit_duration editingLoan in
  if (amountNum <=? zero)%num || (durationNum <=? zero)%num
  then Refused "Amount and duration must be positive."
  else
    Updated
      (fmap (fun loan =>
              if Loan.id loan =? loanId
              then Loan.with_edit amountNum durationNum
                     (trim (edit_purpose editingLoan))
                     (match edit_status editingLoan with
                      | Some s => s
                      | None => Loan.status loan
                      end)
                     loan
              else loan)
           loans).
End Handlers.

(** [!loan.lenderName] *)
Definition no_lender_name (loan : Loan.t) : bool :=
  match Loan.lenderName loan with
  | None => true
  | Some n => match n with EmptyString => true | _ => false end
  end.

(** The conditions under which a loan row renders its [Approve] and
    [Reject] buttons, and its [Assign] button. *)
Definition showApproveReject (isEditing : bool) (loan : Loan.t) : bool :=
  negb isEditing && status_eqb (Loan.status loan) Pending.

Definition showAssign (isEditing : bool) (loan : Loan.t) : bool :=
  negb isEditing
  && (negb (status_eqb (Loan.status loan) Rejected)
  && (no_lender_name loan
  && (status_eqb (Loan.status loan) Approved
      || status_eqb (Loan.status loan) Pending
      || status_eqb (Loan.status loan) Assigned))).

End Admin.

(** ** The lender dashboard *)

Module Lender.

(** The initial load: the loans bound to the logged-in lender. *)
Definition load (user : User.t) (allLoans : list Loan.t) : Store :=
  {| view :=
       List.filter
         (fun loan => match Loan.lenderId loan with
                      | Some i => i =? User.id user
                      | None => false
                      end)
         allLoans;
     stored := allLoans |}.

(** The lender's [updateLoans]. *)
Definition updateLoans (user : User.t) (updatedLoans : list Loan.t)
    (st : Store) : Store :=
  let allLoans := stored st in
  let merged :=
    fmap (fun loan =>
           if match Loan.lenderId loan with
              | Some i => i =? User.id user
              | None => false
              end
           then match List.find (fun l => Loan.id l =? Loan.id loan) updatedLoans with
                | Some l => l
                | None => loan
                end
           else loan)
        allLoans in
  let newOnes :=
    List.filter
      (fun l => negb (existsb (fun loan => Loan.id loan =? Loan.id l) merged))
      updatedLoans in
  {| view := updatedLoans; stored := merged ++ newOnes |}.

(** The callback of [handleDisburse] on the loan whose id matches;
    [nowISO] is [new Date().toISOString()]. *)
Definition disburse (nowISO : string) (loan : Loan.t) : Loan.t :=
  if status_eqb (Loan.status loan) FundsDisbursed then loan
  else Loan.with_disbursement FundsDisbursed nowISO loan.

Definition handleDisburse (user : User.t) (nowISO : string) (loanId : Z)
    (st : Store) : Store :=
  let updated :=
    fmap (fun loan =>
           if negb (Loan.id loan =? loanId) then loan else disburse nowISO loan)
        (view st) in
  updateLoans user updated st.

(** The condition under which a row renders [Mark Disbursed]. *)
Definition showMarkDisbursed (loan : Loan.t) : bool :=
  negb (status_eqb (Loan.status loan) FundsDisbursed)
  && (negb (status_eqb (Loan.status loan) Completed)
  && negb (status_eqb (Loan.status loan) Rejected)).

End Lender.

(** ** The EMI calculators *)

(** [Math.pow] is implementation-approximated in ECMAScript, so the
    calculators take it as a parameter. *)

Module EmiDefault.
Import Num.
Section Calculator.
Variable Math_pow : number -> number -> number.

(** The default export; as above the arguments are Numbers. *)
Definition calculateEMI (principal annualRatePercent tenureMonths : number)
    : number :=
  let P := (principal || zero)%num in
  let r := ((annualRatePercent || zero) / of_Z 12 / of_Z 100)%num in
  let n := (tenureMonths || zero)%num in
  if (P <=? zero)%num || (r <=? zero)%num || (n <=? zero)%num then zero
  else
    let numerator := (P * r * Math_pow (of_Z 1 + r) n)%num in
    let denominator := (Math_pow (of_Z 1 + r) n - of_Z 1)%num in
    (Math_round (numerator / denominator * of_Z 100) / of_Z 100)%num.
End Calculator.
End EmiDefault.

Module EmiNamed.
Import Num.
Section Calculator.
Variable Math_pow : number -> number -> number.

(** The named export. *)
Definition calculateEMI (principal rate tenure : number) : NumberText :=
  let monthlyRate := (rate / (of_Z 12 * of_Z 100))%num in
  let emi :=
    (principal * monthlyRate * Math_pow (of_Z 1 + monthlyRate) tenure
     / (Math_pow (of_Z 1 + monthlyRate) tenure - of_Z 1))%num in
  toFixed2 emi.
End Calculator.
End EmiNamed.

(** A reference [Math.pow] for a finite base other than zero and an
    exponent that is a natural number: the exact power, rounded once.
    Every other argument is outside of it. *)
Module RefPow.
Import Num.

Definition pow (base exponent : number) : number :=
  match natural exponent, base with
  | Some 0, _ => of_Z 1
  | Some k, S754_finite s m e =>
      binary_normalize prec emax
        ((if s then Z.neg m else Z.pos m) ^ k) (e * k) false
  | _, _ => S754_nan
  end.

End RefPow.

(** The quotient that both calculators form, for a monthly rate [r]. *)
Module Emi.
Import Num.
Definition quotient (Math_pow : number -> number -> number)
    (P r n : number) : number :=
  (P * r * Math_pow (of_Z 1 + r) n / (Math_pow (of_Z 1 + r) n - of_Z 1))%num.
End Emi.

(** ** Invariants *)

(** A loan that is Funds Disbursed has a lender. *)
Definition disbursed_bound (loan : Loan.t) : Prop :=
  Loan.status loan = FundsDisbursed -> Loan.lenderId loan <> None.

(** Every loan of the dashboard's list has its id among the stored
    loans, as after the initial load. *)
Definition view_known (st : Store) : Prop :=
  Forall (fun b => existsb (fun loan => Loan.id loan =? Loan.id b) (stored st) = true)
         (view st).

(** The sum of the amounts of a schedule, each taken as the decimal that
    its text denotes. *)
Definition amounts_total (rs : list Repayment.t) : option Q :=
  foldr (fun r acc =>
           match Num.text_value (Repayment.amount r), acc with
           | Some v, Some t => Some (v + t)%Q
           | _, _ => None
           end)
        (Some 0%Q) rs.

(** ** More of the admin dashboard *)

Module AdminLoans.

(** [handleDeleteLoan], up to the call of [updateLoans]. *)
Definition handleDeleteLoan (loanId : Z) (loans : list Loan.t) : list Loan.t :=
  List.filter (fun l => negb (Loan.id l =? loanId)) loans.

(** The numbers of the header cards ([stats]), the sum of the amounts
    apart. *)
Record Stats : Type := mkStats {
  totalLoans : nat;
  pendingCount : nat;
  approvedCount : nat;
  rejectedCount : nat;
  disbursedCount : nat;
  completedCount : nat
}.

Definition count (s : Status) (loans : list Loan.t) : nat :=
  length (List.filter (fun l => status_eqb (Loan.status l) s) loans).

Definition stats (loans : list Loan.t) : Stats :=
  {| totalLoans := length loans;
     pendingCount := count Pending loans;
     approvedCount := count Approved loans;
     rejectedCount := count Rejected loans;
     disbursedCount := count FundsDisbursed loans;
     completedCount := count Completed loans |}.

(** [filteredLoans] for the filter chosen in [filterStatus]. *)
Definition filteredLoans (filterStatus : string) (loans : list Loan.t)
    : list Loan.t :=
  if String.eqb filterStatus "all" then loans
  else if String.eqb filterStatus "pending"
  then List.filter (fun l => status_eqb (Loan.status l) Pending) loans
  else if String.eqb filterStatus "approved"
  then List.filter (fun l => status_eqb (Loan.status l) Approved) loans
  else if String.eqb filterStatus "completed"
  then List.filter (fun l => status_eqb (Loan.status l) Completed) loans
  else if String.eqb filterStatus "rejected"
  then List.filter (fun l => status_eqb (Loan.status l) Rejected) loans
  else if String.eqb filterStatus "active"
  then List.filter
         (fun l => existsb (status_eqb (Loan.status l))
                           [Approved; FundsDisbursed; Assigned])
         loans
  else loans.

(** A step of the timeline in the details panel. *)
Record Step : Type := mkStep {
  key : string;
  label : string;
  active : bool;
  done : bool
}.

(** The [steps] of [LoanDetailsPanel]. *)
Definition steps (loan : Loan.t) : list Step :=
  let status := Loan.status loan in
  if status_eqb status Rejected
  then [ mkStep "created" "Request Created" true true;
         mkStep "rejected" "Rejected by Admin" true true ]
  else
    [ mkStep "created" "Request Created" true true;
      mkStep "approved" "Approved by Admin"
        (existsb (status_eqb status) [Approved; Assigned; FundsDisbursed; Completed])
        (existsb (status_eqb status) [Approved; Assigned; FundsDisbursed; Completed]);
      mkStep "assigned" "Lender Assigned"
        (existsb (status_eqb status) [Assigned; FundsDisbursed; Completed])
        (existsb (status_eqb status) [Assigned; FundsDisbursed; Completed]);
      mkStep "disbursed" "Funds Disbursed"
        (existsb (status_eqb status) [FundsDisbursed; Completed])
        (existsb (status_eqb status) [FundsDisbursed; Completed]);
      mkStep "completed" "EMIs Completed"
        (status_eqb status Completed) (status_eqb status Completed) ].

(** [totalEmis] and [paidEmis], as the panels and the lender's table count
    them. *)
Definition totalEmis (loan : Loan.t) : nat := length (Loan.schedule loan).

Definition paidEmis (loan : Loan.t) : nat :=
  length (List.filter Repayment.paid (Loan.schedule loan)).

End AdminLoans.

(** The users as the admin's user table and the login page hold them;
    [createdAt] is present on the users that registered themselves. *)
Module Account.
Record t : Type := mk {
  id : Z;
  name : string;
  email : string;
  password : string;
  role : string;
  createdAt : option string
}.

(** [{ ...u, name: n, email: e, role: r }] *)
Definition with_profile (n e r : string) (u : t) : t :=
  mk (id u) n e (password u) r (createdAt u).
End Account.

Module AdminUsers.

(** What a handler of the user table leaves behind. *)
Inductive Outcome : Type :=
  | Updated (users : list Account.t)
  | Refused (message : string).

(** The form of a new user. *)
Record NewUser : Type := mkNew {
  new_name : string;
  new_email : string;
  new_password : string;
  new_role : string
}.

(** The edit form of a user row. *)
Record EditingUser : Type := mkEdit {
  edit_name : string;
  edit_email : string;
  edit_role : string
}.

Definition is_empty (s : string) : bool :=
  match s with EmptyString => true | _ => false end.

Section Handlers.
(** [String.prototype.trim] and [String.prototype.toLowerCase] of the
    host. *)
Variable trim : string -> string.
Variable toLowerCase : string -> string.

(** [handleAddUser]; [existing] is what the storage holds under ["users"],
    [now] is [Date.now()]. *)
Definition handleAddUser (newUser : NewUser) (now : Z)
    (existing : list Account.t) : Outcome :=
  match List.find
          (fun u => String.eqb (Account.email u)
                               (toLowerCase (trim (new_email newUser))))
          existing with
  | Some _ => Refused "User already exists!"
  | None =>
      let user :=
        {| Account.id := now;
           Account.name := new_name newUser;
           Account.email := toLowerCase (trim (new_email newUser));
           Account.password := new_password newUser;
           Account.role := new_role newUser;
           Account.createdAt := None |} in
      Updated (existing ++ [user])
  end.

Definition handleSaveUser (editingUser : EditingUser) (userId : Z)
    (users : list Account.t) : Outcome :=
  let emailTrimmed := toLowerCase (trim (edit_email editingUser)) in
  if is_empty (trim (edit_name editingUser))
  then Refused "Name cannot be empty."
  else if is_empty emailTrimmed
  then Refused "Email cannot be empty."
  else
    let existsOther :=
      existsb (fun u => negb (Account.id u =? userId)
                        && String.eqb (Account.email u) emailTrimmed)
              users in
    if existsOther then Refused "Another user already has this email."
    else
      Updated
        (fmap (fun u =>
                if Account.id u =? userId
                then Account.with_profile (trim (edit_name editingUser))
                       emailTrimmed (edit_role editingUser) u
                else u)
             users).
End Handlers.

(** [handleDeleteUser]; [currentUser] is the admin who is logged in. *)
Definition handleDeleteUser (currentUser : option Account.t) (userId : Z)
    (users : list Account.t) : Outcome :=
  if match currentUser with
     | Some c => Account.id c =? userId
     | None => false
     end
  then Refused "You cannot delete your own admin account."
  else Updated (List.filter (fun u => negb (Account.id u =? userId)) users).

(** [lenders]: the users offered in the lender select. *)
Definition lenders (users : list Account.t) : list Account.t :=
  List.filter (fun u => String.eqb (Account.role u) "lender") users.

End AdminUsers.

(** ** The borrower's and the lender's counters *)

Module Counters.

(** [totalEmiCount] and [paidEmiCount] of the borrower's [stats]. *)
Definition totalEmiCount (loans : list Loan.t) : nat :=
  fold_left (fun sum l => (sum + length (Loan.schedule l))%nat) loans 0%nat.

Definition paidEmiCount (loans : list Loan.t) : nat :=
  fold_left
    (fun sum l => (sum + length (List.filter Repayment.paid (Loan.schedule l)))%nat)
    loans 0%nat.

End Counters.

(** ** The analyst dashboard *)

Module Analyst.
Import Num.

Record Metrics : Type := mkMetrics {
  totalLoans : nat;
  activeLoans : nat;
  completedLoans : nat;
  rejectedLoans : nat;
  pendingLoans : nat
}.

(** The counters of the derived metrics. *)
Definition metrics (loans : list Loan.t) : Metrics :=
  let pendingLoans := AdminLoans.count Pending loans in
  let approvedLoans := AdminLoans.count Approved loans in
  let disbursedLoans := AdminLoans.count FundsDisbursed loans in
  let completedLoans := AdminLoans.count Completed loans in
  let rejectedLoans := AdminLoans.count Rejected loans in
  {| totalLoans := length loans;
     activeLoans := (approvedLoans + disbursedLoans)%nat;
     completedLoans := completedLoans;
     rejectedLoans := rejectedLoans;
     pendingLoans := pendingLoans |}.

(** The values of [statusData], the slices of the pie chart. *)
Definition statusData (loans : list Loan.t) : list (string * nat) :=
  let m := metrics loans in
  [ ("Pending", pendingLoans m);
    ("Approved / Active", activeLoans m);
    ("Funds Disbursed", AdminLoans.count FundsDisbursed loans);
    ("Completed", completedLoans m);
    ("Rejected", rejectedLoans m) ].

(** A [Map] from texts to Numbers, in the order of insertion. *)
Fixpoint map_get (k : string) (m : list (string * number)) : option number :=
  match m with
  | [] => None
  | (k', v) :: m' => if String.eqb k' k then Some v else map_get k m'
  end.

Fixpoint map_set (k : string) (v : number) (m : list (string * number))
    : list (string * number) :=
  match m with
  | [] => [(k, v)]
  | (k', v') :: m' =>
      if String.eqb k' k then (k', v) :: m' else (k', v') :: map_set k v m'
  end.

(** [l.borrowerName || "Unknown"] *)
Definition key (l : Loan.t) : string :=
  match Loan.borrowerName l with
  | EmptyString => "Unknown"
  | name => name
  end.

(** [borrowerData]: the loan amount per borrower name. *)
Definition borrowerData (loans : list Loan.t) : list (string * number) :=
  fold_left
    (fun map l =>
       let key := key l in
       let current :=
         match map_get key map with
         | Some v => (v || zero)%num
         | None => zero
         end in
       map_set key (current + (Loan.amount l || zero))%num map)
    loans [].

End Analyst.

(** ** The login page *)

(** The patterns that [validateEmail] needs, over the code units of a
    text; a text here holds code units below 256. *)
Module Regex.

Inductive t : Type :=
  | Never
  | Empty
  | Class (p : ascii -> bool)
  | Seq (r s : t)
  | Alt (r s : t)
  | Star (r : t).

(** [r+] *)
Definition Plus (r : t) : t := Seq r (Star r).

(** One given code unit. *)
Definition Unit (c : ascii) : t := Class (Ascii.eqb c).

Fixpoint nullable (r : t) : bool :=
  match r with
  | Never => false
  | Empty => true
  | Class _ => false
  | Seq r s => nullable r && nullable s
  | Alt r s => nullable r || nullable s
  | Star _ => true
  end.

(** What is left of a pattern after the code unit [c]. *)
Fixpoint derive (c : ascii) (r : t) : t :=
  match r with
  | Never => Never
  | Empty => Never
  | Class p => if p c then Empty else Never
  | Seq r s => Alt (Seq (derive c r) s) (if nullable r then derive c s else Never)
  | Alt r s => Alt (derive c r) (derive c s)
  | Star r => Seq (derive c r) (Star r)
  end.

(** [/^r$/.test(s)]: the whole text matches the pattern. *)
Fixpoint test (r : t) (s : string) : bool :=
  match s with
  | EmptyString => nullable r
  | String c s' => test (derive c r) s'
  end.

(** The texts that a pattern stands for. *)
Inductive matches : t -> string -> Prop :=
  | matches_empty : matches Empty ""
  | matches_class (p : ascii -> bool) (c : ascii) :
      p c = true -> matches (Class p) (String c "")
  | matches_seq (r s : t) (u v : string) :
      matches r u -> matches s v -> matches (Seq r s) (u ++ v)
  | matches_alt_l (r s : t) (u : string) : matches r u -> matches (Alt r s) u
  | matches_alt_r (r s : t) (u : string) : matches s u -> matches (Alt r s) u
  | matches_star_nil (r : t) : matches (Star r) ""
  | matches_star_more (r : t) (u v : string) :
      matches r u -> matches (Star r) v -> matches (Star r) (u ++ v).

(** [\s] among the code units below 256: tab, line feed, vertical tab,
    form feed, carriage return, space and no-break space. *)
Definition is_space (c : ascii) : bool :=
  let n := nat_of_ascii c in
  ((9 <=? n)%nat && (n <=? 13)%nat) || (n =? 32)%nat || (n =? 160)%nat.

(** [[^\s@]] *)
Definition no_space_no_at (c : ascii) : bool :=
  negb (is_space c || Ascii.eqb c "@").

(** Every code unit of a text is in a class. *)
Fixpoint all_units (p : ascii -> bool) (s : string) : bool :=
  match s with
  | EmptyString => true
  | String c s' => p c && all_units p s'
  end.

End Regex.

Module Login.

(** The form of the page, for both modes. *)
Record Form : Type := mkForm {
  form_name : string;
  form_email : string;
  form_password : string;
  form_role : string
}.

(** What [handleRegister] leaves behind: the users it saves, or the error
    toast it returns with. *)
Inductive Registration : Type :=
  | Registered (users : list Account.t)
  | NotRegistered (message : string).

(** What [handleLogin] leaves behind: the user stored under ["user"] and
    the path it navigates to, or the error toast it returns with. *)
Inductive Session : Type :=
  | LoggedIn (user : Account.t) (path : string)
  | NotLoggedIn (message : string).

(** [/^[^\s@]+@[^\s@]+\.[^\s@]+$/] *)
Definition email_pattern : Regex.t :=
  Regex.Seq (Regex.Plus (Regex.Class Regex.no_space_no_at))
    (Regex.Seq (Regex.Unit "@")
       (Regex.Seq (Regex.Plus (Regex.Class Regex.no_space_no_at))
          (Regex.Seq (Regex.Unit ".")
             (Regex.Plus (Regex.Class Regex.no_space_no_at))))).

Definition validRoles : list string := ["admin"; "lender"; "borrower"; "analyst"].

(** The [switch] at the end of [handleLogin]. *)
Definition destination (role : string) : string :=
  if String.eqb role "admin" then "/admin"
  else if String.eqb role "lender" then "/lender"
  else if String.eqb role "borrower" then "/borrower"
  else if String.eqb role "analyst" then "/analyst"
  else "/".

(** The effect of the page on a visitor who is logged in already: the path
    it navigates to, if any. *)
Definition redirect (logged : option Account.t) : option string :=
  match logged with
  | None => None
  | Some user =>
      if String.eqb (Account.role user) "admin" then Some "/admin"
      else if String.eqb (Account.role user) "lender" then Some "/lender"
      else if String.eqb (Account.role user) "borrower" then Some "/borrower"
      else if String.eqb (Account.role user) "analyst" then Some "/analyst"
      else None
  end.

Section Handlers.
(** [String.prototype.trim] and [String.prototype.toLowerCase] of the
    host. *)
Variable trim : string -> string.
Variable toLowerCase : string -> string.

Definition validateEmail (email : string) : bool :=
  Regex.test email_pattern (toLowerCase email).

(** [handleRegister]; [users] is what the storage holds under ["users"],
    [now] is [Date.now()] and [nowISO] is [new Date().toISOString()].  The
    flag [isSubmitting] is reset on every way out, so it is unset on
    entry. *)
Definition handleRegister (form : Form) (now : Z) (nowISO : string)
    (users : list Account.t) : Registration :=
  let name := trim (form_name form) in
  let email := toLowerCase (trim (form_email form)) in
  let password := form_password form in
  if AdminUsers.is_empty name then NotRegistered "Please enter your full name."
  else if negb (validateEmail email)
  then NotRegistered "Please enter a valid email address."
  else if (String.length password <? 6)%nat
  then NotRegistered "Password must be at least 6 characters."
  else
    let role :=
      if existsb (String.eqb (form_role form)) validRoles
      then form_role form else "borrower" in
    match List.find (fun u => String.eqb (Account.email u) email) users with
    | Some _ => NotRegistered "User already exists with this email."
    | None =>
        let newUser :=
          {| Account.id := now;
             Account.name := name;
             Account.email := email;
             Account.password := password;
             Account.role := role;
             Account.createdAt := Some nowISO |} in
        Registered (users ++ [newUser])
    end.

(** [handleLogin] *)
Definition handleLogin (form : Form) (users : list Account.t) : Session :=
  let email := toLowerCase (trim (form_email form)) in
  let password := form_password form in
  if negb (validateEmail email)
  then NotLoggedIn "Please enter a valid email address."
  else if AdminUsers.is_empty password
  then NotLoggedIn "Please enter your password."
  else
    match List.find
            (fun u => String.eqb (toLowerCase (Account.email u)) email
                      && String.eqb (Account.password u) password)
            users with
    | None => NotLoggedIn "Invalid email or password."
    | Some user => LoggedIn user (destination (Account.role user))
    end.
End Handlers.

(** Every stored email is in lower case already. *)
Definition lowered (toLowerCase : string -> string) (users : list Account.t)
    : Prop :=
  Forall (fun u => toLowerCase (Account.email u) = Account.email u) users.

End Login.

(** ** The pages and who may stay on them *)

Module Pages.

Inductive Page : Type :=
  | LoginPage
  | AdminDashboard
  | BorrowerDashboard
  | LenderDashboard
  | AnalystDashboard.

(** The routes of [App]. *)
Definition route (path : string) : option Page :=
  if String.eqb path "/" then Some LoginPage
  else if String.eqb path "/admin" then Some AdminDashboard
  else if String.eqb path "/borrower" then Some BorrowerDashboard
  else if String.eqb path "/lender" then Some LenderDashboard
  else if String.eqb path "/analyst" then Some AnalystDashboard
  else None.

(** Whether the initial load of a page keeps a visitor, [logged] being
    what the storage holds under ["user"]; otherwise it navigates to
    ["/"]. *)
Definition lets_in (page : Page) (logged : option Account.t) : bool :=
  match page, logged with
  | LoginPage, _ => true
  | _, None => false
  | AdminDashboard, Some user => String.eqb (Account.role user) "admin"
  | AnalystDashboard, Some user => String.eqb (Account.role user) "analyst"
  | BorrowerDashboard, Some _ => true
  | LenderDashboard, Some _ => true
  end.

(** An entry of the sidebar of [DashboardLayout]. *)
Record NavItem : Type := mkNavItem {
  role : string;
  label : string;
  path : string
}.

Definition navItems : list NavItem :=
  [ mkNavItem "admin" "Admin Dashboard" "/admin";
    mkNavItem "borrower" "Borrower Dashboard" "/borrower";
    mkNavItem "lender" "Lender Dashboard" "/lender";
    mkNavItem "analyst" "Analyst Dashboard" "/analyst" ].

Definition allowedRoutes (user : Account.t) : list NavItem :=
  List.filter (fun i => String.eqb (role i) (Account.role user)) navItems.

End Pages.

(** ** The admin's list and the storage *)

Module AdminStore.

(** The admin's initial load: every stored loan. *)
Definition load (storedLoans : list Loan.t) : Store :=
  {| view := storedLoans; stored := storedLoans |}.

(** The admin's [updateLoans]: the list takes the place of what is
    stored. *)
Definition updateLoans (updated : list Loan.t) (st : Store) : Store :=
  {| view := updated; stored := updated |}.

Definition handleApprove (id : Z) (st : Store) : Store :=
  updateLoans (Admin.handleApprove id (view st)) st.

Definition handleReject (id : Z) (st : Store) : Store :=
  updateLoans (Admin.handleReject id (view st)) st.

Definition handleDeleteLoan (loanId : Z) (st : Store) : Store :=
  updateLoans (AdminLoans.handleDeleteLoan loanId (view st)) st.

End AdminStore.

(** A dashboard that loaded its list before another one wrote to the
    storage: its own list over what is stored now. *)
Definition behind (mine : Store) (now : Store) : Store :=
  {| view := view mine; stored := stored now |}.

(** ** Sample data *)

Module Sample.
Import Num.

Definition borrower : User.t :=
  {| User.id := 1; User.name := "Asha"; User.email := "asha@example.com";
     User.role := "borrower" |}.

Definition lender : User.t :=
  {| User.id := 2; User.name := "Ravi"; User.email := "ravi@example.com";
     User.role := "lender" |}.

(** [trim] on texts that carry no outer white space. *)
Definition trim (s : string) : string := s.

Definition form : Borrower.LoanForm :=
  {| Borrower.form_amount := of_Z 12000;
     Borrower.form_duration := of_Z 2;
     Borrower.form_purpose := "Books";
     Borrower.form_aadhar := "123412341234";
     Borrower.form_pan := "ABCDE1234F";
     Borrower.form_address := "Pune" |}.

(** The loan that [handleRequestLoan] creates from [form]. *)
Definition fresh : Loan.t :=
  {| Loan.id := 1700000000000;
     Loan.borrowerId := 1;
     Loan.borrowerName := "Asha";
     Loan.amount := of_Z 12000;
     Loan.duration := of_Z 2;
     Loan.purpose := "Books";
     Loan.aadhar := "123412341234";
     Loan.pan := "ABCDE1234F";
     Loan.address := "Pune";
     Loan.status := Pending;
     Loan.lenderId := None;
     Loan.lenderName := None;
     Loan.repayments := Some [];
     Loan.createdAt := "2023-11-14T22:13:20.000Z";
     Loan.disbursedAt := None |}.

Definition entry (i : N) (paid : bool) : Repayment.t :=
  {| Repayment.month := String.append "Month " (digits i);
     Repayment.amount := Fixed2 false 600000;
     Repayment.paid := paid |}.

(** [fresh] in a later state: with the given status and schedule. *)
Definition later (s : Status) (rs : list Repayment.t) : Loan.t :=
  Loan.with_status s (Loan.with_repayments rs fresh).

(** An edit form that keeps amount, duration and purpose and selects the
    status [s]. *)
Definition edit (s : Status) : Admin.EditingLoan :=
  {| Admin.edit_amount := of_Z 12000;
     Admin.edit_duration := of_Z 2;
     Admin.edit_purpose := "Books";
     Admin.edit_status := Some s |}.

End Sample.

(** Sample users of the admin's table. *)
Module SampleUsers.

Definition admin : Account.t :=
  {| Account.id := 10; Account.name := "Meera"; Account.email := "meera@example.com";
     Account.password := "secret1"; Account.role := "admin";
     Account.createdAt := None |}.

Definition lender : Account.t :=
  {| Account.id := 2; Account.name := "Ravi"; Account.email := "ravi@example.com";
     Account.password := "secret2"; Account.role := "lender";
     Account.createdAt := Some "2023-11-01T08:00:00.000Z" |}.

Definition users : list Account.t := [admin; lender].

Definition edit : AdminUsers.EditingUser :=
  {| AdminUsers.edit_name := "Ravi K";
     AdminUsers.edit_email := "ravi.k@example.com";
     AdminUsers.edit_role := "lender" |}.

(** [trim] and [toLowerCase] on texts in lower case without outer white
    space. *)
Definition trim (s : string) : string := s.
Definition toLowerCase (s : string) : string := s.

(** The form of the login page, filled by a new borrower. *)
Definition form : Login.Form :=
  {| Login.form_name := "Asha";
     Login.form_email := "asha@example.com";
     Login.form_password := "secret3";
     Login.form_role := "borrower" |}.

End SampleUsers.

(** * Properties *)

(** ** Numbers *)

Section NumFacts.
Import Num.

Lemma truthy_of_positive (x : number) : (zero <? x)%num = true -> truthy x = true.
Proof. by destruct x as [[]|[]| |[] ? ?]. Qed.

Lemma or_else_truthy (x d : number) : truthy x = true -> (x || d)%num = x.
Proof. unfold or_else. by intros ->. Qed.

Lemma natural_truthy (x : number) (k : Z) :
  natural x = Some k -> 1 <= k -> truthy x = true.
Proof.
  destruct x as [s| | |[] m e]; simpl; try done.
  intros [= <-]. lia.
Qed.

Lemma ToLength_natural (x : number) (k : Z) :
  natural x = Some k -> 1 <= k <= 2 ^ 53 - 1 -> ToLength x = k.
Proof.
  destruct x as [s| | |[] m e]; simpl natural; try done.
  - intros [= <-]. lia.
  - unfold ToLength. destruct (0 <=? e).
    + intros [= <-] ?. lia.
    + destruct (_ =? 0); [|done]. intros [= <-] ?. lia.
Qed.

(** From 2^53 on the length is clamped. *)
Lemma ToLength_natural_large (x : number) (k : Z) :
  natural x = Some k -> 2 ^ 53 - 1 <= k -> ToLength x = 2 ^ 53 - 1.
Proof.
  destruct x as [s| | |[] m e]; simpl natural; try done.
  - intros [= <-]. lia.
  - unfold ToLength. destruct (0 <=? e).
    + intros [= <-] ?. lia.
    + destruct (_ =? 0); [|done]. intros [= <-] ?. lia.
Qed.

End NumFacts.

(** ** Rounding to cents *)

Section Cents.
Import Num.

Lemma pow2_pos (n : Z) : 0 <= n -> 0 < 2 ^ n.
Proof. intros. by apply Z.pow_pos_nonneg. Qed.

(** The cents that [toFixed(2)] picks are within half a cent. *)
Lemma half_up_cents_near (m : positive) (e : Z) :
  (Qabs ((half_up_cents m e # 100) - magnitude m e) <= 1 # 200)%Q.
Proof.
  unfold half_up_cents, magnitude. destruct (Z.leb_spec 0 e) as [He|He].
  - apply (proj2 (Qabs_Qle_condition _ _)). unfold Qle, Qminus, Qplus, Qopp, inject_Z; simpl.
    split; lia.
  - assert (Hd : 0 < 2 ^ (- e)) by (apply pow2_pos; lia).
    set (d := 2 ^ (- e)) in *.
    pose proof (Z.div_mod (Z.pos m * 200 + d) (2 * d) ltac:(lia)) as Hdm.
    pose proof (Z.mod_pos_bound (Z.pos m * 200 + d) (2 * d) ltac:(lia)) as Hb.
    set (c := (Z.pos m * 200 + d) / (2 * d)) in *.
    apply (proj2 (Qabs_Qle_condition _ _)). unfold Qle, Qminus, Qplus, Qopp; simpl.
    rewrite !Z2Pos.id by done. split; nia.
Qed.

Lemma toFixed2_near (x : number) (q : Q) :
  value x = Some q ->
  exists v : Q, text_value (toFixed2 x) = Some v /\ (Qabs (v - q) <= 1 # 200)%Q.
Proof.
  destruct x as [s| | |s m e]; cbn [value]; try done.
  - intros [= <-]. exists (0 # 100)%Q. split; [done|]. by vm_compute.
  - intros [= <-]. unfold toFixed2.
    destruct (at_least_1e21 m e); cbn [text_value value].
    + eexists. split; [done|].
      apply (proj2 (Qabs_Qle_condition _ _)). split; lra.
    + eexists. split; [done|]. pose proof (half_up_cents_near m e) as Hnear.
      destruct s; [|done].
      apply Qabs_Qle_condition in Hnear.
      apply (proj2 (Qabs_Qle_condition _ _)). split; lra.
Qed.

End Cents.

(** ** How far a rounded result is from the real one *)

Section Rounding.
Import Num.

Lemma digits2_pos_bounds (p : positive) :
  2 ^ (Z.pos (digits2_pos p) - 1) <= Z.pos p < 2 ^ Z.pos (digits2_pos p).
Proof.
  induction p as [p IH|p IH|]; simpl digits2_pos.
  - rewrite Pos2Z.inj_succ.
    replace (Z.succ (Z.pos (digits2_pos p)) - 1) with (Z.succ (Z.pos (digits2_pos p) - 1)) by lia.
    rewrite !Z.pow_succ_r by lia. lia.
  - rewrite Pos2Z.inj_succ.
    replace (Z.succ (Z.pos (digits2_pos p)) - 1) with (Z.succ (Z.pos (digits2_pos p) - 1)) by lia.
    rewrite !Z.pow_succ_r by lia. lia.
  - simpl. lia.
Qed.

(** A natural number below [2 ^ j] has at most [j] binary digits. *)
Lemma Zdigits2_le (m j : Z) : 0 <= m < 2 ^ j -> 0 <= j -> 0 <= Zdigits2 m <= j.
Proof.
  intros [Hm Hlt] Hj. destruct m as [|p|p]; simpl; [lia| |lia].
  pose proof (digits2_pos_bounds p) as [Hlo _].
  split; [lia|].
  destruct (Z.le_gt_cases (Z.pos (digits2_pos p)) j) as [|Hgt]; [done|].
  assert (2 ^ j <= 2 ^ (Z.pos (digits2_pos p) - 1)) by (apply Z.pow_le_mono_r; lia).
  lia.
Qed.

Lemma Zdigits2_nonneg (m : Z) : 0 <= Zdigits2 m.
Proof. destruct m; simpl; lia. Qed.

Lemma Zdigits2_bounds (m : Z) :
  0 < m -> 2 ^ (Zdigits2 m - 1) <= m < 2 ^ Zdigits2 m.
Proof. destruct m as [|p|p]; [lia| |lia]. intros _. apply digits2_pos_bounds. Qed.

Lemma Zdigits2_pos (m : Z) : 0 < m -> 1 <= Zdigits2 m.
Proof. destruct m as [|p|p]; simpl; lia. Qed.

(** The number of binary digits is the [d] with [2^(d-1) <= m < 2^d]. *)
Lemma Zdigits2_unique (m d : Z) :
  0 < m -> 2 ^ (d - 1) <= m < 2 ^ d -> Zdigits2 m = d.
Proof.
  intros Hm [Hlo Hhi]. pose proof (Zdigits2_bounds m Hm) as [Hlo' Hhi'].
  pose proof (Zdigits2_pos m Hm) as Hd.
  assert (Hd0 : 1 <= d).
  { destruct (Z.le_gt_cases 1 d) as [|Hlt]; [done|].
    assert (2 ^ d <= 2 ^ 0) by (destruct (Z.le_gt_cases 0 d);
      [apply Z.pow_le_mono_r; lia|rewrite Z.pow_neg_r by lia; simpl; lia]).
    simpl in *. lia. }
  destruct (Z.lt_trichotomy (Zdigits2 m) d) as [Hlt|[Heq|Hgt]]; [|done|].
  - assert (2 ^ Zdigits2 m <= 2 ^ (d - 1)) by (apply Z.pow_le_mono_r; lia). lia.
  - assert (2 ^ d <= 2 ^ (Zdigits2 m - 1)) by (apply Z.pow_le_mono_r; lia). lia.
Qed.

Lemma Zdigits2_mono (a b : Z) : 0 <= a <= b -> Zdigits2 a <= Zdigits2 b.
Proof.
  intros [Ha Hab]. destruct (Z.eq_dec a 0) as [->|Hne].
  - simpl. destruct b; simpl; lia.
  - pose proof (Zdigits2_bounds b ltac:(lia)) as [_ Hb].
    apply Zdigits2_le; [lia|]. pose proof (Zdigits2_pos b ltac:(lia)). lia.
Qed.

Lemma Zdigits2_succ (t : Z) : 0 <= t -> Zdigits2 (t + 1) <= Zdigits2 t + 1.
Proof.
  intros Ht. destruct (Z.eq_dec t 0) as [->|Hne]; [simpl; lia|].
  pose proof (Zdigits2_bounds t ltac:(lia)) as [_ Hhi].
  pose proof (Zdigits2_pos t ltac:(lia)).
  apply Zdigits2_le; [|lia]. rewrite Z.pow_add_r by lia. simpl (2 ^ 1). lia.
Qed.

(** Dropping [n] binary digits. *)
Lemma Zdigits2_div_pow2 (m n : Z) :
  0 <= m -> 0 <= n -> Zdigits2 (m / 2 ^ n) = Z.max (Zdigits2 m - n) 0.
Proof.
  intros Hm Hn. assert (Hp : 0 < 2 ^ n) by (apply Z.pow_pos_nonneg; lia).
  destruct (Z.eq_dec m 0) as [->|Hne].
  { rewrite Z.div_0_l by lia. simpl. lia. }
  pose proof (Zdigits2_bounds m ltac:(lia)) as [Hlo Hhi].
  pose proof (Zdigits2_pos m ltac:(lia)) as Hd.
  set (d := Zdigits2 m) in *.
  destruct (Z.le_gt_cases d n) as [Hle|Hgt].
  - rewrite Z.max_r by lia.
    assert (2 ^ d <= 2 ^ n) by (apply Z.pow_le_mono_r; lia).
    rewrite Z.div_small by lia. done.
  - rewrite Z.max_l by lia.
    assert (Hsplit : 2 ^ (d - 1) = 2 ^ (d - n - 1) * 2 ^ n)
      by (rewrite <- Z.pow_add_r by lia; f_equal; lia).
    assert (Hsplit' : 2 ^ d = 2 ^ (d - n) * 2 ^ n)
      by (rewrite <- Z.pow_add_r by lia; f_equal; lia).
    assert (Hq1 : 2 ^ (d - n - 1) <= m / 2 ^ n).
    { apply Z.div_le_lower_bound; [done|]. lia. }
    assert (Hq2 : m / 2 ^ n < 2 ^ (d - n)).
    { apply Z.div_lt_upper_bound; [done|]. lia. }
    assert (0 < 2 ^ (d - n - 1)) by (apply Z.pow_pos_nonneg; lia).
    apply Zdigits2_unique; [lia|]. split; [|done].
    by replace (d - n - 1) with (d - n - 1) by lia.
Qed.

Lemma shr_1_half (mrs : shr_record) :
  0 <= shr_m mrs -> shr_m (shr_1 mrs) = shr_m mrs / 2.
Proof.
  destruct mrs as [m r s]. cbn [shr_m]. intros Hm.
  destruct m as [|[p|p|]|p]; cbn [shr_1 shr_m]; try lia.
  - reflexivity.
  - apply (Z.div_unique (Z.pos p~1) 2 (Z.pos p) 1); lia.
  - apply (Z.div_unique (Z.pos p~0) 2 (Z.pos p) 0); lia.
  - reflexivity.
Qed.

Lemma iter_shr_1_div (p : positive) (mrs : shr_record) :
  0 <= shr_m mrs ->
  0 <= shr_m (SpecFloat.iter_pos shr_1 p mrs)
  /\ shr_m (SpecFloat.iter_pos shr_1 p mrs) = shr_m mrs / 2 ^ Z.pos p.
Proof.
  revert mrs. induction p as [p IH|p IH|]; intros mrs Hm; cbn [SpecFloat.iter_pos].
  - assert (H1 : 0 <= shr_m (shr_1 mrs)).
    { rewrite shr_1_half by done. apply Z.div_pos; lia. }
    destruct (IH _ H1) as [H2 E2]. destruct (IH _ H2) as [H3 E3].
    split; [done|]. rewrite E3, E2, shr_1_half by done.
    rewrite !Z.div_div by (try apply Z.pow_pos_nonneg; lia).
    f_equal. rewrite <- (Z.pow_1_r 2) at 1. rewrite <- !Z.pow_add_r by lia.
    f_equal. lia.
  - destruct (IH _ Hm) as [H2 E2]. destruct (IH _ H2) as [H3 E3].
    split; [done|]. rewrite E3, E2.
    rewrite !Z.div_div by (try apply Z.pow_pos_nonneg; lia).
    f_equal. rewrite <- Z.pow_add_r by lia. f_equal. lia.
  - rewrite shr_1_half by done. split; [apply Z.div_pos; lia|]. by rewrite Z.pow_1_r.
Qed.

(** [shr_fexp] on a natural mantissa: the exponent it reaches and the
    mantissa it leaves. *)
Lemma shr_fexp_div (m e : Z) (l : location) :
  0 <= m ->
  let e' := Z.max e (fexp prec emax (Zdigits2 m + e)) in
  snd (shr_fexp prec emax m e l) = e'
  /\ shr_m (fst (shr_fexp prec emax m e l)) = m / 2 ^ (e' - e).
Proof.
  intros Hm e'. unfold shr_fexp, shr.
  assert (H0 : shr_m (shr_record_of_loc m l) = m) by (by destruct l as [|[]]).
  destruct (fexp prec emax (Zdigits2 m + e) - e) as [|p|p] eqn:Hn; cbn [fst snd].
  - replace e' with e by (unfold e'; lia).
    by rewrite H0, Z.sub_diag, Z.div_1_r.
  - assert (He : e' = e + Z.pos p) by (unfold e'; lia).
    split; [lia|].
    destruct (iter_shr_1_div p (shr_record_of_loc m l)) as [_ ->]; [lia|].
    rewrite H0. f_equal. f_equal. lia.
  - replace e' with e by (unfold e'; lia).
    by rewrite H0, Z.sub_diag, Z.div_1_r.
Qed.

Lemma round_nearest_even_near (m : Z) (l : location) :
  m <= round_nearest_even m l <= m + 1.
Proof. destruct l as [|[]]; simpl; try lia. destruct (Z.even m); lia. Qed.

(** What [binary_round_aux] makes of a natural mantissa: a mantissa [m]
    and an exponent [e] that stand for the result, [m 2^e] being less than
    [2^e] away from the real number whose truncation at [2^ex] is [mx]. *)
Lemma binary_round_aux_near (s : bool) (mx ex : Z) (l : location) :
  0 <= mx ->
  exists m e : Z,
    0 <= m
    /\ ex <= e <= Z.max ex (fexp prec emax (Zdigits2 mx + ex)) + 1
    /\ mx - 2 ^ (e - ex) < m * 2 ^ (e - ex) <= mx + 2 ^ (e - ex)
    /\ (ex <= fexp prec emax (Zdigits2 mx + ex) ->
        m = 0 \/ fexp prec emax (Zdigits2 m + e) = e)
    /\ binary_round_aux prec emax s mx ex l
       = match m with
         | 0 => S754_zero s
         | Z.pos p => if e <=? emax - prec then S754_finite s p e else S754_infinity s
         | Z.neg _ => S754_nan
         end.
Proof.
  intros Hmx. unfold binary_round_aux.
  destruct (shr_fexp_div mx ex l Hmx) as [He1 Hm1].
  destruct (shr_fexp prec emax mx ex l) as [mrs1 e1]. cbn [fst snd] in He1, Hm1.
  cbv zeta in He1, Hm1. rewrite <- He1 in Hm1.
  set (t := shr_m mrs1) in *.
  set (m1 := round_nearest_even t (loc_of_shr_record mrs1)).
  pose proof (round_nearest_even_near t (loc_of_shr_record mrs1)) as Hr. fold m1 in Hr.
  set (D := Zdigits2 mx + ex) in *.
  assert (Hn1 : 0 <= e1 - ex) by lia.
  assert (Hp1 : 0 < 2 ^ (e1 - ex)) by (apply Z.pow_pos_nonneg; lia).
  assert (Ht : 0 <= t) by (rewrite Hm1; apply Z.div_pos; lia).
  assert (Htdm : 2 ^ (e1 - ex) * t <= mx < 2 ^ (e1 - ex) * (t + 1)).
  { pose proof (Z.div_mod mx (2 ^ (e1 - ex)) ltac:(lia)) as Hdm.
    pose proof (Z.mod_pos_bound mx (2 ^ (e1 - ex)) Hp1) as Hb.
    rewrite <- Hm1 in Hdm. lia. }
  assert (Hm1' : 0 <= m1) by lia.
  destruct (shr_fexp_div m1 e1 loc_Exact Hm1') as [He2 Hm2].
  destruct (shr_fexp prec emax m1 e1 loc_Exact) as [mrs2 e2]. cbn [fst snd] in He2, Hm2.
  cbv zeta in He2, Hm2. rewrite <- He2 in Hm2.
  set (m := shr_m mrs2) in *.
  assert (Hn2 : 0 <= e2 - e1) by lia.
  assert (Hp2 : 0 < 2 ^ (e2 - e1)) by (apply Z.pow_pos_nonneg; lia).
  assert (Hmdm : 2 ^ (e2 - e1) * m <= m1 < 2 ^ (e2 - e1) * (m + 1)).
  { pose proof (Z.div_mod m1 (2 ^ (e2 - e1)) ltac:(lia)) as Hdm.
    pose proof (Z.mod_pos_bound m1 (2 ^ (e2 - e1)) Hp2) as Hb.
    rewrite <- Hm2 in Hdm. lia. }
  assert (Hm0 : 0 <= m) by (rewrite Hm2; apply Z.div_pos; lia).
  (* the digits of the rounded mantissa *)
  assert (Hd1 : Zdigits2 m1 <= Z.max (D - e1) 0 + 1).
  { assert (Hdx : mx < 2 ^ (Zdigits2 mx)).
    { destruct mx as [|p|p]; [simpl; lia| |lia]. apply digits2_pos_bounds. }
    assert (Hdx0 : 0 <= Zdigits2 mx) by (destruct mx; simpl; lia).
    assert (Htj : t < 2 ^ Z.max (D - e1) 0).
    { destruct (Z.le_gt_cases (e1 - ex) (Zdigits2 mx)) as [Hle|Hgt].
      - replace (Z.max (D - e1) 0) with (Zdigits2 mx - (e1 - ex)) by (unfold D; lia).
        assert (2 ^ (e1 - ex) * 2 ^ (Zdigits2 mx - (e1 - ex)) = 2 ^ Zdigits2 mx).
        { rewrite <- Z.pow_add_r by lia. f_equal. lia. }
        nia.
      - replace (Z.max (D - e1) 0) with 0 by (unfold D; lia).
        assert (2 ^ Zdigits2 mx <= 2 ^ (e1 - ex)) by (apply Z.pow_le_mono_r; lia).
        simpl. nia. }
    apply (Zdigits2_le m1 (Z.max (D - e1) 0 + 1)); [|lia].
    split; [lia|]. rewrite Z.pow_add_r by lia. simpl (2 ^ 1). lia. }
  exists m, e2. split; [done|]. split; [|split; [|split]].
  - split; [lia|]. clearbody m1 t m D. unfold fexp, emin, prec, emax in *. lia.
  - replace (e2 - ex) with ((e2 - e1) + (e1 - ex)) by lia.
    rewrite Z.pow_add_r by lia. nia.
  - intros Hdigits.
    assert (Hdt : Zdigits2 t = Z.max (Zdigits2 mx - (e1 - ex)) 0).
    { rewrite Hm1. by apply Zdigits2_div_pow2. }
    assert (Hdm1 : Zdigits2 t <= Zdigits2 m1 <= Zdigits2 t + 1).
    { split; [apply Zdigits2_mono; lia|].
      etransitivity; [apply (Zdigits2_mono m1 (t + 1)); lia|].
      by apply Zdigits2_succ. }
    assert (Hdm : Zdigits2 m = Z.max (Zdigits2 m1 - (e2 - e1)) 0).
    { rewrite Hm2. by apply Zdigits2_div_pow2. }
    destruct (Z.eq_dec m 0) as [Hz|Hnz]; [by left|right].
    assert (Hmpos : 1 <= Zdigits2 m) by (apply Zdigits2_pos; lia).
    assert (Hm1pos : 1 <= Zdigits2 m1).
    { apply Zdigits2_pos. destruct (Z.eq_dec m1 0) as [Hz1|]; [|lia].
      rewrite Hz1, Z.div_0_l in Hm2 by lia. lia. }
    pose proof (Zdigits2_nonneg mx) as Hdx.
    clearbody m1 t m. unfold D, fexp, emin, prec, emax in *. lia.
  - done.
Qed.

End Rounding.

Section Division.
Import Num.

Lemma Zdigits2_lower (m j : Z) : 0 <= j -> 2 ^ j <= m -> j + 1 <= Zdigits2 m.
Proof.
  intros Hj Hm. assert (0 < 2 ^ j) by (apply Z.pow_pos_nonneg; lia).
  pose proof (Zdigits2_bounds m ltac:(lia)) as [_ Hhi].
  destruct (Z.le_gt_cases (j + 1) (Zdigits2 m)) as [|Hgt]; [done|].
  assert (2 ^ Zdigits2 m <= 2 ^ j)
    by (apply Z.pow_le_mono_r; [lia|lia]).
  lia.
Qed.

(** The quotient that [SFdiv] hands to the rounding. *)
Lemma SFdiv_core_binary_spec (m1 m2 : positive) (e1 e2 : Z) :
  let D := Z.pos (digits2_pos m1) + e1 - (Z.pos (digits2_pos m2) + e2) in
  exists (q e' : Z) (l : location),
    SFdiv_core_binary prec emax (Z.pos m1) e1 (Z.pos m2) e2 = (q, e', l)
    /\ e' = Z.min (fexp prec emax D) (e1 - e2)
    /\ 0 <= q
    /\ q * Z.pos m2 <= Z.pos m1 * 2 ^ (e1 - e2 - e') < (q + 1) * Z.pos m2
    /\ Zdigits2 q + e' <= Z.max (D + 1) e'
    /\ e' <= fexp prec emax (Zdigits2 q + e').
Proof.
  intros D. unfold SFdiv_core_binary. cbn [Zdigits2]. fold D.
  set (e' := Z.min (fexp prec emax D) (e1 - e2)).
  set (s := e1 - e2 - e').
  assert (Hs : 0 <= s) by (unfold s, e'; lia).
  set (m' := match s with 0 => Z.pos m1 | Z.pos _ => Z.shiftl (Z.pos m1) s | Z.neg _ => 0 end).
  assert (Hm' : m' = Z.pos m1 * 2 ^ s).
  { unfold m'. destruct s as [|p|p] eqn:Es; [simpl; lia| |lia].
    by rewrite Z.shiftl_mul_pow2 by lia. }
  assert (Hp : 0 < 2 ^ s) by (apply Z.pow_pos_nonneg; lia).
  pose proof (Z.div_eucl_eq m' (Z.pos m2) ltac:(lia)) as Heq.
  pose proof (Z.mod_pos_bound m' (Z.pos m2) ltac:(lia)) as Hb.
  unfold Z.modulo in Hb.
  destruct (Z.div_eucl m' (Z.pos m2)) as [q r].
  eexists q, e', _. split; [reflexivity|]. split; [done|].
  assert (Hq : 0 <= q) by nia.
  split; [done|].
  assert (Hqm : q * Z.pos m2 <= Z.pos m1 * 2 ^ s < (q + 1) * Z.pos m2)
    by (rewrite <- Hm'; nia).
  split; [done|].
  (* the digits of the quotient *)
  pose proof (digits2_pos_bounds m1) as [H1lo H1].
  pose proof (digits2_pos_bounds m2) as [H2 H2hi].
  set (d1 := Z.pos (digits2_pos m1)) in *.
  set (d2 := Z.pos (digits2_pos m2)) in *.
  assert (Hd1 : 1 <= d1) by (unfold d1; lia).
  assert (Hd2 : 1 <= d2) by (unfold d2; lia).
  assert (Hd : Zdigits2 q <= Z.max (d1 + s - d2 + 1) 0).
  { apply Zdigits2_le; [|lia]. split; [done|].
    destruct (Z.le_gt_cases 0 (d1 + s - d2 + 1)) as [Hle|Hgt].
    - rewrite Z.max_l by lia.
      assert (Hpow : 2 ^ (d1 + s - d2 + 1) * 2 ^ (d2 - 1) = 2 ^ d1 * 2 ^ s).
      { rewrite <- !Z.pow_add_r by lia. f_equal. lia. }
      assert (0 < 2 ^ (d2 - 1)) by (apply Z.pow_pos_nonneg; lia).
      assert (0 < 2 ^ (d1 + s - d2 + 1)) by (apply Z.pow_pos_nonneg; lia).
      nia.
    - rewrite Z.max_r by lia. simpl.
      assert (Hpow : 2 ^ d1 * 2 ^ s <= 2 ^ (d2 - 1)).
      { rewrite <- Z.pow_add_r by lia. apply Z.pow_le_mono_r; lia. }
      nia. }
  split; [unfold D, s in *; lia|].
  destruct (Z.eq_dec q 0) as [->|Hq0].
  - (* no quotient digit: the exponent is the least one *)
    assert (Hlow : d1 + s <= d2).
    { destruct (Z.le_gt_cases (d1 + s) d2) as [|Hgt]; [done|].
      assert (2 ^ d2 <= 2 ^ (d1 - 1) * 2 ^ s).
      { rewrite <- Z.pow_add_r by lia. apply Z.pow_le_mono_r; lia. }
      nia. }
    cbn [Zdigits2]. unfold D, s, e', fexp, emin, prec, emax in *. lia.
  - assert (Hdq : d1 + s - d2 <= Zdigits2 q).
    { pose proof (Zdigits2_pos q ltac:(lia)).
      destruct (Z.le_gt_cases 0 (d1 - 1 + s - d2)) as [Hle|Hgt]; [|lia].
      assert (Hlow : 2 ^ (d1 - 1 + s - d2) <= q).
      { assert (Hpow : 2 ^ (d1 - 1 + s - d2) * 2 ^ d2 = 2 ^ (d1 - 1) * 2 ^ s).
        { rewrite <- !Z.pow_add_r by lia. f_equal. lia. }
        assert (0 < 2 ^ (d1 - 1 + s - d2)) by (apply Z.pow_pos_nonneg; lia).
        nia. }
      pose proof (Zdigits2_lower q _ Hle Hlow). lia. }
    unfold D, s, e', fexp, emin, prec, emax in *. lia.
Qed.

(** The division of two finite Numbers, as a mantissa and an exponent. *)
Lemma SFdiv_finite (sx sy : bool) (m1 m2 : positive) (e1 e2 : Z) :
  let D := Z.pos (digits2_pos m1) + e1 - (Z.pos (digits2_pos m2) + e2) in
  exists (q e' m e : Z),
    0 <= q /\ 0 <= m
    /\ e' <= e1 - e2
    /\ q * Z.pos m2 <= Z.pos m1 * 2 ^ (e1 - e2 - e') < (q + 1) * Z.pos m2
    /\ e' <= e <= fexp prec emax D + 2
    /\ q - 2 ^ (e - e') < m * 2 ^ (e - e') <= q + 2 ^ (e - e')
    /\ (m = 0 \/ fexp prec emax (Zdigits2 m + e) = e)
    /\ SFdiv prec emax (S754_finite sx m1 e1) (S754_finite sy m2 e2)
       = match m with
         | 0 => S754_zero (xorb sx sy)
         | Z.pos p =>
             if e <=? emax - prec then S754_finite (xorb sx sy) p e
             else S754_infinity (xorb sx sy)
         | Z.neg _ => S754_nan
         end.
Proof.
  intros D.
  destruct (SFdiv_core_binary_spec m1 m2 e1 e2)
    as (q & e' & l & Hcore & He' & Hq & Hqm & Hd & Hdigits).
  fold D in He', Hd.
  destruct (binary_round_aux_near (xorb sx sy) q e' l Hq)
    as (m & e & Hm & He & Hnear & Hvalid & Hres).
  exists q, e', m, e. split; [done|]. split; [done|]. split; [lia|].
  split; [done|]. split.
  - split; [lia|]. clear Hres Hnear Hqm Hcore Hvalid.
    pose proof (Zdigits2_nonneg q).
    unfold fexp, emin, prec, emax in *. lia.
  - split; [done|]. split; [by apply Hvalid|].
    cbn [SFdiv]. rewrite Hcore. exact Hres.
Qed.

(** A quotient is a binary64 value, whatever the operands. *)
Lemma div_valid (x y : number) : is_binary64 (x / y)%num = true.
Proof.
  destruct x as [sx|sx| |sx mx ex], y as [sy|sy| |sy my ey]; try reflexivity.
  unfold div.
  destruct (SFdiv_finite sx sy mx my ex ey)
    as (q & e' & m & e & _ & Hm & _ & _ & _ & _ & Hvalid & ->).
  destruct m as [|p|p]; [done| |done].
  destruct (Z.leb_spec e (emax - prec)) as [Hle|Hgt]; [|done].
  destruct Hvalid as [|Hvalid]; [done|].
  unfold is_binary64, valid_binary, bounded, canonical_mantissa.
  cbn [Zdigits2] in Hvalid.
  rewrite Hvalid, Z.eqb_refl. simpl. by apply Z.leb_le.
Qed.

End Division.


Section Quotients.
Import Num.

Lemma pow2_pos_Q (z : Z) : (0 < 2 ^ z)%Q.
Proof. by apply Qpower_0_lt. Qed.

Lemma Qpos_neq0 (x : Q) : (0 < x)%Q -> ~ (x == 0)%Q.
Proof. intros Hx H0. rewrite H0 in Hx. by apply Qlt_irrefl in Hx. Qed.

Lemma pow2_add (a b : Z) : (2 ^ (a + b) == 2 ^ a * 2 ^ b)%Q.
Proof. by apply Qpower_plus. Qed.

Lemma pow2_inject (n : Z) : 0 <= n -> (inject_Z (2 ^ n) == 2 ^ n)%Q.
Proof. intros Hn. by rewrite Zpower_Qpower. Qed.

Lemma pow2_le (a b : Z) : a <= b -> (2 ^ a <= 2 ^ b)%Q.
Proof. intros Hab. by apply Qpower_le_compat_l. Qed.

(** The value of a finite Number is its mantissa times a power of two. *)
Lemma magnitude_pow2 (m : positive) (e : Z) :
  (magnitude m e == inject_Z (Z.pos m) * 2 ^ e)%Q.
Proof.
  unfold magnitude. destruct (Z.leb_spec 0 e) as [He|He].
  - by rewrite inject_Z_mult, pow2_inject.
  - assert (Hp : 0 < 2 ^ (- e)) by (apply Z.pow_pos_nonneg; lia).
    replace e with (- (- e)) at 2 by lia.
    rewrite Qpower_opp, <- pow2_inject by lia.
    rewrite (Qmake_Qdiv (Z.pos m) (Z.to_pos (2 ^ (- e)))).
    by rewrite Z2Pos.id.
Qed.

Lemma magnitude_pos (m : positive) (e : Z) : (0 < magnitude m e)%Q.
Proof.
  rewrite magnitude_pow2. apply Qmult_lt_0_compat; [|apply pow2_pos_Q].
  unfold Qlt, inject_Z. simpl. lia.
Qed.

(** The binary order of magnitude bounds the mantissa digits. *)
Lemma magnitude_digits (m : positive) (e : Z) :
  (2 ^ (Z.pos (digits2_pos m) - 1 + e) <= magnitude m e
   /\ magnitude m e < 2 ^ (Z.pos (digits2_pos m) + e))%Q.
Proof.
  pose proof (digits2_pos_bounds m) as [Hlo Hhi].
  rewrite magnitude_pow2, !pow2_add.
  pose proof (pow2_pos_Q e) as He.
  rewrite <- (pow2_inject (Z.pos (digits2_pos m) - 1)) by lia.
  rewrite <- (pow2_inject (Z.pos (digits2_pos m))) by lia.
  rewrite Zle_Qle in Hlo. rewrite Zlt_Qlt in Hhi. split.
  - by apply Qmult_le_compat_r; [|apply Qlt_le_weak].
  - by apply Qmult_lt_compat_r.
Qed.

(** The quotient of two positive finite Numbers is less than a unit in
    the last place of its order of magnitude away from the real
    quotient. *)
Lemma div_near (mx my : positive) (ex ey k : Z) :
  (magnitude mx ex < 2 ^ k * magnitude my ey)%Q ->
  -1021 <= k <= 1022 ->
  exists v : Q,
    value (S754_finite false mx ex / S754_finite false my ey)%num = Some v
    /\ (0 <= v)%Q
    /\ (Qabs (v - magnitude mx ex / magnitude my ey) <= 2 ^ (k - 51))%Q.
Proof.
  intros Hlt Hk.
  destruct (SFdiv_finite false false mx my ex ey)
    as (q & e' & m & e & Hq & Hm & He'le & Hqm & He & Hnear & _ & Hres).
  cbn [xorb] in Hres.
  set (D := Z.pos (digits2_pos mx) + ex - (Z.pos (digits2_pos my) + ey)) in *.
  (* the order of magnitude *)
  assert (HD : D <= k).
  { destruct (magnitude_digits mx ex) as [Hx _].
    destruct (magnitude_digits my ey) as [_ Hy].
    assert (Hpow : (2 ^ (Z.pos (digits2_pos mx) - 1 + ex)
                    < 2 ^ (k + (Z.pos (digits2_pos my) + ey)))%Q).
    { rewrite (pow2_add k). pose proof (pow2_pos_Q k).
      eapply Qle_lt_trans; [exact Hx|]. eapply Qlt_trans; [exact Hlt|].
      by apply Qmult_lt_l. }
    apply Qpower_lt_compat_l_inv in Hpow; [|done]. unfold D. lia. }
  assert (Hek : e <= k - 51) by (unfold fexp, emin, prec, emax in He; lia).
  (* the real quotient in units of 2^e' *)
  set (s := ex - ey - e') in *.
  assert (Hs : 0 <= s) by (unfold s; lia).
  set (N := e - e') in *.
  assert (HN : 0 <= N) by (unfold N; lia).
  set (B := inject_Z (Z.pos mx * 2 ^ s)).
  set (C := inject_Z (Z.pos my)).
  assert (HC : (0 < C)%Q).
  { unfold C, Qlt, inject_Z. simpl. lia. }
  assert (Hquot : (magnitude mx ex / magnitude my ey == B / C * 2 ^ e')%Q).
  { rewrite !magnitude_pow2. unfold B, C. rewrite inject_Z_mult, pow2_inject by done.
    replace ex with (s + e' + ey) at 1 by (unfold s; lia).
    rewrite !pow2_add. field.
    split; apply Qpos_neq0; first [apply pow2_pos_Q|exact HC]. }
  assert (HB : (inject_Z q <= B / C /\ B / C < inject_Z q + 1)%Q).
  { destruct Hqm as [H1 H2]. rewrite Zle_Qle in H1. rewrite Zlt_Qlt in H2.
    rewrite (inject_Z_mult q) in H1. rewrite (inject_Z_mult (q + 1)), inject_Z_plus in H2.
    fold B C in H1, H2. change (inject_Z 1) with 1%Q in H2. split.
    - apply Qle_shift_div_l; done.
    - apply Qlt_shift_div_r; done. }
  assert (HA : (inject_Z q - 2 ^ N + 1 <= inject_Z m * 2 ^ N
                /\ inject_Z m * 2 ^ N <= inject_Z q + 2 ^ N)%Q).
  { destruct Hnear as [H1 H2].
    assert (H1' : q - 2 ^ N + 1 <= m * 2 ^ N) by lia.
    rewrite Zle_Qle in H1'. rewrite Zle_Qle in H2.
    rewrite inject_Z_mult, !inject_Z_plus, ?inject_Z_mult in H1'.
    rewrite inject_Z_mult, inject_Z_plus in H2.
    unfold Zminus in H1'. rewrite inject_Z_plus, inject_Z_opp in H1'.
    rewrite !pow2_inject in H1', H2 by done.
    change (inject_Z 1) with 1%Q in H1'. split; [|done].
    unfold Qminus. exact H1'. }
  assert (Hv : (Qabs (inject_Z m * 2 ^ e - magnitude mx ex / magnitude my ey)
                <= 2 ^ (k - 51))%Q).
  { rewrite Hquot. replace e with (N + e') by (unfold N; lia).
    rewrite pow2_add.
    pose proof (pow2_pos_Q e') as HE. pose proof (pow2_pos_Q N) as HT.
    apply Qle_trans with (2 ^ N * 2 ^ e')%Q.
    - apply (proj2 (Qabs_Qle_condition _ _)).
      destruct HB as [HB1 HB2]. destruct HA as [HA1 HA2].
      set (d := (B / C)%Q) in *. set (a := inject_Z m) in *.
      set (t := (2 ^ N)%Q) in *. set (E := (2 ^ e')%Q) in *.
      set (q' := inject_Z q) in *. split; nra.
    - rewrite <- pow2_add. apply pow2_le. unfold N. lia. }
  unfold div. rewrite Hres. destruct m as [|p|p]; [| |lia].
  - exists 0%Q. split; [done|]. split; [apply Qle_refl|].
    by rewrite Qmult_0_l in Hv.
  - assert (Hle : (e <=? emax - prec) = true) by (apply Z.leb_le; unfold emax, prec; lia).
    rewrite Hle. cbn [value]. eexists. split; [done|].
    split; [apply Qlt_le_weak, magnitude_pos|].
    by rewrite magnitude_pow2.
Qed.

End Quotients.

Section SmallIntegers.
Import Num.

(** A canonical mantissa goes through the rounding as it is. *)
Lemma binary_round_aux_exact (s : bool) (m : positive) (e : Z) :
  fexp prec emax (Z.pos (digits2_pos m) + e) = e ->
  e <= emax - prec ->
  binary_round_aux prec emax s (Z.pos m) e loc_Exact = S754_finite s m e.
Proof.
  intros Hc He. unfold binary_round_aux, shr_fexp. cbn [Zdigits2].
  rewrite Hc, Z.sub_diag. cbn [shr shr_record_of_loc shr_m loc_of_shr_record
    round_nearest_even Zdigits2].
  rewrite Hc, Z.sub_diag. cbn [shr shr_record_of_loc shr_m].
  by rewrite (proj2 (Z.leb_le _ _) He).
Qed.

Lemma iter_xO_pow2 (m d : positive) :
  Z.pos (Pos.iter xO m d) = Z.pos m * 2 ^ Z.pos d.
Proof.
  induction d as [|d IH] using Pos.peano_ind.
  - simpl. lia.
  - rewrite Pos.iter_succ, Pos2Z.inj_xO, IH, Pos2Z.inj_succ, Z.pow_succ_r by lia.
    lia.
Qed.

(** An integer below 2^53 is a Number. *)
Lemma binary_normalize_small (k : Z) :
  0 < k < 2 ^ 53 ->
  exists (m : positive) (e : Z),
    binary_normalize prec emax k 0 false = S754_finite false m e
    /\ e <= 0
    /\ Z.pos m = k * 2 ^ (- e).
Proof.
  intros [Hk Hlt]. destruct k as [|p|p]; [lia| |lia].
  cbn [binary_normalize]. unfold binary_round.
  pose proof (digits2_pos_bounds p) as [Hlo Hhi].
  set (d := Z.pos (digits2_pos p)) in *.
  assert (Hd : 1 <= d <= 53).
  { split; [unfold d; lia|].
    destruct (Z.le_gt_cases d 53) as [|Hgt]; [done|].
    assert (2 ^ 53 <= 2 ^ (d - 1)) by (apply Z.pow_le_mono_r; lia). lia. }
  assert (Hf : fexp prec emax (d + 0) = d - 53)
    by (unfold fexp, emin, prec, emax; lia).
  rewrite Hf. unfold shl_align.
  destruct (d - 53 - 0) as [|n|n] eqn:Hn; [| lia |].
  - exists p, 0. split; [|split; [lia|simpl; lia]].
    apply binary_round_aux_exact; [|unfold emax, prec; lia].
    fold d. rewrite Hf. lia.
  - exists (Pos.iter xO p n), (d - 53). split; [|split; [lia|]].
    + apply binary_round_aux_exact; [|unfold emax, prec; lia].
      assert (Hdig : Zdigits2 (Z.pos (Pos.iter xO p n)) = 53).
      { apply Zdigits2_unique; [lia|]. rewrite iter_xO_pow2.
        assert (Hs1 : 2 ^ (53 - 1) = 2 ^ (d - 1) * 2 ^ Z.pos n)
          by (rewrite <- Z.pow_add_r by lia; f_equal; lia).
        assert (Hs2 : 2 ^ 53 = 2 ^ d * 2 ^ Z.pos n)
          by (rewrite <- Z.pow_add_r by lia; f_equal; lia).
        assert (0 < 2 ^ Z.pos n) by (apply Z.pow_pos_nonneg; lia).
        rewrite Hs1, Hs2. nia. }
      cbn [Zdigits2] in Hdig. rewrite Hdig.
      unfold fexp, emin, prec, emax. lia.
    + rewrite iter_xO_pow2. f_equal. f_equal. lia.
Qed.

End SmallIntegers.

Section Hundredfold.
Import Num.

Lemma Qabs_le_iff (x b : Q) : (Qabs x <= b <-> - b <= x /\ x <= b)%Q.
Proof. apply Qabs_Qle_condition. Qed.

Lemma inject_Z_pos (k : Z) : 0 < k -> (0 < inject_Z k)%Q.
Proof. intros Hk. unfold Qlt, inject_Z. simpl. lia. Qed.

Lemma inject_Z_nonneg (k : Z) : 0 <= k -> (0 <= inject_Z k)%Q.
Proof. intros Hk. unfold Qle, inject_Z. simpl. lia. Qed.

(** The order of magnitude of a canonical Number bounds its digits and
    its exponent. *)
Lemma magnitude_below (m : positive) (e k : Z) :
  (magnitude m e < 2 ^ k)%Q -> Z.pos (digits2_pos m) + e <= k.
Proof.
  intros Hlt. destruct (magnitude_digits m e) as [Hlo _].
  assert (Hpow : (2 ^ (Z.pos (digits2_pos m) - 1 + e) < 2 ^ k)%Q)
    by (eapply Qle_lt_trans; [exact Hlo|exact Hlt]).
  apply Qpower_lt_compat_l_inv in Hpow; [lia|done].
Qed.

(** [x * 100] for a positive Number below [2^k]. *)
Lemma mul_100_near (mx : positive) (ex k : Z) :
  fexp prec emax (Z.pos (digits2_pos mx) + ex) = ex ->
  (magnitude mx ex < 2 ^ k)%Q ->
  -1000 <= k <= 1000 ->
  exists m e : Z,
    0 <= m
    /\ e <= k - 45
    /\ (m = 0 \/ fexp prec emax (Zdigits2 m + e) = e)
    /\ (S754_finite false mx ex * of_Z 100)%num
       = match m with
         | 0 => S754_zero false
         | Z.pos p => S754_finite false p e
         | Z.neg _ => S754_nan
         end
    /\ (Qabs (inject_Z m * 2 ^ e - 100 * magnitude mx ex) <= 2 ^ (k - 45))%Q.
Proof.
  intros Hc Hlt Hk.
  change (of_Z 100) with (S754_finite false 7036874417766400 (-46)).
  unfold mul. cbn [SFmul xorb].
  pose proof (magnitude_below mx ex k Hlt) as Hmag.
  pose proof (digits2_pos_bounds mx) as [Hxlo Hxhi].
  set (dx := Z.pos (digits2_pos mx)) in *.
  assert (Hdx : 1 <= dx) by (unfold dx; lia).
  set (mp := Z.pos (mx * 7036874417766400)).
  assert (Hmp : mp = Z.pos mx * 7036874417766400) by (unfold mp; lia).
  assert (Hdp : dx + 52 <= Zdigits2 mp <= dx + 53).
  { split.
    - assert (2 ^ (dx + 51) <= mp).
      { replace (dx + 51) with ((dx - 1) + 52) by lia.
        rewrite Z.pow_add_r by lia. change (2 ^ 52) with 4503599627370496. nia. }
      pose proof (Zdigits2_lower mp (dx + 51) ltac:(lia) H). lia.
    - apply Zdigits2_le; [|lia]. split; [lia|].
      rewrite Z.pow_add_r by lia. change (2 ^ 53) with 9007199254740992. nia. }
  destruct (binary_round_aux_near false mp (ex + -46) loc_Exact ltac:(lia))
    as (m & e & Hm & He & Hnear & Hvalid & Hres).
  assert (Hek : e <= k - 45)
    by (clear Hres Hnear Hvalid; unfold fexp, emin, prec, emax in *; lia).
  exists m, e. split; [done|]. split; [done|]. split.
  { apply Hvalid. clear Hres Hnear Hvalid. unfold fexp, emin, prec, emax in *. lia. }
  split.
  { fold mp. rewrite Hres. destruct m as [|p|p]; [done| |done].
    by rewrite (proj2 (Z.leb_le e (emax - prec))) by (unfold emax, prec; lia). }
  (* the value *)
  set (N := e - (ex + -46)) in *.
  assert (HN : 0 <= N) by (unfold N; lia).
  assert (Hexact : (100 * magnitude mx ex == inject_Z mp * 2 ^ (ex + -46))%Q).
  { rewrite magnitude_pow2, Hmp, inject_Z_mult, pow2_add.
    change (2 ^ (-46))%Q with (1 # 70368744177664)%Q.
    change (inject_Z 7036874417766400) with (7036874417766400 # 1)%Q.
    field. }
  rewrite Hexact. replace e with (N + (ex + -46)) at 1 by (unfold N; lia).
  rewrite (pow2_add N).
  pose proof (pow2_pos_Q (ex + -46)) as HE. pose proof (pow2_pos_Q N) as HT.
  apply Qle_trans with (2 ^ N * 2 ^ (ex + -46))%Q.
  - destruct Hnear as [H1 H2]. assert (H1' : mp - 2 ^ N <= m * 2 ^ N) by lia.
    rewrite Zle_Qle in H1'. rewrite Zle_Qle in H2.
    unfold Zminus in H1'.
    rewrite inject_Z_plus, inject_Z_opp, inject_Z_mult, pow2_inject in H1' by done.
    rewrite inject_Z_mult, inject_Z_plus, pow2_inject in H2 by done.
    apply Qabs_le_iff.
    set (a := inject_Z m) in *. set (b := inject_Z mp) in *.
    set (t := (2 ^ N)%Q) in *. set (E := (2 ^ (ex + -46))%Q) in *.
    split; nra.
  - rewrite <- pow2_add. apply pow2_le. unfold N. lia.
Qed.

(** The integer nearest to a fraction. *)
Lemma half_round_Q (p d kz : Z) :
  0 < d -> 2 * d * kz <= 2 * p + d < 2 * d * kz + 2 * d ->
  (Qabs (inject_Z kz - inject_Z p / inject_Z d) <= 1 # 2)%Q.
Proof.
  intros Hd [H1 H2]. rewrite Zle_Qle in H1. rewrite Zlt_Qlt in H2.
  repeat (rewrite inject_Z_plus in H1 || rewrite inject_Z_mult in H1).
  repeat (rewrite inject_Z_plus in H2 || rewrite inject_Z_mult in H2).
  change (inject_Z 2) with 2%Q in H1, H2.
  pose proof (inject_Z_pos d Hd) as Hd0.
  set (D := inject_Z d) in *. set (K := inject_Z kz) in *.
  set (P' := inject_Z p) in *. clearbody D K P'.
  assert (Hup : (P' / D <= K + (1 # 2))%Q)
    by (apply Qle_shift_div_r; [done|nra]).
  assert (Hdown : (K - (1 # 2) <= P' / D)%Q)
    by (apply Qle_shift_div_l; [done|nra]).
  apply Qabs_le_iff. split; lra.
Qed.

(** [Math.round] of a canonical positive Number: an integer at most a half
    away. *)
Lemma Math_round_near (p : positive) (e : Z) :
  fexp prec emax (Z.pos (digits2_pos p) + e) = e ->
  exists kz : Z,
    0 <= kz
    /\ (Qabs (inject_Z kz - magnitude p e) <= 1 # 2)%Q
    /\ ((kz = 0 /\ Math_round (S754_finite false p e) = S754_zero false)
        \/ (0 < kz /\ exists (mz : positive) (ez : Z),
              Math_round (S754_finite false p e) = S754_finite false mz ez
              /\ (magnitude mz ez == inject_Z kz)%Q)).
Proof.
  intros Hc. cbn [Math_round]. destruct (Z.leb_spec 0 e) as [He|He].
  - exists (Z.pos p * 2 ^ e).
    assert (Hp : 0 < 2 ^ e) by (apply Z.pow_pos_nonneg; lia).
    assert (Hval : (magnitude p e == inject_Z (Z.pos p * 2 ^ e))%Q).
    { unfold magnitude. by rewrite (proj2 (Z.leb_le 0 e)) by done. }
    split; [lia|]. split.
    + rewrite Hval. apply Qabs_le_iff. split; lra.
    + right. split; [lia|]. by exists p, e.
  - set (d := 2 ^ (- e)).
    assert (Hd : 2 <= d).
    { unfold d. change 2 with (2 ^ 1) at 1. apply Z.pow_le_mono_r; lia. }
    set (kz := (2 * Z.pos p + d) / (2 * d)).
    pose proof (Z.div_mod (2 * Z.pos p + d) (2 * d) ltac:(lia)) as Hdm.
    pose proof (Z.mod_pos_bound (2 * Z.pos p + d) (2 * d) ltac:(lia)) as Hb.
    fold kz in Hdm.
    assert (Hkz : 0 <= kz) by (apply Z.div_pos; lia).
    (* the mantissa has at most 53 digits *)
    pose proof (digits2_pos_bounds p) as [Hlo Hhi].
    assert (Hdp : Z.pos (digits2_pos p) <= 53)
      by (unfold fexp, emin, prec, emax in Hc; lia).
    assert (Hp53 : Z.pos p < 2 ^ 53).
    { eapply Z.lt_le_trans; [exact Hhi|]. apply Z.pow_le_mono_r; lia. }
    assert (Hkz53 : kz < 2 ^ 53) by nia.
    assert (Hval : (magnitude p e == inject_Z (Z.pos p) / inject_Z d)%Q).
    { unfold magnitude. rewrite (proj2 (Z.leb_gt 0 e)) by done.
      rewrite Qmake_Qdiv. fold d. by rewrite Z2Pos.id by lia. }
    assert (Hnear : (Qabs (inject_Z kz - magnitude p e) <= 1 # 2)%Q).
    { rewrite Hval. apply half_round_Q; lia. }
    exists kz. split; [done|]. split; [done|].
    destruct (Z.eq_dec kz 0) as [Hz|Hnz].
    + left. split; [done|]. fold d. fold kz. by rewrite Hz.
    + right. split; [lia|]. fold d. fold kz.
      destruct (binary_normalize_small kz ltac:(lia)) as (mz & ez & -> & Hez & Hmz).
      exists mz, ez. split; [done|].
      rewrite magnitude_pow2, Hmz, inject_Z_mult, pow2_inject by lia.
      rewrite <- Qmult_assoc, <- pow2_add.
      replace (- ez + ez) with 0 by lia. simpl. ring.
Qed.

End Hundredfold.

Section RoundedToCents.
Import Num.

Lemma value_positive (x : number) (q : Q) :
  value x = Some q -> (0 < q)%Q ->
  exists (m : positive) (e : Z), x = S754_finite false m e /\ q = magnitude m e.
Proof.
  destruct x as [s| | |s m e]; cbn [value]; try done.
  - intros [= <-] H0. by apply Qlt_irrefl in H0.
  - intros [= <-] H0. destruct s; [|by exists m, e].
    pose proof (magnitude_pos m e). lra.
Qed.

Lemma is_binary64_canonical (s : bool) (m : positive) (e : Z) :
  is_binary64 (S754_finite s m e) = true ->
  fexp prec emax (Z.pos (digits2_pos m) + e) = e.
Proof.
  unfold is_binary64, valid_binary, bounded, canonical_mantissa.
  by intros [?%Z.eqb_eq _]%andb_true_iff.
Qed.

Lemma pow2_shift (a b : Z) (c : Q) :
  (2 ^ (a - b) == c)%Q -> forall k : Z, (2 ^ (k - b) == 2 ^ (k - a) * c)%Q.
Proof.
  intros Hc k. rewrite <- Hc, <- pow2_add. by replace (k - a + (a - b)) with (k - b) by lia.
Qed.

(** [Math.round(x * 100) / 100] is within half a cent, and a rounding
    error, of a positive [x] below [2^k]. *)
Lemma round2_near (x : number) (q : Q) (k : Z) :
  is_binary64 x = true ->
  value x = Some q -> (0 < q)%Q -> (q < 2 ^ k)%Q ->
  0 <= k <= 1000 ->
  exists v : Q,
    value (Math_round (x * of_Z 100) / of_Z 100)%num = Some v
    /\ (Qabs (v - q) <= (1 # 200) + 2 ^ (k - 49))%Q.
Proof.
  intros Hvalid Hq H0 Hlt Hk.
  destruct (value_positive x q Hq H0) as (mx & ex & -> & ->).
  apply is_binary64_canonical in Hvalid.
  destruct (mul_100_near mx ex k Hvalid Hlt ltac:(lia))
    as (m & e & Hm & He & Hcanon & -> & Hy).
  set (X := magnitude mx ex) in *.
  pose proof (pow2_pos_Q (k - 50)) as Hu.
  assert (H45 : (2 ^ (k - 45) == 2 ^ (k - 50) * 32)%Q)
    by (apply (pow2_shift 50 45); reflexivity).
  assert (H49 : (2 ^ (k - 49) == 2 ^ (k - 50) * 2)%Q)
    by (apply (pow2_shift 50 49); reflexivity).
  assert (Hk0 : (1 <= 2 ^ k)%Q) by (apply Qpower_1_le; [done|lia]).
  assert (Hu1 : (2 ^ (k - 50) <= 2 ^ k)%Q) by (apply pow2_le; lia).
  set (u := (2 ^ (k - 50))%Q) in *. set (u45 := (2 ^ (k - 45))%Q) in *.
  set (u49 := (2 ^ (k - 49))%Q) in *. apply Qabs_le_iff in Hy.
  destruct m as [|p|p]; [| |lia].
  - (* the product underflows *)
    exists 0%Q. split; [reflexivity|].
    rewrite Qmult_0_l in Hy. apply Qabs_le_iff. split; lra.
  - destruct Hcanon as [|Hcanon]; [done|]. cbn [Zdigits2] in Hcanon.
    destruct (Math_round_near p e Hcanon) as (kz & Hkz & Hround & Hz).
    rewrite <- magnitude_pow2 in Hy. set (Y := magnitude p e) in *.
    apply Qabs_le_iff in Hround.
    destruct Hz as [[-> ->]|(Hpos & mz & ez & -> & Hval)].
    + exists 0%Q. split; [reflexivity|].
      change (inject_Z 0) with 0%Q in Hround. apply Qabs_le_iff. split; lra.
    + assert (H100 : (magnitude 7036874417766400 (-46) == 100)%Q) by reflexivity.
      change (of_Z 100) with (S754_finite false 7036874417766400 (-46)).
      destruct (div_near mz 7036874417766400 ez (-46) (k + 1)) as (v & Hv & _ & Hnear).
      { rewrite Hval, H100, pow2_add. change (2 ^ 1)%Q with 2%Q.
        set (K := inject_Z kz) in *. set (T := (2 ^ k)%Q) in *. nra. }
      { lia. }
      exists v. split; [done|].
      rewrite Hval, H100 in Hnear.
      replace (k + 1 - 51) with (k - 50) in Hnear by lia. fold u in Hnear.
      apply Qabs_le_iff in Hnear. set (K := inject_Z kz) in *.
      assert (Hdiv : (K / 100 == K * (1 # 100))%Q) by (field; done).
      rewrite Hdiv in Hnear.
      apply Qabs_le_iff. split; lra.
Qed.

End RoundedToCents.

(** ** The EMI schedule *)

Section Schedule.
Import Num Borrower.

(** The entries of a schedule of [len] months. *)
Lemma schedule_shape (amount duration : number) :
  generateEMISchedule amount duration
  = if 2 ^ 32 <=? ToLength (duration || of_Z 1)%num then None
    else Some
           ((fun i : nat =>
               {| Repayment.month := String.append "Month " (digits (N.of_nat (i + 1)));
                  Repayment.amount :=
                    toFixed2 ((amount || zero) / (duration || of_Z 1))%num;
                  Repayment.paid := false |})
            <$> seq 0 (Z.to_nat (ToLength (duration || of_Z 1)%num))).
Proof. reflexivity. Qed.

(** The schedule is returned exactly below the length 2^32. *)
Lemma schedule_returned (amount duration : number) :
  ToLength (duration || of_Z 1)%num < 2 ^ 32 ->
  generateEMISchedule amount duration
  = Some
      ((fun i : nat =>
          {| Repayment.month := String.append "Month " (digits (N.of_nat (i + 1)));
             Repayment.amount :=
               toFixed2 ((amount || zero) / (duration || of_Z 1))%num;
             Repayment.paid := false |})
       <$> seq 0 (Z.to_nat (ToLength (duration || of_Z 1)%num))).
Proof.
  intros Hlen. rewrite schedule_shape.
  by rewrite (proj2 (Z.leb_gt _ _)) by done.
Qed.

Lemma schedule_thrown (amount duration : number) :
  2 ^ 32 <= ToLength (duration || of_Z 1)%num ->
  generateEMISchedule amount duration = None.
Proof.
  intros Hlen. rewrite schedule_shape.
  by rewrite (proj2 (Z.leb_le _ _)) by done.
Qed.

Lemma schedule_length (amount duration : number) (entries : list Repayment.t) :
  generateEMISchedule amount duration = Some entries ->
  length entries = Z.to_nat (ToLength (duration || of_Z 1)%num).
Proof.
  rewrite schedule_shape. destruct (_ <=? _); [done|].
  intros [= <-]. by rewrite length_fmap, length_seq.
Qed.

Lemma schedule_amounts (amount duration : number) (entries : list Repayment.t) :
  generateEMISchedule amount duration = Some entries ->
  Forall (fun r => Repayment.amount r
                   = toFixed2 ((amount || zero) / (duration || of_Z 1))%num)
         entries.
Proof.
  rewrite schedule_shape. destruct (_ <=? _); [done|].
  intros [= <-]. apply Forall_fmap. by apply Forall_true.
Qed.

Lemma schedule_unpaid (amount duration : number) (entries : list Repayment.t) :
  generateEMISchedule amount duration = Some entries ->
  Forall (fun r => Repayment.paid r = false) entries.
Proof.
  rewrite schedule_shape. destruct (_ <=? _); [done|].
  intros [= <-]. apply Forall_fmap. by apply Forall_true.
Qed.

(** A Number that is a natural number from 1 on is positive and finite,
    and that number is its value. *)
Lemma natural_magnitude (x : number) (k : Z) :
  natural x = Some k -> 1 <= k ->
  exists (m : positive) (e : Z),
    x = S754_finite false m e /\ (magnitude m e == inject_Z k)%Q.
Proof.
  destruct x as [s| | |[] m e]; cbn [natural]; try done.
  - intros [= <-]. lia.
  - unfold magnitude. destruct (Z.leb_spec 0 e) as [He|He].
    + intros [= <-] _. by exists m, e; rewrite (proj2 (Z.leb_le 0 e)).
    + destruct (Z.eqb_spec (Z.pos m mod 2 ^ (- e)) 0) as [Hmod|]; [|done].
      intros [= <-] _. exists m, e. split; [done|].
      rewrite (proj2 (Z.leb_gt 0 e)) by done.
      assert (Hp : 0 < 2 ^ (- e)) by (apply pow2_pos; lia).
      pose proof (Z.div_mod (Z.pos m) (2 ^ (- e)) ltac:(lia)) as Hdm.
      unfold Qeq, inject_Z. simpl. rewrite Z2Pos.id by done. lia.
Qed.

(** The quotient of a positive principal by a number of months, and the
    amount printed from it. *)
Lemma amount_near (P n : number) (p : Q) (k j : Z) :
  value P = Some p -> (0 < p)%Q ->
  natural n = Some k -> 1 <= k ->
  (p < 2 ^ j * inject_Z k)%Q -> -1021 <= j <= 1022 ->
  exists q v : Q,
    value (P / n)%num = Some q
    /\ (0 <= q)%Q
    /\ (Qabs (q - p / inject_Z k) <= 2 ^ (j - 51))%Q
    /\ text_value (toFixed2 (P / n)%num) = Some v
    /\ (Qabs (v - q) <= 1 # 200)%Q.
Proof.
  intros HP Hp Hn Hk Hlt Hj.
  destruct (value_positive P p HP Hp) as (mP & eP & -> & ->).
  destruct (natural_magnitude n k Hn Hk) as (mn & en & -> & Hval).
  destruct (div_near mP mn eP en j) as (q & Hq & Hq0 & Hnear);
    [by rewrite Hval|done|].
  destruct (toFixed2_near _ q Hq) as (v & Hv & Hcents).
  exists q, v. split; [done|]. split; [done|]. split; [|done].
  by rewrite Hval in Hnear.
Qed.

(** The amount is a multiple of a cent, unless the quotient is too large
    for [toFixed] to print digits. *)
Lemma toFixed2_cents (x : number) (q : Q) :
  value x = Some q -> (0 <= q)%Q ->
  (exists c : Z, toFixed2 x = Fixed2 false c) \/ toFixed2 x = General x.
Proof.
  destruct x as [s| | |s m e]; cbn [value]; try done.
  - intros _ _. left. by exists 0.
  - intros [= <-] Hq. unfold toFixed2.
    destruct (at_least_1e21 m e); [by right|]. left.
    destruct s; [|by eexists].
    pose proof (magnitude_pos m e). lra.
Qed.

(** From 10^21 on [toFixed] prints no cents. *)
Lemma at_least_1e21_magnitude (m : positive) (e : Z) :
  at_least_1e21 m e = true -> (inject_Z (10 ^ 21) <= magnitude m e)%Q.
Proof.
  unfold at_least_1e21, magnitude. destruct (Z.leb_spec 0 e) as [He|He].
  - intros Hle%Z.leb_le. by rewrite <- Zle_Qle.
  - intros Hle%Z.leb_le.
    assert (Hp : 0 < 2 ^ (- e)) by (apply pow2_pos; lia).
    unfold Qle, inject_Z. cbn [Qnum Qden]. rewrite Z2Pos.id by done. lia.
Qed.

(** For an integer principal the amount is a cent nearest to the real
    quotient, as long as the rounding of the division is small against a
    cent split over the months. *)
Lemma amount_cents (P n : number) (pz k j : Z) :
  natural P = Some pz -> 1 <= pz ->
  natural n = Some k -> 1 <= k ->
  pz < 2 ^ j * k -> 200 * k < 2 ^ (51 - j) ->
  exists c : Z,
    toFixed2 (P / n)%num = Fixed2 false c
    /\ (Qabs ((c # 100) - inject_Z pz / inject_Z k) <= 1 # 200)%Q.
Proof.
  intros HP Hpz Hn Hk Hlt Hsmall.
  assert (Hj : 0 <= j <= 43).
  { split.
    - destruct (Z.le_gt_cases 0 j) as [|Hneg]; [done|].
      rewrite (Z.pow_neg_r 2 j) in Hlt by lia. lia.
    - destruct (Z.le_gt_cases j 43) as [|Hbig]; [done|].
      assert (2 ^ (51 - j) <= 2 ^ 7).
      { destruct (Z.le_gt_cases 0 (51 - j)).
        - apply Z.pow_le_mono_r; lia.
        - rewrite Z.pow_neg_r by lia. simpl. lia. }
      simpl in *. lia. }
  destruct (natural_magnitude P pz HP Hpz) as (mP & eP & -> & HvalP).
  assert (Hk0 : (0 < inject_Z k)%Q) by (apply inject_Z_pos; lia).
  assert (HltQ : (inject_Z pz < 2 ^ j * inject_Z k)%Q).
  { rewrite <- pow2_inject, <- inject_Z_mult by lia. by rewrite <- Zlt_Qlt. }
  destruct (amount_near (S754_finite false mP eP) n (magnitude mP eP) k j)
    as (q & v & Hq & Hq0 & Hnear & Hv & Hcents);
    [done|apply magnitude_pos|done|done|by rewrite HvalP|lia|].
  rewrite HvalP in Hnear.
  (* the rounding of the division, against a cent *)
  set (u := (2 ^ (j - 51))%Q) in *.
  assert (Hu : (0 < u)%Q) by apply pow2_pos_Q.
  assert (Hu1 : (u <= 1)%Q).
  { change 1%Q with (2 ^ 0)%Q. apply pow2_le. lia. }
  assert (Hsmall' : (inject_Z (200 * k) * u < 1)%Q).
  { assert (Hone : (2 ^ (51 - j) * u == 1)%Q).
    { unfold u. rewrite <- pow2_add. by replace (51 - j + (j - 51)) with 0 by lia. }
    rewrite <- Hone. apply Qmult_lt_compat_r; [done|].
    rewrite <- pow2_inject by lia. by rewrite <- Zlt_Qlt. }
  rewrite inject_Z_mult in Hsmall'. change (inject_Z 200) with 200%Q in Hsmall'.
  assert (Hj43 : (2 ^ j <= 2 ^ 43)%Q) by (apply pow2_le; lia).
  set (J := (2 ^ j)%Q) in *.
  set (K := inject_Z k) in *. set (Pz := inject_Z pz) in *.
  assert (Hquot : (Pz / K * K == Pz)%Q) by (field; by apply Qpos_neq0).
  set (d := (Pz / K)%Q) in *.
  assert (Hd : (d < J)%Q) by nra.
  apply Qabs_le_iff in Hnear. apply Qabs_le_iff in Hcents.
  destruct (toFixed2_cents _ q Hq Hq0) as [[c Hc]|Hgen].
  - (* a multiple of a cent: an integer inequality *)
    exists c. split; [done|].
    rewrite Hc in Hv. cbn [text_value] in Hv. injection Hv as <-.
    assert (Hcq : ((c # 100) == inject_Z c * (1 # 100))%Q).
    { rewrite (Qmake_Qdiv c 100). by field. }
    rewrite Hcq in Hcents |- *. set (C := inject_Z c) in *.
    assert (Hint : - k <= 2 * k * c - 200 * pz <= k).
    { assert (Hlo : (inject_Z (200 * pz) < inject_Z (2 * k * c + k + 1))%Q).
      { rewrite !inject_Z_plus, !inject_Z_mult.
        change (inject_Z 2) with 2%Q. change (inject_Z 200) with 200%Q.
        change (inject_Z 1) with 1%Q. fold K C Pz. nra. }
      assert (Hhi : (inject_Z (2 * k * c) < inject_Z (200 * pz + k + 1))%Q).
      { rewrite !inject_Z_plus, !inject_Z_mult.
        change (inject_Z 2) with 2%Q. change (inject_Z 200) with 200%Q.
        change (inject_Z 1) with 1%Q. fold K C Pz. nra. }
      rewrite <- Zlt_Qlt in Hlo, Hhi. lia. }
    assert (Hlo : 200 * pz <= 2 * k * c + k) by lia.
    assert (Hhi : 2 * k * c <= 200 * pz + k) by lia.
    rewrite Zle_Qle in Hlo, Hhi.
    rewrite !inject_Z_plus, !inject_Z_mult in Hlo, Hhi.
    change (inject_Z 2) with 2%Q in Hlo, Hhi.
    change (inject_Z 200) with 200%Q in Hlo, Hhi. fold K C Pz in Hlo, Hhi.
    clear Hnear Hcents Hsmall' Hint.
    assert (Hlow : (0 <= K * (C * (1 # 100) - d + (1 # 200)))%Q) by nra.
    assert (Hhigh : (0 <= K * ((1 # 200) - (C * (1 # 100) - d)))%Q) by nra.
    apply Qabs_le_iff. split; nra.
  - (* no text without cents: the quotient is below 2^44 *)
    exfalso. unfold toFixed2 in Hgen.
    destruct (S754_finite false mP eP / n)%num as [| | |s m e] eqn:Hres;
      try done.
    destruct (at_least_1e21 m e) eqn:Hbig; [|done].
    apply at_least_1e21_magnitude in Hbig.
    cbn [value] in Hq. injection Hq as <-.
    assert (H44 : (2 ^ 43 + 1 < inject_Z (10 ^ 21))%Q) by (by vm_compute).
    pose proof (magnitude_pos m e). destruct s; lra.
Qed.

(** A positive Number with a value, or one that is a natural number. *)
Lemma positive_value (x : number) (q : Q) :
  (zero <? x)%num = true -> value x = Some q -> (0 < q)%Q.
Proof.
  destruct x as [[]| | |[] m e]; try done.
  intros _ [= <-]. apply magnitude_pos.
Qed.

Lemma positive_natural (x : number) (k : Z) :
  (zero <? x)%num = true -> natural x = Some k -> 1 <= k.
Proof.
  destruct x as [[]| | |[] m e]; try done.
  intros _ Hk.
  assert (Hq : (0 < inject_Z k)%Q).
  { destruct (Z.le_gt_cases 1 k) as [|Hsmall]; [by apply inject_Z_pos; lia|].
    exfalso. cbn [natural] in Hk. destruct (Z.leb_spec 0 e) as [He|He].
    - injection Hk as <-. pose proof (pow2_pos e He). nia.
    - destruct (Z.eqb_spec (Z.pos m mod 2 ^ (- e)) 0) as [Hmod|]; [|done].
      injection Hk as <-.
      assert (Hp : 0 < 2 ^ (- e)) by (apply pow2_pos; lia).
      pose proof (Z.div_mod (Z.pos m) (2 ^ (- e)) ltac:(lia)). nia. }
  change 0%Q with (inject_Z 0) in Hq. rewrite <- Zlt_Qlt in Hq. lia.
Qed.

(** The months of a duration that is a natural number from 1 on. *)
Lemma months_natural (n : number) (k : Z) :
  natural n = Some k -> 1 <= k ->
  (n || of_Z 1)%num = n
  /\ (k < 2 ^ 32 -> ToLength n = k)
  /\ (2 ^ 32 <= k -> 2 ^ 32 <= ToLength n).
Proof.
  intros Hn Hk.
  split; [apply or_else_truthy; by apply (natural_truthy n k)|].
  split.
  - intros Hsmall. apply ToLength_natural; [done|]. simpl in *. lia.
  - intros Hlarge. destruct (Z.le_gt_cases k (2 ^ 53 - 1)).
    + rewrite (ToLength_natural n k); [done|done|lia].
    + rewrite (ToLength_natural_large n k); [by simpl|done|lia].
Qed.




End Schedule.

(** ** Recording a payment *)

Section Repay.
Import Borrower.

Lemma status_eqb_eq (a b : Status) : status_eqb a b = true <-> a = b.
Proof. destruct a, b; simpl; split; congruence. Qed.

Lemma repay_missing (index : nat) (loan : Loan.t) :
  Loan.schedule loan !! index = None -> repay index loan = loan.
Proof. unfold repay. by intros ->. Qed.

Lemma repay_paid (index : nat) (loan : Loan.t) (r : Repayment.t) :
  Loan.schedule loan !! index = Some r -> Repayment.paid r = true ->
  repay index loan = loan.
Proof. unfold repay. by intros -> ->. Qed.

Lemma repay_unpaid (index : nat) (loan : Loan.t) (r : Repayment.t) :
  Loan.schedule loan !! index = Some r -> Repayment.paid r = false ->
  repay index loan
  = let repayments := <[index := Repayment.mark_paid r]> (Loan.schedule loan) in
    Loan.with_status
      (if Loan.all_paid repayments then Completed else Loan.status loan)
      (Loan.with_repayments repayments loan).
Proof. unfold repay. by intros -> ->. Qed.

Lemma repay_id (index : nat) (loan : Loan.t) :
  Loan.id (repay index loan) = Loan.id loan.
Proof.
  unfold repay. destruct (_ !! index) as [r|]; [|done].
  by destruct (Repayment.paid r).
Qed.

(** A paid entry stays as it is. *)
Lemma repay_keeps_paid (index i : nat) (loan : Loan.t) (r : Repayment.t) :
  Loan.schedule loan !! i = Some r -> Repayment.paid r = true ->
  Loan.schedule (repay index loan) !! i = Some r.
Proof.
  intros Hi Hr. unfold repay.
  destruct (Loan.schedule loan !! index) as [r0|] eqn:Hix; [|done].
  destruct (Repayment.paid r0) eqn:Hr0; [done|].
  unfold Loan.schedule at 1. simpl.
  destruct (decide (index = i)) as [->|Hne].
  - congruence.
  - by rewrite list_lookup_insert_ne.
Qed.

Lemma repay_idempotent (index : nat) (loan : Loan.t) :
  repay index (repay index loan) = repay index loan.
Proof.
  destruct (Loan.schedule loan !! index) as [r|] eqn:Hix.
  - destruct (Repayment.paid r) eqn:Hr.
    + rewrite (repay_paid index loan r Hix Hr). by apply (repay_paid index loan r).
    + rewrite (repay_unpaid index loan r) by done. cbv zeta.
      apply (repay_paid index _ (Repayment.mark_paid r)); [|done].
      unfold Loan.schedule at 1. simpl.
      apply list_lookup_insert_eq. by eapply lookup_lt_Some.
  - rewrite (repay_missing index loan Hix). by apply repay_missing.
Qed.

Lemma repaidLoans_lookup (loanId : Z) (index j : nat) (loans : list Loan.t) :
  repaidLoans loanId index loans !! j
  = (fun loan => if Loan.id loan =? loanId then repay index loan else loan)
    <$> loans !! j.
Proof.
  unfold repaidLoans. rewrite list_lookup_fmap.
  destruct (loans !! j) as [loan|]; [|done]. simpl.
  by destruct (Loan.id loan =? loanId).
Qed.

Lemma repaidLoans_idempotent (loanId : Z) (index : nat) (loans : list Loan.t) :
  repaidLoans loanId index (repaidLoans loanId index loans)
  = repaidLoans loanId index loans.
Proof.
  unfold repaidLoans. rewrite <- list_fmap_compose.
  apply list_fmap_ext. intros j loan _. simpl.
  destruct (Loan.id loan =? loanId) eqn:Hid; simpl.
  - by rewrite repay_id, Hid, repay_idempotent.
  - by rewrite Hid.
Qed.

(** The merge of [updateLoans] on one stored loan. *)
Lemma merged_id (user : User.t) (updated : list Loan.t) (loan : Loan.t) :
  Loan.id
    (if Loan.borrowerId loan =? User.id user
     then match List.find (fun l => Loan.id l =? Loan.id loan) updated with
          | Some l => l
          | None => loan
          end
     else loan)
  = Loan.id loan.
Proof.
  destruct (Loan.borrowerId loan =? User.id user); [|done].
  destruct (List.find _ updated) as [l|] eqn:Hfind; [|done].
  apply find_some in Hfind as [_ Hid]. by apply Z.eqb_eq.
Qed.

Lemma merged_again (user : User.t) (updated : list Loan.t) (loan : Loan.t) :
  let merge := fun loan : Loan.t =>
    if Loan.borrowerId loan =? User.id user
    then match List.find (fun l => Loan.id l =? Loan.id loan) updated with
         | Some l => l
         | None => loan
         end
    else loan in
  merge (merge loan) = merge loan.
Proof.
  intros merge.
  destruct (Loan.borrowerId loan =? User.id user) eqn:Hmine.
  - destruct (List.find (fun l => Loan.id l =? Loan.id loan) updated)
      as [l|] eqn:Hfind.
    + assert (Hloan : merge loan = l) by (unfold merge; by rewrite Hmine, Hfind).
      rewrite Hloan. pose proof Hfind as Hl.
      apply find_some in Hl as [_ Hid]. apply Z.eqb_eq in Hid.
      unfold merge. rewrite Hid, Hfind.
      by destruct (Loan.borrowerId l =? User.id user).
    + assert (Hloan : merge loan = loan) by (unfold merge; by rewrite Hmine, Hfind).
      by rewrite !Hloan.
  - assert (Hloan : merge loan = loan) by (unfold merge; by rewrite Hmine).
    by rewrite !Hloan.
Qed.

Lemma existsb_id_fmap (f : Loan.t -> Loan.t) (i : Z) (loans : list Loan.t) :
  (forall loan, Loan.id (f loan) = Loan.id loan) ->
  existsb (fun loan => Loan.id loan =? i) (f <$> loans)
  = existsb (fun loan => Loan.id loan =? i) loans.
Proof.
  intros Hf. induction loans as [|loan loans IH]; [done|].
  rewrite fmap_cons. cbn [existsb]. by rewrite Hf, IH.
Qed.

Lemma filter_none (f : Loan.t -> bool) (loans : list Loan.t) :
  Forall (fun b => f b = false) loans -> List.filter f loans = [].
Proof. induction 1 as [|b loans Hb _ IH]; simpl; [done|]. by rewrite Hb. Qed.

(** With the ids of the list among the stored ones, [updateLoans] appends
    nothing. *)
Lemma updateLoans_known (user : User.t) (updated : list Loan.t) (st : Store) :
  Forall (fun b => existsb (fun loan => Loan.id loan =? Loan.id b) (stored st) = true)
         updated ->
  stored (updateLoans user updated st)
  = (fun loan =>
       if Loan.borrowerId loan =? User.id user
       then match List.find (fun l => Loan.id l =? Loan.id loan) updated with
            | Some l => l
            | None => loan
            end
       else loan) <$> stored st.
Proof.
  intros Hknown. unfold updateLoans. cbn [stored].
  rewrite filter_none; [by rewrite app_nil_r|].
  eapply Forall_impl; [exact Hknown|]. intros b Hb. simpl.
  rewrite existsb_id_fmap by (intros loan; apply merged_id).
  by rewrite Hb.
Qed.

Lemma repaidLoans_known (loanId : Z) (index : nat) (loans stored : list Loan.t) :
  Forall (fun b => existsb (fun loan => Loan.id loan =? Loan.id b) stored = true)
         loans ->
  Forall (fun b => existsb (fun loan => Loan.id loan =? Loan.id b) stored = true)
         (repaidLoans loanId index loans).
Proof.
  intros Hknown. unfold repaidLoans. apply Forall_fmap.
  eapply Forall_impl; [exact Hknown|]. intros b Hb. simpl.
  destruct (negb (Loan.id b =? loanId)); [done|]. by rewrite repay_id.
Qed.

Lemma handleRepayment_twice (user : User.t) (loanId : Z) (index : nat) (st : Store) :
  view_known st ->
  handleRepayment user loanId index (handleRepayment user loanId index st)
  = handleRepayment user loanId index st.
Proof.
  intros Hknown. unfold view_known in Hknown.
  pose proof (repaidLoans_known loanId index _ _ Hknown) as Hupdated.
  pose proof (updateLoans_known user _ st Hupdated) as Hstored.
  set (updated := repaidLoans loanId index (view st)) in *.
  assert (Hfirst : handleRepayment user loanId index st
                   = {| view := updated; stored := stored (updateLoans user updated st) |})
    by reflexivity.
  rewrite Hfirst, Hstored. unfold handleRepayment at 1. cbn [view].
  unfold updated at 1. rewrite repaidLoans_idempotent. fold updated.
  set (merge := fun loan : Loan.t =>
         if Loan.borrowerId loan =? User.id user
         then match List.find (fun l => Loan.id l =? Loan.id loan) updated with
              | Some l => l
              | None => loan
              end
         else loan) in *.
  assert (Hagain : stored (updateLoans user updated
                             {| view := updated; stored := merge <$> stored st |})
                   = merge <$> stored st).
  { rewrite updateLoans_known.
    - cbn [stored]. fold merge. rewrite <- list_fmap_compose.
      apply list_fmap_ext. intros j loan _. apply merged_again.
    - cbn [stored]. eapply Forall_impl; [exact Hupdated|]. intros b Hb. simpl.
      rewrite existsb_id_fmap by (intros loan; apply merged_id). done. }
  transitivity
    {| view := updated;
       stored := stored (updateLoans user updated
                           {| view := updated; stored := merge <$> stored st |}) |};
    [reflexivity|].
  by rewrite Hagain.
Qed.

Lemma load_known (user : User.t) (allLoans : list Loan.t) :
  view_known (load user allLoans).
Proof.
  unfold view_known, load. cbn [view stored].
  apply List.Forall_forall. intros b Hin. apply filter_In in Hin as [Hin _].
  apply existsb_exists. exists b. split; [done|]. apply Z.eqb_refl.
Qed.

(** C10. [handleRepayment] leaves a loan as it is when the indexed
    repayment does not exist or is already paid; a repayment that is paid
    stays paid (the entry is not touched); and recording the same payment
    twice gives what recording it once gives, on the borrower's list and on
    the stored collection. *)
Theorem handleRepayment_idempotent (loanId : Z) (index : nat) (loans : list Loan.t) :
  (forall (j : nat) (loan : Loan.t),
      loans !! j = Some loan ->
      Loan.schedule loan !! index = None
      \/ (exists r, Loan.schedule loan !! index = Some r /\ Repayment.paid r = true) ->
      repaidLoans loanId index loans !! j = Some loan)
  /\ (forall (j i : nat) (loan : Loan.t) (r : Repayment.t),
        loans !! j = Some loan ->
        Loan.schedule loan !! i = Some r -> Repayment.paid r = true ->
        exists loan', repaidLoans loanId index loans !! j = Some loan'
                      /\ Loan.schedule loan' !! i = Some r)
  /\ repaidLoans loanId index (repaidLoans loanId index loans)
     = repaidLoans loanId index loans
  /\ (forall (user : User.t) (allLoans : list Loan.t),
        let st := load user allLoans in
        view st = loans ->
        view (handleRepayment user loanId index st) = repaidLoans loanId index loans
        /\ handleRepayment user loanId index (handleRepayment user loanId index st)
           = handleRepayment user loanId index st).
Proof.
  split; [|split; [|split]].
  - intros j loan Hj Hcase. rewrite repaidLoans_lookup, Hj. simpl.
    destruct (Loan.id loan =? loanId); [|done]. f_equal.
    destruct Hcase as [Hnone|(r & Hr & Hpaid)].
    + by apply repay_missing.
    + by apply (repay_paid index loan r).
  - intros j i loan r Hj Hi Hpaid. rewrite repaidLoans_lookup, Hj. simpl.
    destruct (Loan.id loan =? loanId).
    + eexists. split; [done|]. by apply repay_keeps_paid.
    + by exists loan.
  - apply repaidLoans_idempotent.
  - intros user allLoans st Hview. split.
    + unfold handleRepayment, updateLoans. cbn [view]. by rewrite Hview.
    + apply handleRepayment_twice, load_known.
Qed.

End Repay.

Section Completion.
Import Borrower.

Lemma all_paid_lookup (rs : list Repayment.t) :
  Loan.all_paid rs = true
  <-> forall (i : nat) (r : Repayment.t), rs !! i = Some r -> Repayment.paid r = true.
Proof.
  unfold Loan.all_paid. induction rs as [|r0 rs IH]; simpl.
  - split; [intros _ i r Hi; by destruct i|done].
  - rewrite andb_true_iff, IH. split.
    + intros [H0 Hrs] [|i] r; simpl; [by intros [= <-]|apply Hrs].
    + intros H. split; [by apply (H 0%nat)|intros i r; apply (H (S i))].
Qed.

Lemma schedule_with_repayments (rs : list Repayment.t) (s : Status) (loan : Loan.t) :
  Loan.schedule (Loan.with_status s (Loan.with_repayments rs loan)) = rs.
Proof. reflexivity. Qed.

(** C2, as the code has it. When the indexed repayment exists and is not
    paid, [handleRepayment] marks that entry paid and touches no other
    entry; the status becomes Completed if every entry is then paid and
    stays what it was otherwise; so paying the last unpaid entry gives
    Completed. *)
Theorem repay_marks_and_completes (index : nat) (loan : Loan.t) (r : Repayment.t) :
  Loan.schedule loan !! index = Some r ->
  Repayment.paid r = false ->
  Loan.schedule (repay index loan) !! index = Some (Repayment.mark_paid r)
  /\ (forall i : nat, i <> index ->
        Loan.schedule (repay index loan) !! i = Loan.schedule loan !! i)
  /\ (Loan.all_paid (Loan.schedule (repay index loan)) = true ->
      Loan.status (repay index loan) = Completed)
  /\ (Loan.all_paid (Loan.schedule (repay index loan)) = false ->
      Loan.status (repay index loan) = Loan.status loan)
  /\ ((forall (i : nat) (r' : Repayment.t),
          i <> index -> Loan.schedule loan !! i = Some r' ->
          Repayment.paid r' = true) ->
      Loan.status (repay index loan) = Completed)
  /\ (forall (loans : list Loan.t) (j : nat),
        loans !! j = Some loan ->
        repaidLoans (Loan.id loan) index loans !! j = Some (repay index loan)).
Proof.
  intros Hix Hr. rewrite (repay_unpaid index loan r Hix Hr). cbv zeta.
  rewrite schedule_with_repayments.
  assert (Hlt : (index < length (Loan.schedule loan))%nat)
    by (by eapply lookup_lt_Some).
  split; [|split; [|split; [|split; [|split]]]].
  - by apply list_lookup_insert_eq.
  - intros i Hi. by apply list_lookup_insert_ne.
  - by intros ->.
  - by intros ->.
  - intros Hothers.
    assert (Hall : Loan.all_paid (<[index:=Repayment.mark_paid r]> (Loan.schedule loan)) = true).
    { apply all_paid_lookup. intros i r' Hi.
      destruct (decide (i = index)) as [->|Hne].
      - rewrite list_lookup_insert_eq in Hi by done. by injection Hi as <-.
      - rewrite list_lookup_insert_ne in Hi by done. by eapply Hothers. }
    by rewrite Hall.
  - intros loans j Hj. rewrite repaidLoans_lookup, Hj. simpl.
    by rewrite Z.eqb_refl, (repay_unpaid index loan r Hix Hr).
Qed.

(** The hypotheses of the theorem at the second, last unpaid entry of a
    disbursed loan. *)
Lemma repay_marks_and_completes_witness :
  Loan.status
    (repay 1 (Sample.later FundsDisbursed [Sample.entry 1 true; Sample.entry 2 false]))
  = Completed.
Proof.
  pose (loan := Sample.later FundsDisbursed [Sample.entry 1 true; Sample.entry 2 false]).
  assert (Hix : Loan.schedule loan !! 1%nat = Some (Sample.entry 2 false))
    by reflexivity.
  assert (Hr : Repayment.paid (Sample.entry 2 false) = false) by reflexivity.
  destruct (repay_marks_and_completes 1 loan (Sample.entry 2 false) Hix Hr)
    as (_ & _ & Hdone & _).
  apply Hdone. reflexivity.
Defined.

(** C2 fails as stated. A loan just requested has no repayment, so every
    one of them is paid, and it is Pending, also after [handleRepayment];
    a loan with its one repayment paid that is Approved stays Approved; and
    the admin's edit makes a loan Completed that has an unpaid entry. *)
Lemma completed_iff_all_paid_counterexample :
  handleRequestLoan Sample.trim Sample.borrower Sample.form 1700000000000
    "2023-11-14T22:13:20.000Z" [] = Updated [Sample.fresh]
  /\ (Loan.all_paid (Loan.schedule (repay 0 Sample.fresh)) = true
      /\ Loan.status (repay 0 Sample.fresh) = Pending)
  /\ (let loan := Sample.later Approved [Sample.entry 1 true] in
      Loan.all_paid (Loan.schedule (repay 0 loan)) = true
      /\ Loan.status (repay 0 loan) = Approved)
  /\ (let loan := Sample.later Approved [Sample.entry 1 false] in
      exists loan',
        Admin.handleSaveLoan Sample.trim (Sample.edit Completed) (Loan.id loan) [loan]
        = Updated [loan']
        /\ Loan.status loan' = Completed
        /\ Loan.all_paid (Loan.schedule loan') = false).
Proof.
  split; [reflexivity|]. split; [by split|]. split; [by split|].
  eexists. split; [reflexivity|]. by split.
Qed.

End Completion.

(** ** Approving, rejecting and assigning *)

Section AdminFacts.
Import Admin.

Lemma handleApprove_lookup (id : Z) (loans : list Loan.t) (j : nat) :
  handleApprove id loans !! j
  = (fun loan => if Loan.id loan =? id then Loan.with_status Approved loan else loan)
    <$> loans !! j.
Proof. unfold handleApprove. by rewrite list_lookup_fmap. Qed.

Lemma handleReject_lookup (id : Z) (loans : list Loan.t) (j : nat) :
  handleReject id loans !! j
  = (fun loan => if Loan.id loan =? id then Loan.with_status Rejected loan else loan)
    <$> loans !! j.
Proof. unfold handleReject. by rewrite list_lookup_fmap. Qed.

Lemma fmap_unmatched (f : Loan.t -> Loan.t) (id : Z) (loans : list Loan.t) :
  (forall loan, loan ∈ loans -> Loan.id loan <> id) ->
  (fun loan => if Loan.id loan =? id then f loan else loan) <$> loans = loans.
Proof.
  intros Hno. rewrite <- (list_fmap_id loans) at 2.
  apply list_fmap_ext. intros j loan Hj. simpl.
  destruct (Z.eqb_spec (Loan.id loan) id) as [Heq|]; [|done].
  exfalso. eapply Hno; [|exact Heq]. by eapply list_elem_of_lookup_2.
Qed.

(** C6, as the code has it. The [Approve] and [Reject] buttons are
    rendered for a loan exactly when it is Pending and not being edited.
    The handlers carry no test of the status: they give every loan with
    the id the status Approved, resp. Rejected, leave the other loans as
    they are, and leave the collection as it is when no loan has the id. *)
Theorem approve_reject_only_offered_when_pending (id : Z) (loans : list Loan.t) :
  (forall (isEditing : bool) (loan : Loan.t),
      showApproveReject isEditing loan = true
      <-> isEditing = false /\ Loan.status loan = Pending)
  /\ (forall (j : nat) (loan : Loan.t),
        loans !! j = Some loan ->
        handleApprove id loans !! j
        = Some (if Loan.id loan =? id then Loan.with_status Approved loan else loan)
        /\ handleReject id loans !! j
           = Some (if Loan.id loan =? id then Loan.with_status Rejected loan else loan))
  /\ ((forall loan, loan ∈ loans -> Loan.id loan <> id) ->
      handleApprove id loans = loans /\ handleReject id loans = loans).
Proof.
  split; [|split].
  - intros isEditing loan. unfold showApproveReject.
    rewrite andb_true_iff, negb_true_iff, status_eqb_eq. tauto.
  - intros j loan Hj.
    by rewrite handleApprove_lookup, handleReject_lookup, Hj.
  - intros Hno. split; by apply fmap_unmatched.
Qed.

(** C6 fails as stated: [handleApprove] turns a Rejected loan into an
    Approved one, and [handleReject] a Completed loan into a Rejected
    one. *)
Lemma approve_reject_not_pending_counterexample :
  let rejected := Sample.later Rejected [] in
  let completed := Sample.later Completed [Sample.entry 1 true] in
  Loan.status <$> handleApprove (Loan.id rejected) [rejected] = [Approved]
  /\ handleApprove (Loan.id rejected) [rejected] <> [rejected]
  /\ Loan.status <$> handleReject (Loan.id completed) [completed] = [Rejected]
  /\ handleReject (Loan.id completed) [completed] <> [completed].
Proof. repeat split; (reflexivity || discriminate). Qed.

Lemma assign_status (lender : User.t) (loan : Loan.t) :
  Loan.status (assign lender loan)
  = match Loan.status loan with
    | Pending | Assigned => Approved
    | s => s
    end.
Proof. unfold assign. by destruct (Loan.status loan). Qed.

Lemma showAssign_iff (isEditing : bool) (loan : Loan.t) :
  showAssign isEditing loan = true
  <-> isEditing = false
      /\ no_lender_name loan = true
      /\ (Loan.status loan = Pending \/ Loan.status loan = Approved
          \/ Loan.status loan = Assigned).
Proof.
  unfold showAssign. rewrite !andb_true_iff, !orb_true_iff, !negb_true_iff.
  rewrite !status_eqb_eq. destruct (Loan.status loan); simpl; split;
    intuition congruence.
Qed.

(** C7, as the code has it. The [Assign] button is rendered exactly when
    the loan is not being edited, has no lender name and is Pending,
    Approved or Assigned.  With a lender selected that is among the users,
    [handleAssignLender] records his id and name on every loan with the
    id and leaves the other loans as they are; the status of a Pending or
    Assigned loan becomes Approved, every other status stays: an Approved
    loan stays Approved. *)
Theorem handleAssignLender_binds (users : list User.t)
    (selectedLenders : gmap Z (option Z)) (loanId lenderId : Z)
    (lender : User.t) (loans : list Loan.t) :
  selectedLenders !! loanId = Some (Some lenderId) ->
  List.find (fun u => User.id u =? lenderId) users = Some lender ->
  (exists loans',
      handleAssignLender users selectedLenders loanId loans = Updated loans'
      /\ forall (j : nat) (loan : Loan.t),
           loans !! j = Some loan ->
           loans' !! j
           = Some (if Loan.id loan =? loanId then assign lender loan else loan))
  /\ (forall loan : Loan.t,
        Loan.lenderId (assign lender loan) = Some (User.id lender)
        /\ Loan.lenderName (assign lender loan) = Some (User.name lender)
        /\ Loan.status (assign lender loan)
           = match Loan.status loan with
             | Pending | Assigned => Approved
             | s => s
             end)
  /\ (forall (isEditing : bool) (loan : Loan.t),
        showAssign isEditing loan = true
        <-> isEditing = false
            /\ no_lender_name loan = true
            /\ (Loan.status loan = Pending \/ Loan.status loan = Approved
                \/ Loan.status loan = Assigned)).
Proof.
  intros Hsel Hfind. split; [|split].
  - unfold handleAssignLender. rewrite Hsel, Hfind. eexists. split; [done|].
    intros j loan Hj. rewrite list_lookup_fmap, Hj. simpl.
    by destruct (Loan.id loan =? loanId).
  - intros loan. by rewrite assign_status.
  - apply showAssign_iff.
Qed.

(** The hypotheses of the theorem for the sample lender and an Approved
    loan. *)
Lemma handleAssignLender_binds_witness :
  Loan.status (assign Sample.lender (Sample.later Approved [])) = Approved.
Proof.
  assert (Hsel : ({[ 1700000000000 := Some 2 ]} : gmap Z (option Z))
                 !! 1700000000000 = Some (Some 2))
    by apply lookup_singleton_eq.
  assert (Hfind : List.find (fun u => User.id u =? 2) [Sample.borrower; Sample.lender]
                  = Some Sample.lender) by reflexivity.
  destruct (handleAssignLender_binds [Sample.borrower; Sample.lender]
              {[ 1700000000000 := Some 2 ]} 1700000000000 2 Sample.lender
              [Sample.later Approved []] Hsel Hfind) as (_ & Hassign & _).
  destruct (Hassign (Sample.later Approved [])) as (_ & _ & Hstatus).
  exact Hstatus.
Defined.

(** C7 fails as stated: binding a lender to an Approved loan leaves it
    Approved, and an Assigned loan becomes Approved; no loan becomes
    Assigned. *)
Lemma assign_never_assigned_counterexample :
  let users := [Sample.borrower; Sample.lender] in
  let selected : gmap Z (option Z) := {[ 1700000000000 := Some 2 ]} in
  exists bound bound',
    handleAssignLender users selected 1700000000000 [Sample.later Approved []]
    = Updated [bound]
    /\ Loan.lenderId bound = Some 2
    /\ Loan.status bound = Approved
    /\ handleAssignLender users selected 1700000000000 [Sample.later Assigned []]
       = Updated [bound']
    /\ Loan.status bound' = Approved.
Proof.
  intros users selected. unfold handleAssignLender, selected.
  rewrite lookup_singleton_eq. simpl.
  eexists _, _. repeat split.
Qed.

End AdminFacts.

(** ** Disbursing *)

Section LenderFacts.
Import Lender.

Lemma disburse_lenderId (nowISO : string) (loan : Loan.t) :
  Loan.lenderId (disburse nowISO loan) = Loan.lenderId loan.
Proof. unfold disburse. by destruct (status_eqb _ _). Qed.

Lemma disburse_status (nowISO : string) (loan : Loan.t) :
  Loan.status (disburse nowISO loan) = FundsDisbursed.
Proof.
  unfold disburse. destruct (status_eqb _ _) eqn:Hs; [|done].
  by apply status_eqb_eq.
Qed.

Lemma disburse_again (nowISO : string) (loan : Loan.t) :
  Loan.status loan = FundsDisbursed -> disburse nowISO loan = loan.
Proof. unfold disburse. by intros ->. Qed.

Lemma load_bound (user : User.t) (allLoans : list Loan.t) :
  Forall (fun loan => Loan.lenderId loan = Some (User.id user))
         (view (load user allLoans)).
Proof.
  apply List.Forall_forall. intros loan Hin. simpl in Hin.
  apply filter_In in Hin as [_ Hmine].
  destruct (Loan.lenderId loan) as [i|]; [|done].
  by apply Z.eqb_eq in Hmine as ->.
Qed.

(** What [updateLoans] stores is made of what was stored and of what it
    is given. *)
Lemma updateLoans_stored (P : Loan.t -> Prop) (user : User.t)
    (updatedLoans : list Loan.t) (st : Store) :
  Forall P updatedLoans -> Forall P (stored st) ->
  Forall P (stored (updateLoans user updatedLoans st)).
Proof.
  intros Hup Hst. unfold updateLoans. simpl. apply Forall_app. split.
  - apply Forall_fmap. eapply Forall_impl; [exact Hst|].
    intros loan Hloan. simpl.
    destruct (match Loan.lenderId loan with Some i => i =? User.id user | None => false end);
      [|done].
    destruct (List.find _ updatedLoans) as [l|] eqn:Hfind; [|done].
    apply find_some in Hfind as [Hin _].
    by eapply (proj1 (List.Forall_forall P updatedLoans)).
  - apply List.Forall_forall. intros loan Hin.
    apply filter_In in Hin as [Hin _].
    by eapply (proj1 (List.Forall_forall P updatedLoans)).
Qed.

(** C4, as the code has it. The lender's list holds the loans bound to
    him, and [handleDisburse] works on that list only: a loan that it
    makes Funds Disbursed has a lender, the stored loans of others stay as
    they are, and if every stored Funds Disbursed loan had a lender before,
    so it is after.  A loan that is Funds Disbursed already is left as it
    is; whatever other status it has, the handler makes it Funds
    Disbursed.  The [Mark Disbursed] button is rendered exactly when the
    status is none of Funds Disbursed, Completed and Rejected. *)
Theorem handleDisburse_bound (user : User.t) (allLoans : list Loan.t)
    (nowISO : string) (loanId : Z) :
  let st := load user allLoans in
  let st' := handleDisburse user nowISO loanId st in
  Forall (fun loan => Loan.lenderId loan = Some (User.id user)) (view st)
  /\ Forall (fun loan => Loan.lenderId loan = Some (User.id user)) (view st')
  /\ (forall (j : nat) (loan : Loan.t),
        view st !! j = Some loan ->
        view st' !! j
        = Some (if Loan.id loan =? loanId then disburse nowISO loan else loan))
  /\ (forall loan : Loan.t,
        Loan.status (disburse nowISO loan) = FundsDisbursed
        /\ Loan.lenderId (disburse nowISO loan) = Loan.lenderId loan
        /\ (Loan.status loan = FundsDisbursed -> disburse nowISO loan = loan))
  /\ (forall (j : nat) (loan : Loan.t),
        allLoans !! j = Some loan ->
        Loan.lenderId loan <> Some (User.id user) ->
        stored st' !! j = Some loan)
  /\ (Forall disbursed_bound allLoans -> Forall disbursed_bound (stored st'))
  /\ (forall loan : Loan.t,
        showMarkDisbursed loan = true
        <-> Loan.status loan <> FundsDisbursed
            /\ Loan.status loan <> Completed
            /\ Loan.status loan <> Rejected).
Proof.
  intros st st'.
  assert (Hview : Forall (fun loan => Loan.lenderId loan = Some (User.id user)) (view st))
    by apply load_bound.
  assert (Hview' : Forall (fun loan => Loan.lenderId loan = Some (User.id user)) (view st')).
  { unfold st', handleDisburse, updateLoans. cbn [view].
    apply Forall_fmap. eapply Forall_impl; [exact Hview|].
    intros loan Hloan. simpl.
    destruct (negb (Loan.id loan =? loanId)); [done|].
    by rewrite disburse_lenderId. }
  split; [done|]. split; [done|]. split; [|split; [|split; [|split]]].
  - intros j loan Hj. unfold st', handleDisburse, updateLoans. cbn [view].
    rewrite list_lookup_fmap, Hj. simpl.
    by destruct (Loan.id loan =? loanId).
  - intros loan. split; [apply disburse_status|].
    split; [apply disburse_lenderId|apply disburse_again].
  - intros j loan Hj Hother. unfold st', st, handleDisburse, updateLoans, load. cbn [stored view].
    rewrite lookup_app_l
      by (rewrite length_fmap; by eapply lookup_lt_Some).
    rewrite list_lookup_fmap, Hj. simpl.
    destruct (Loan.lenderId loan) as [i|]; [|done].
    destruct (Z.eqb_spec i (User.id user)) as [->|]; [done|done].
  - intros Hinv. unfold st', handleDisburse.
    apply updateLoans_stored; [|done].
    eapply Forall_impl; [exact Hview'|].
    intros loan Hloan _. by rewrite Hloan.
  - intros loan. unfold showMarkDisbursed.
    rewrite !andb_true_iff, !negb_true_iff.
    destruct (Loan.status loan); simpl; intuition congruence.
Qed.

(** C4 fails as stated: the admin's edit gives the status Funds Disbursed
    to a loan without a lender, and [handleDisburse] changes a loan that is
    Completed, or Rejected, into a Funds Disbursed one. *)
Lemma disbursed_without_lender_counterexample :
  (exists loan',
      Admin.handleSaveLoan Sample.trim (Sample.edit FundsDisbursed)
        (Loan.id Sample.fresh) [Sample.fresh] = Updated [loan']
      /\ Loan.status loan' = FundsDisbursed
      /\ Loan.lenderId loan' = None)
  /\ (let completed :=
        Admin.assign Sample.lender (Sample.later Completed [Sample.entry 1 true]) in
      let st := load Sample.lender [completed] in
      view st = [completed]
      /\ Loan.status
         <$> stored (handleDisburse Sample.lender "2023-12-01T00:00:00.000Z"
                       (Loan.id completed) st)
         = [FundsDisbursed])
  /\ (let rejected := Admin.assign Sample.lender (Sample.later Rejected []) in
      Loan.status (disburse "2023-12-01T00:00:00.000Z" rejected) = FundsDisbursed
      /\ disburse "2023-12-01T00:00:00.000Z" rejected <> rejected).
Proof.
  split; [|split].
  - eexists. split; [reflexivity|]. by split.
  - by split.
  - split; [reflexivity|discriminate].
Qed.

End LenderFacts.

(** ** Terminal states *)

Section Terminal.

Lemma repay_completed (index : nat) (loan : Loan.t) :
  Loan.status loan = Completed ->
  Loan.status (Borrower.repay index loan) = Completed.
Proof.
  intros Hs. unfold Borrower.repay.
  destruct (_ !! index) as [r|]; [|done].
  destruct (Repayment.paid r); [done|]. simpl.
  by destruct (Loan.all_paid _).
Qed.

(** C3, as the code has it. For a loan that is Rejected or Completed none
    of the buttons Approve, Reject, Assign, Mark Disbursed and Pay EMI is
    rendered; [handleAssignLender] leaves its status as it is; and
    [handleRepayment] leaves a Completed loan Completed. *)
Theorem terminal_status_kept (loan : Loan.t) :
  terminal (Loan.status loan) = true ->
  (forall isEditing : bool,
      Admin.showApproveReject isEditing loan = false
      /\ Admin.showAssign isEditing loan = false)
  /\ Lender.showMarkDisbursed loan = false
  /\ (forall emi : Repayment.t, Borrower.showPayEMI loan emi = false)
  /\ (forall lender : User.t,
        Loan.status (Admin.assign lender loan) = Loan.status loan)
  /\ (forall (users : list User.t) (selectedLenders : gmap Z (option Z))
             (loanId : Z) (loans loans' : list Loan.t) (j : nat),
        loans !! j = Some loan ->
        Admin.handleAssignLender users selectedLenders loanId loans = Updated loans' ->
        exists loan', loans' !! j = Some loan'
                      /\ Loan.status loan' = Loan.status loan)
  /\ (Loan.status loan = Completed ->
      forall (loanId : Z) (index : nat) (loans : list Loan.t) (j : nat),
        loans !! j = Some loan ->
        exists loan', Borrower.repaidLoans loanId index loans !! j = Some loan'
                      /\ Loan.status loan' = Completed).
Proof.
  intros Hterm.
  assert (Hassign : forall lender, Loan.status (Admin.assign lender loan) = Loan.status loan).
  { intros lender. rewrite assign_status. by destruct (Loan.status loan). }
  split; [|split; [|split; [|split; [done|split]]]].
  - intros isEditing. unfold Admin.showApproveReject, Admin.showAssign.
    destruct (Loan.status loan), isEditing; try done; simpl;
      by rewrite ?andb_false_r.
  - unfold Lender.showMarkDisbursed. by destruct (Loan.status loan).
  - intros emi. unfold Borrower.showPayEMI, Borrower.repayable.
    destruct (Loan.status loan); try done; simpl; by rewrite ?andb_false_r.
  - intros users selectedLenders loanId loans loans' j Hj.
    unfold Admin.handleAssignLender.
    destruct (selectedLenders !! loanId) as [[lenderId|]|]; [|done|done].
    destruct (List.find _ users) as [lender|]; [|done].
    intros [= <-]. rewrite list_lookup_fmap, Hj. simpl.
    destruct (negb (Loan.id loan =? loanId)); eexists; split; done.
  - intros Hc loanId index loans j Hj.
    rewrite repaidLoans_lookup, Hj. simpl.
    destruct (Loan.id loan =? loanId); eexists; split; try done.
    by apply repay_completed.
Qed.

(** The hypothesis of the theorem at a Completed loan. *)
Lemma terminal_status_kept_witness :
  Lender.showMarkDisbursed (Sample.later Completed [Sample.entry 1 true]) = false.
Proof.
  assert (Hterm : terminal (Loan.status (Sample.later Completed [Sample.entry 1 true])) = true)
    by reflexivity.
  exact (proj1 (proj2 (terminal_status_kept _ Hterm))).
Defined.

(** C3 fails as stated: [handleApprove] makes a Rejected loan Approved,
    the admin's edit makes a Completed loan Pending, [handleDisburse]
    makes a Completed loan Funds Disbursed, and [handleRepayment] makes a
    Rejected loan Completed. *)
Lemma terminal_status_changed_counterexample :
  let rejected := Sample.later Rejected [Sample.entry 1 false] in
  let completed := Sample.later Completed [Sample.entry 1 true] in
  Loan.status <$> Admin.handleApprove (Loan.id rejected) [rejected] = [Approved]
  /\ (exists loan',
         Admin.handleSaveLoan Sample.trim (Sample.edit Pending) (Loan.id completed)
           [completed] = Updated [loan']
         /\ Loan.status loan' = Pending)
  /\ Loan.status (Lender.disburse "2023-12-01T00:00:00.000Z" completed)
     = FundsDisbursed
  /\ Loan.status <$> Borrower.repaidLoans (Loan.id rejected) 0 [rejected]
     = [Completed].
Proof.
  split; [reflexivity|]. split; [|by split].
  eexists. by split.
Qed.

End Terminal.


(** ** The total of a schedule *)

Section Total.
Import Num Borrower.

Lemma amounts_total_same (a : NumberText) (v : Q) (rs : list Repayment.t) :
  text_value a = Some v ->
  Forall (fun r => Repayment.amount r = a) rs ->
  exists t : Q,
    amounts_total rs = Some t /\ (t == inject_Z (Z.of_nat (length rs)) * v)%Q.
Proof.
  intros Hv. induction 1 as [|r rs Hr _ (t & Ht & Heq)]; cbn [amounts_total foldr length].
  - exists 0%Q. split; [done|]. cbn. ring.
  - fold (amounts_total rs). rewrite Hr, Hv, Ht. eexists. split; [done|].
    rewrite Heq, Nat2Z.inj_succ. unfold Z.succ. rewrite inject_Z_plus. ring.
Qed.

(** The total of [k] equal amounts, each within [b] of [d]. *)
Lemma total_near (k : Z) (total v d b : Q) :
  0 <= k ->
  (total == inject_Z k * v)%Q ->
  (Qabs (v - d) <= b)%Q ->
  (Qabs (total - inject_Z k * d) <= inject_Z k * b)%Q.
Proof.
  intros Hk Heq Hnear.
  assert (Hk0 : (0 <= inject_Z k)%Q) by (by apply inject_Z_nonneg).
  apply Qabs_le_iff in Hnear. apply Qabs_le_iff.
  set (z := inject_Z k) in *. split; nra.
Qed.

(** C8, as the code has it.  For a principal [P > 0] and a duration that
    is the integer [n >= 1]: below [n = 2^32] the schedule has [n]
    entries, and from [n = 2^32] on there is none, the call throws.  The
    amounts of the [n] entries sum to within [n] half-cents of [n] times
    the quotient [P / n] as the program computes it; for [P < 2^j * n]
    they sum to within [n * (1/200 + 2^(j-51))] of [P], the second term
    being the rounding of the division; and for a principal that is an
    integer, with [200 * n < 2^(51-j)], they sum to within [n] half-cents
    of [P]. *)
Theorem schedule_total_near_principal (P n : number) (k : Z) :
  (zero <? P)%num = true ->
  natural n = Some k ->
  1 <= k ->
  (k < 2 ^ 32 ->
   exists entries : list Repayment.t,
     generateEMISchedule P n = Some entries
     /\ length entries = Z.to_nat k
     /\ (forall q : Q,
           value (P / n)%num = Some q ->
           exists total : Q,
             amounts_total entries = Some total
             /\ (Qabs (total - inject_Z k * q) <= inject_Z k * (1 # 200))%Q
             /\ forall p : Q,
                  value P = Some p -> (inject_Z k * q == p)%Q ->
                  (Qabs (total - p) <= inject_Z k * (1 # 200))%Q)
     /\ (forall (p : Q) (j : Z),
           value P = Some p ->
           (p < 2 ^ j * inject_Z k)%Q -> -1021 <= j <= 1022 ->
           exists total : Q,
             amounts_total entries = Some total
             /\ (Qabs (total - p)
                 <= inject_Z k * ((1 # 200) + 2 ^ (j - 51)))%Q)
     /\ (forall pz j : Z,
           natural P = Some pz ->
           pz < 2 ^ j * k -> 200 * k < 2 ^ (51 - j) ->
           exists total : Q,
             amounts_total entries = Some total
             /\ (Qabs (total - inject_Z pz) <= inject_Z k * (1 # 200))%Q))
  /\ (2 ^ 32 <= k -> generateEMISchedule P n = None).
Proof.
  intros HP Hn Hk.
  destruct (months_natural n k Hn Hk) as (Hmonths & Hsmall & Hlarge).
  assert (Hprincipal : (P || zero)%num = P).
  { by apply or_else_truthy, truthy_of_positive. }
  assert (Hk0 : (0 < inject_Z k)%Q) by (apply inject_Z_pos; lia).
  split; [|intros Hge; apply schedule_thrown; rewrite Hmonths; by apply Hlarge].
  intros Hlt.
  destruct (generateEMISchedule P n) as [entries|] eqn:Hgen;
    [|by rewrite schedule_returned in Hgen by (by rewrite Hmonths, Hsmall)].
  pose proof (schedule_length P n entries Hgen) as Hlen.
  pose proof (schedule_amounts P n entries Hgen) as Hsame.
  rewrite Hmonths in Hlen, Hsame. rewrite Hsmall in Hlen by done.
  rewrite Hprincipal in Hsame.
  assert (Htotal : forall v : Q,
             text_value (toFixed2 (P / n)%num) = Some v ->
             exists total : Q,
               amounts_total entries = Some total
               /\ (total == inject_Z k * v)%Q).
  { intros v Hv.
    destruct (amounts_total_same _ v _ Hv Hsame) as (total & Htotal & Heq).
    rewrite Hlen, Z2Nat.id in Heq by lia. by exists total. }
  exists entries. split; [done|]. split; [done|].
  split; [|split].
  - intros q Hq. destruct (toFixed2_near _ _ Hq) as (v & Hv & Hnear).
    destruct (Htotal v Hv) as (total & Hsum & Heq).
    pose proof (total_near k total v q (1 # 200) ltac:(lia) Heq Hnear) as Hbound.
    exists total. split; [done|]. split; [done|].
    intros p _ Hexact. apply Qabs_le_iff in Hbound. apply Qabs_le_iff. lra.
  - intros p j Hp Hbelow Hj.
    destruct (amount_near P n p k j) as (q & v & Hq & _ & Hnear & Hv & Hcents);
      try done.
    { by apply (positive_value P). }
    destruct (Htotal v Hv) as (total & Hsum & Heq).
    exists total. split; [done|].
    assert (Hv' : (Qabs (v - p / inject_Z k) <= (1 # 200) + 2 ^ (j - 51))%Q).
    { apply Qabs_le_iff in Hnear. apply Qabs_le_iff in Hcents.
      apply Qabs_le_iff. lra. }
    pose proof (total_near k total v _ _ ltac:(lia) Heq Hv') as Hbound.
    assert (Hp' : (inject_Z k * (p / inject_Z k) == p)%Q)
      by (field; by apply Qpos_neq0).
    by rewrite Hp' in Hbound.
  - intros pz j Hpz Hbelow Hfine.
    destruct (amount_cents P n pz k j) as (c & Hc & Hcents); try done.
    { by apply (positive_natural P). }
    destruct (Htotal (c # 100)%Q) as (total & Hsum & Heq); [by rewrite Hc|].
    exists total. split; [done|].
    pose proof (total_near k total _ _ _ ltac:(lia) Heq Hcents) as Hbound.
    assert (Hp' : (inject_Z k * (inject_Z pz / inject_Z k) == inject_Z pz)%Q)
      by (field; by apply Qpos_neq0).
    by rewrite Hp' in Hbound.
Qed.

(** The hypotheses of the theorem at principal 1000 and duration 3, where
    the division is not exact. *)
Lemma schedule_total_near_principal_witness :
  exists (entries : list Repayment.t) (total : Q),
    generateEMISchedule (of_Z 1000) (of_Z 3) = Some entries
    /\ amounts_total entries = Some total
    /\ (Qabs (total - inject_Z 1000) <= inject_Z 3 * (1 # 200))%Q.
Proof.
  assert (HP : (zero <? of_Z 1000)%num = true) by reflexivity.
  assert (Hn : natural (of_Z 3) = Some 3) by reflexivity.
  assert (Hk : 1 <= 3) by lia.
  assert (Hlt : 3 < 2 ^ 32) by reflexivity.
  assert (HPz : natural (of_Z 1000) = Some 1000) by reflexivity.
  assert (Hbelow : 1000 < 2 ^ 9 * 3) by reflexivity.
  assert (Hfine : 200 * 3 < 2 ^ (51 - 9)) by reflexivity.
  destruct (proj1 (schedule_total_near_principal (of_Z 1000) (of_Z 3) 3 HP Hn Hk) Hlt)
    as (entries & Hgen & _ & _ & _ & Hcents).
  destruct (Hcents 1000 9 HPz Hbelow Hfine) as (total & Hsum & Hbound).
  by exists entries, total.
Defined.

(** C8 fails as stated, in two ways.  Principal 10^16 over 3 months: the
    quotient rounds to 3333333333333333.5, each amount is
    "3333333333333333.50", and the three sum to half a unit more than the
    principal, not to within 3 half-cents of it.  And a duration of 2^32
    months gives no entries at all: the call throws a RangeError. *)
Lemma schedule_total_counterexample :
  (let P := of_Z (10 ^ 16) in
   let n := of_Z 3 in
   (zero <? P)%num = true
   /\ natural n = Some 3
   /\ value P = Some (inject_Z (10 ^ 16))
   /\ exists entries : list Repayment.t,
        generateEMISchedule P n = Some entries
        /\ Repayment.amount <$> entries
           = replicate 3 (Fixed2 false 333333333333333350)
        /\ exists total : Q,
             amounts_total entries = Some total
             /\ (total - inject_Z (10 ^ 16) == 1 # 2)%Q
             /\ ~ (Qabs (total - inject_Z (10 ^ 16)) <= inject_Z 3 * (1 # 200))%Q)
  /\ ((zero <? of_Z 12000)%num = true
      /\ natural (of_Z (2 ^ 32)) = Some (2 ^ 32)
      /\ generateEMISchedule (of_Z 12000) (of_Z (2 ^ 32)) = None).
Proof.
  split.
  - intros P n. split; [reflexivity|]. split; [reflexivity|].
    split; [reflexivity|]. eexists. split; [by vm_compute|].
    split; [done|]. eexists. split; [by vm_compute|]. split; by vm_compute.
  - split; [reflexivity|]. split; [reflexivity|]. by vm_compute.
Qed.

End Total.

(** ** Signs under division *)

Section Signs.
Import Num.

Lemma shr_1_nonneg (mrs : shr_record) : 0 <= shr_m mrs -> 0 <= shr_m (shr_1 mrs).
Proof.
  destruct mrs as [m r s]. simpl. intros Hm.
  destruct m as [|[p|p|]|p]; simpl; lia.
Qed.

Lemma iter_shr_1_nonneg (p : positive) (mrs : shr_record) :
  0 <= shr_m mrs -> 0 <= shr_m (SpecFloat.iter_pos shr_1 p mrs).
Proof.
  revert mrs. induction p as [p IH|p IH|]; intros mrs Hm; simpl.
  - by apply IH, IH, shr_1_nonneg.
  - by apply IH, IH.
  - by apply shr_1_nonneg.
Qed.

Lemma shr_fexp_nonneg (m e : Z) (l : location) :
  0 <= m -> 0 <= shr_m (fst (shr_fexp prec emax m e l)).
Proof.
  intros Hm. unfold shr_fexp, shr.
  assert (H0 : 0 <= shr_m (shr_record_of_loc m l)) by (by destruct l as [|[]]).
  destruct (_ - e) as [|p|p]; simpl; [done| |done].
  by apply iter_shr_1_nonneg.
Qed.

Lemma round_nearest_even_nonneg (m : Z) (l : location) :
  0 <= m -> 0 <= round_nearest_even m l.
Proof. intros Hm. destruct l as [|[]]; simpl; [done| |done|lia]. destruct (Z.even m); lia. Qed.

Lemma binary_round_aux_signed (s : bool) (m e : Z) (l : location) :
  0 <= m -> signed s (binary_round_aux prec emax s m e l).
Proof.
  intros Hm. unfold binary_round_aux.
  pose proof (shr_fexp_nonneg m e l Hm) as H1.
  destruct (shr_fexp prec emax m e l) as [mrs' e'] eqn:E1. simpl in H1.
  pose proof (shr_fexp_nonneg
                (round_nearest_even (shr_m mrs') (loc_of_shr_record mrs')) e'
                loc_Exact (round_nearest_even_nonneg _ _ H1)) as H2.
  destruct (shr_fexp prec emax _ e' loc_Exact) as [mrs'' e''] eqn:E2. simpl in H2.
  destruct (shr_m mrs'') as [|p|p]; [done| |lia].
  by destruct (e'' <=? emax - prec).
Qed.

Lemma div_signed (s : bool) (x : number) (m : positive) (e : Z) :
  signed s x -> signed s (x / S754_finite false m e)%num.
Proof.
  destruct x as [sx|sx| |sx mx ex]; simpl; try done.
  - intros <-. by destruct sx.
  - intros <-. by destruct sx.
  - intros <-. unfold SFdiv_core_binary.
    set (m' := match _ - _ - _ with 0 => Z.pos mx | Z.pos _ => _ | Z.neg _ => 0 end).
    assert (Hm' : 0 <= m').
    { unfold m'. destruct (_ - _ - _); [lia| |lia].
      rewrite Z.shiftl_mul_pow2 by lia. apply Z.mul_nonneg_nonneg; [lia|].
      apply Z.pow_nonneg. lia. }
    assert (Hq : 0 <= fst (Z.div_eucl m' (Z.pos m))).
    { change (0 <= m' / Z.pos m). apply Z.div_pos; lia. }
    destruct (Z.div_eucl m' (Z.pos m)) as [q r]. simpl in Hq.
    replace (xorb sx false) with sx by (by destruct sx).
    by apply binary_round_aux_signed.
Qed.

Lemma negative_leb_zero (x : number) : signed true x -> (x <=? zero)%num = true.
Proof. destruct x as [[]|[]| |[] ? ?]; simpl; done. Qed.

Lemma leb_zero_cases (x : number) :
  (x <=? zero)%num = true ->
  (x || zero)%num = zero \/ ((x || zero)%num = x /\ signed true x).
Proof. destruct x as [[]|[]| |[] ? ?]; simpl; try done; auto. Qed.

Lemma positive_not_leb (x : number) :
  (zero <? x)%num = true -> (x <=? zero)%num = false.
Proof. by destruct x as [[]|[]| |[] ? ?]. Qed.

(** The monthly rate is never NaN. *)
Lemma monthly_rate_signed (rate : number) :
  exists s : bool, signed s ((rate || zero) / of_Z 12 / of_Z 100)%num.
Proof.
  assert (Hs : exists s : bool, signed s (rate || zero)%num)
    by (destruct rate as [a|a| |a m e]; by eexists).
  destruct Hs as [s Hs]. exists s.
  change (of_Z 100) with (S754_finite false 7036874417766400 (-46)).
  apply div_signed.
  change (of_Z 12) with (S754_finite false 6755399441055744 (-49)).
  by apply div_signed.
Qed.

Lemma signed_not_positive (s : bool) (x : number) :
  signed s x -> (zero <? x)%num = false -> (x <=? zero)%num = true.
Proof. by destruct x as [[]|[]| |[] ? ?]. Qed.

Lemma not_positive_or_zero (x : number) :
  (zero <? x)%num = false -> ((x || zero) <=? zero)%num = true.
Proof. by destruct x as [[]|[]| |[] ? ?]. Qed.

(** A non-positive annual rate gives a non-positive monthly rate. *)
Lemma monthly_rate_nonpositive (rate : number) :
  (rate <=? zero)%num = true ->
  ((rate || zero) / of_Z 12 / of_Z 100 <=? zero)%num = true.
Proof.
  intros Hrate. destruct (leb_zero_cases rate Hrate) as [->|[-> Hneg]].
  - reflexivity.
  - apply negative_leb_zero.
    change (of_Z 100) with (S754_finite false 7036874417766400 (-46)).
    apply div_signed.
    change (of_Z 12) with (S754_finite false 6755399441055744 (-49)).
    by apply div_signed.
Qed.

End Signs.

(** ** The EMI calculators *)

Section Calculators.
Import Num.

Lemma eqb_eq (x y : number) : eqb x y = true -> x = y.
Proof.
  destruct x as [a|a| |a m e], y as [b|b| |b m' e']; simpl; try done.
  - by intros ->%Bool.eqb_prop.
  - by intros ->%Bool.eqb_prop.
  - rewrite !andb_true_iff.
    by intros (->%Bool.eqb_prop & ->%Pos.eqb_eq & ->%Z.eqb_eq).
Qed.

(** A test that holds on each of [len] consecutive mantissas from [lo]
    holds on every mantissa in that range. *)
Lemma forallb_range (f : positive -> bool) (lo : Z) (len : nat) :
  forallb f ((fun i : nat => Z.to_pos (lo + Z.of_nat i)) <$> seq 0 len) = true ->
  forall m : positive, lo <= Z.pos m < lo + Z.of_nat len -> f m = true.
Proof.
  intros Hall m Hm. rewrite forallb_forall in Hall. apply Hall.
  apply list_elem_of_In, list_elem_of_fmap.
  exists (Z.to_nat (Z.pos m - lo)). split.
  - rewrite Z2Nat.id by lia. replace (lo + (Z.pos m - lo)) with (Z.pos m) by lia.
    done.
  - apply elem_of_seq. lia.
Qed.

Lemma within_ulps_inv (d : Z) (x : number) (m' : positive) (e' : Z) :
  within_ulps d x (S754_finite false m' e') = true ->
  exists m : positive,
    x = S754_finite false m e' /\ Z.pos m' - d <= Z.pos m <= Z.pos m' + d.
Proof.
  destruct x as [| | |[] m e]; simpl; try done.
  rewrite andb_true_iff. intros [->%Z.eqb_eq Hd%Z.leb_le].
  exists m. split; [done|lia].
Qed.

Lemma text_eqb_eq (a b : NumberText) : text_eqb a b = true -> a = b.
Proof.
  destruct a as [s c|x], b as [s' c'|y]; simpl; try done.
  - rewrite andb_true_iff. by intros (->%Bool.eqb_prop & ->%Z.eqb_eq).
  - by intros ->%eqb_eq.
Qed.

Lemma or_zero_leb (x : number) :
  (x <=? zero)%num = true -> ((x || zero) <=? zero)%num = true.
Proof. by destruct x as [[]|[]| |[] ? ?]. Qed.

Lemma calculateEMI_formula (Math_pow : number -> number -> number)
    (P rate n : number) :
  (zero <? P)%num = true ->
  (zero <? (rate || zero) / of_Z 12 / of_Z 100)%num = true ->
  (zero <? n)%num = true ->
  EmiDefault.calculateEMI Math_pow P rate n
  = (Math_round
       (Emi.quotient Math_pow P ((rate || zero) / of_Z 12 / of_Z 100) n * of_Z 100)
     / of_Z 100)%num.
Proof.
  intros HP Hr Hn. unfold EmiDefault.calculateEMI, Emi.quotient.
  rewrite (or_else_truthy P), (or_else_truthy n) by (by apply truthy_of_positive).
  by rewrite (positive_not_leb _ HP), (positive_not_leb _ Hr),
    (positive_not_leb _ Hn).
Qed.

(** The rounded payment for principal 100000 at 12 percent over 12 months,
    for each value of the power within 16 units of the exact one. *)
Lemma example_candidates (m : positive) :
  5074768785814087 - 16 <= Z.pos m < 5074768785814087 - 16 + Z.of_nat 33 ->
  (Math_round
     (Emi.quotient (fun _ _ => S754_finite false m (-52)) (of_Z 100000)
        ((of_Z 12 || zero) / of_Z 12 / of_Z 100) (of_Z 12) * of_Z 100)
   / of_Z 100)%num
  = (of_Z 888488 / of_Z 100)%num.
Proof.
  intros Hm. apply eqb_eq.
  revert m Hm. apply forallb_range. by vm_compute.
Qed.

(** C5, as the code has it. [calculateEMI] returns zero unless the
    principal, the monthly rate [r = annualRate / 12 / 100] that it
    computes and the term are all three positive: so when the principal,
    the annual rate or the term is non-positive, or not a number.  With the
    three positive it returns [Math.round(x * 100) / 100] for
    [x = P r (1+r)^n / ((1+r)^n - 1)].  For principal 100000 at 12 percent
    over 12 months that is 8884.88, whenever [Math.pow] is within 16 units
    in the last place of the exact power. *)
Theorem calculateEMI_guard_and_formula (Math_pow : number -> number -> number)
    (P rate n : number) :
  let r := ((rate || zero) / of_Z 12 / of_Z 100)%num in
  ((P <=? zero)%num = true \/ (rate <=? zero)%num = true \/ (n <=? zero)%num = true ->
   EmiDefault.calculateEMI Math_pow P rate n = zero)
  /\ ((zero <? P)%num = false \/ (zero <? r)%num = false \/ (zero <? n)%num = false ->
      EmiDefault.calculateEMI Math_pow P rate n = zero)
  /\ ((zero <? P)%num = true -> (zero <? r)%num = true -> (zero <? n)%num = true ->
      EmiDefault.calculateEMI Math_pow P rate n
      = (Math_round (Emi.quotient Math_pow P r n * of_Z 100) / of_Z 100)%num)
  /\ (within_ulps 16
        (Math_pow (of_Z 1 + of_Z 12 / of_Z 12 / of_Z 100)%num (of_Z 12))
        (RefPow.pow (of_Z 1 + of_Z 12 / of_Z 12 / of_Z 100)%num (of_Z 12)) = true ->
      EmiDefault.calculateEMI Math_pow (of_Z 100000) (of_Z 12) (of_Z 12)
      = (of_Z 888488 / of_Z 100)%num)
  /\ toFixed2 (of_Z 888488 / of_Z 100)%num = Fixed2 false 888488
  /\ show_fixed2 false 888488 = "8884.88".
Proof.
  intros r.
  assert (Hr : (r <=? zero)%num = true ->
               EmiDefault.calculateEMI Math_pow P rate n = zero).
  { intros Hle. unfold EmiDefault.calculateEMI. fold r. rewrite Hle.
    by rewrite orb_true_r. }
  assert (HPn : ((P || zero) <=? zero)%num = true
                \/ ((n || zero) <=? zero)%num = true ->
                EmiDefault.calculateEMI Math_pow P rate n = zero).
  { unfold EmiDefault.calculateEMI. intros [->| ->]; [done|].
    by rewrite orb_true_r. }
  split; [|split; [|split; [|split; [|split]]]].
  - intros [HP|[Hrate|Hn]].
    + apply HPn. left. by apply or_zero_leb.
    + by apply Hr, monthly_rate_nonpositive.
    + apply HPn. right. by apply or_zero_leb.
  - intros [HP|[Hrate|Hn]].
    + apply HPn. left. by apply not_positive_or_zero.
    + destruct (monthly_rate_signed rate) as [s Hs].
      by apply Hr, (signed_not_positive s).
    + apply HPn. right. by apply not_positive_or_zero.
  - apply calculateEMI_formula.
  - intros Hpow.
    rewrite calculateEMI_formula by reflexivity. unfold Emi.quotient.
    assert (Harg : (of_Z 1 + (of_Z 12 || zero) / of_Z 12 / of_Z 100)%num
                   = (of_Z 1 + of_Z 12 / of_Z 12 / of_Z 100)%num) by reflexivity.
    rewrite Harg. revert Hpow.
    generalize (Math_pow (of_Z 1 + of_Z 12 / of_Z 12 / of_Z 100)%num (of_Z 12)).
    intros p Hpow.
    assert (Href : RefPow.pow (of_Z 1 + of_Z 12 / of_Z 12 / of_Z 100)%num (of_Z 12)
                   = S754_finite false 5074768785814087 (-52)) by reflexivity.
    rewrite Href in Hpow. apply within_ulps_inv in Hpow as (m & -> & Hm).
    apply (example_candidates m). lia.
  - reflexivity.
  - reflexivity.
Qed.

(** The example of C5 with the reference power. *)
Lemma calculateEMI_guard_and_formula_witness :
  EmiDefault.calculateEMI RefPow.pow (of_Z 100000) (of_Z 12) (of_Z 12)
  = (of_Z 888488 / of_Z 100)%num.
Proof.
  destruct (calculateEMI_guard_and_formula RefPow.pow zero zero zero)
    as (_ & _ & _ & Hexample & _).
  apply Hexample. reflexivity.
Defined.

(** C5 fails as stated. The smallest positive Number as annual rate, with
    principal and term 1: all three are positive, the monthly rate
    underflows to zero and [calculateEMI] returns zero, which is not what
    the formula gives (with that rate the program's arithmetic gives NaN,
    and the exact quotient is above the principal).  A principal that is
    not a number is not non-positive either, and gives zero as well. *)
Lemma calculateEMI_tiny_rate_counterexample :
  let tiny := S754_finite false 1 (-1074) in
  is_binary64 tiny = true
  /\ (zero <? of_Z 1)%num = true
  /\ (zero <? tiny)%num = true
  /\ (tiny / of_Z 12 / of_Z 100)%num = zero
  /\ EmiDefault.calculateEMI RefPow.pow (of_Z 1) tiny (of_Z 1) = zero
  /\ (Math_round
        (Emi.quotient RefPow.pow (of_Z 1) (tiny / of_Z 12 / of_Z 100) (of_Z 1)
         * of_Z 100) / of_Z 100)%num = S754_nan
  /\ (S754_nan <=? zero)%num = false
  /\ EmiDefault.calculateEMI RefPow.pow S754_nan (of_Z 12) (of_Z 12) = zero.
Proof. repeat split. Qed.

(** A positive monthly rate comes from an annual rate that is truthy. *)
Lemma monthly_rate_truthy (rate : number) :
  (zero <? rate / of_Z 12 / of_Z 100)%num = true -> truthy rate = true.
Proof. by destruct rate as [[]|[]| |[] ? ?]. Qed.

Lemma example_candidates_named (m : positive) :
  5074768785814087 - 16 <= Z.pos m < 5074768785814087 - 16 + Z.of_nat 33 ->
  toFixed2
    (Emi.quotient (fun _ _ => S754_finite false m (-52)) (of_Z 100000)
       (of_Z 12 / (of_Z 12 * of_Z 100)) (of_Z 12))%num
  = Fixed2 false 888488.
Proof.
  intros Hm. apply text_eqb_eq.
  revert m Hm. apply forallb_range. by vm_compute.
Qed.

(** The same at 8 percent, where the two monthly rates differ in the last
    place and [1 + r] is the same Number for both. *)
Lemma example_candidates_8 (m : positive) :
  4877396175300732 - 16 <= Z.pos m < 4877396175300732 - 16 + Z.of_nat 33 ->
  (Math_round
     (Emi.quotient (fun _ _ => S754_finite false m (-52)) (of_Z 100000)
        ((of_Z 8 || zero) / of_Z 12 / of_Z 100) (of_Z 12) * of_Z 100)
   / of_Z 100)%num
  = (of_Z 869884 / of_Z 100)%num.
Proof.
  intros Hm. apply eqb_eq.
  revert m Hm. apply forallb_range. by vm_compute.
Qed.

Lemma example_candidates_named_8 (m : positive) :
  4877396175300732 - 16 <= Z.pos m < 4877396175300732 - 16 + Z.of_nat 33 ->
  toFixed2
    (Emi.quotient (fun _ _ => S754_finite false m (-52)) (of_Z 100000)
       (of_Z 8 / (of_Z 12 * of_Z 100)) (of_Z 12))%num
  = Fixed2 false 869884.
Proof.
  intros Hm. apply text_eqb_eq.
  revert m Hm. apply forallb_range. by vm_compute.
Qed.

(** The two monthly rates of a positive annual rate [R < 2^k] are both
    near [R / 1200]. *)
Lemma monthly_rates_near (rate : number) (R : Q) (k : Z) :
  value rate = Some R -> (0 < R)%Q -> (R < 2 ^ k)%Q -> -1011 <= k <= 1024 ->
  exists v1 v2 : Q,
    value (rate / of_Z 12 / of_Z 100)%num = Some v1
    /\ value (rate / (of_Z 12 * of_Z 100))%num = Some v2
    /\ (Qabs (v1 - R / 1200) <= 2 ^ (k - 59))%Q
    /\ (Qabs (v2 - R / 1200) <= 2 ^ (k - 61))%Q.
Proof.
  intros Hrate HR Hlt Hk.
  destruct (value_positive rate R Hrate HR) as (m & e & -> & ->).
  set (R := magnitude m e) in *.
  (* the powers of two, in units of the smallest *)
  set (u := (2 ^ (k - 61))%Q).
  assert (Hu : (0 < u)%Q) by apply pow2_pos_Q.
  assert (H0 : (2 ^ k == u * 2305843009213693952)%Q).
  { pose proof (pow2_shift 61 0 2305843009213693952%Q ltac:(by vm_compute) k) as H.
    by rewrite Z.sub_0_r in H. }
  assert (H3 : (2 ^ (k - 3) == u * 288230376151711744)%Q)
    by (apply (pow2_shift 61 3); by vm_compute).
  assert (H9 : (2 ^ (k - 9) == u * 4503599627370496)%Q)
    by (apply (pow2_shift 61 9); by vm_compute).
  assert (H10 : (2 ^ (k - 10) == u * 2251799813685248)%Q)
    by (apply (pow2_shift 61 10); by vm_compute).
  assert (H54 : (2 ^ (k - 3 - 51) == u * 128)%Q).
  { replace (k - 3 - 51) with (k - 54) by lia.
    apply (pow2_shift 61 54); by vm_compute. }
  assert (H60 : (2 ^ (k - 9 - 51) == u * 2)%Q).
  { replace (k - 9 - 51) with (k - 60) by lia.
    apply (pow2_shift 61 60); by vm_compute. }
  assert (H61 : (2 ^ (k - 10 - 51) == u)%Q).
  { replace (k - 10 - 51) with (k - 61) by lia. reflexivity. }
  assert (H59 : (2 ^ (k - 59) == u * 4)%Q)
    by (apply (pow2_shift 61 59); by vm_compute).
  fold u.
  (* the divisors *)
  assert (E12 : of_Z 12 = S754_finite false 6755399441055744 (-49)) by reflexivity.
  assert (E100 : of_Z 100 = S754_finite false 7036874417766400 (-46)) by reflexivity.
  assert (E1200 : (of_Z 12 * of_Z 100)%num = S754_finite false 5277655813324800 (-42))
    by reflexivity.
  assert (V12 : (magnitude 6755399441055744 (-49) == 12)%Q) by (by vm_compute).
  assert (V100 : (magnitude 7036874417766400 (-46) == 100)%Q) by (by vm_compute).
  assert (V1200 : (magnitude 5277655813324800 (-42) == 1200)%Q) by (by vm_compute).
  rewrite E1200, E12, E100.
  (* rate / (12 * 100) *)
  destruct (div_near m 5277655813324800 e (-42) (k - 10)) as (v2 & Hv2 & _ & Hnear2).
  { rewrite V1200, H10. fold R. lra. }
  { lia. }
  rewrite V1200, H61 in Hnear2. fold R in Hnear2.
  (* rate / 12 *)
  destruct (div_near m 6755399441055744 e (-49) (k - 3)) as (a & Ha & Ha0 & Hneara).
  { rewrite V12, H3. fold R. lra. }
  { lia. }
  rewrite V12, H54 in Hneara. fold R in Hneara.
  apply Qabs_le_iff in Hneara.
  assert (HR12 : (R / 12 == R / 1200 * 100)%Q) by (by field).
  assert (HR1 : (R / 12 * 12 == R)%Q) by (by field).
  destruct (S754_finite false m e / S754_finite false 6755399441055744 (-49))%num
    as [s| | |s m' e'] eqn:Hquot; try done.
  - (* the quotient underflows to zero *)
    cbn [value] in Ha. injection Ha as <-.
    exists 0%Q, v2. split; [done|]. split; [done|]. split; [|done].
    apply Qabs_le_iff. lra.
  - cbn [value] in Ha. injection Ha as <-.
    pose proof (magnitude_pos m' e') as Hpos.
    destruct s; [lra|].
    destruct (div_near m' 7036874417766400 e' (-46) (k - 9)) as (v1 & Hv1 & _ & Hnear1).
    { rewrite V100, H9. lra. }
    { lia. }
    rewrite V100, H60 in Hnear1.
    assert (Ha100 : (magnitude m' e' / 100 * 100 == magnitude m' e')%Q)
      by (by field).
    exists v1, v2. split; [done|]. split; [done|]. split; [|done].
    apply Qabs_le_iff in Hnear1. apply Qabs_le_iff. lra.
Qed.




End Calculators.

(** ** Requesting a loan *)

Section Request.
Import Num Borrower.
Variable trim : string -> string.

Lemma handleRequestLoan_updated (user : User.t) (loanData : LoanForm)
    (now : Z) (nowISO : string) (loans updatedLoans : list Loan.t) :
  handleRequestLoan trim user loanData now nowISO loans = Updated updatedLoans ->
  exists loan, updatedLoans = (loans ++ [loan])%list /\ Loan.id loan = now.
Proof.
  unfold handleRequestLoan.
  destruct (_ || _); [done|].
  destruct (is_empty (trim (form_aadhar loanData))); [done|].
  destruct (is_empty (trim (form_pan loanData))); [done|].
  destruct (is_empty (trim (form_address loanData))); [done|].
  intros [= <-]. by eexists.
Qed.

(** X1. [handleRequestLoan] refuses exactly when the amount or the duration
    is at most zero or one of Aadhar, PAN and address is blank after [trim].
    Otherwise it appends one loan to those it is given: Pending, without
    lender, with an empty schedule, with the borrower's id and the form's
    amount and duration.  An amount that is not a number is not refused. *)
Theorem handleRequestLoan_outcome (user : User.t) (loanData : LoanForm)
    (now : Z) (nowISO : string) (loans : list Loan.t) :
  let blank :=
    is_empty (trim (form_aadhar loanData))
    || is_empty (trim (form_pan loanData))
    || is_empty (trim (form_address loanData)) in
  let invalid :=
    (form_amount loanData <=? zero)%num || (form_duration loanData <=? zero)%num in
  (invalid || blank = true ->
   exists message,
     handleRequestLoan trim user loanData now nowISO loans = Refused message)
  /\ (invalid || blank = false ->
      exists loan,
        handleRequestLoan trim user loanData now nowISO loans
        = Updated (loans ++ [loan])
        /\ Loan.id loan = now
        /\ Loan.borrowerId loan = User.id user
        /\ Loan.status loan = Pending
        /\ Loan.lenderId loan = None
        /\ Loan.repayments loan = Some []
        /\ Loan.amount loan = form_amount loanData
        /\ Loan.duration loan = form_duration loanData)
  /\ (form_amount loanData = S754_nan ->
      (zero <? form_duration loanData)%num = true ->
      blank = false ->
      exists loan,
        handleRequestLoan trim user loanData now nowISO loans
        = Updated (loans ++ [loan])
        /\ Loan.amount loan = S754_nan).
Proof.
  intros blank invalid.
  assert (Hok : invalid || blank = false ->
      exists loan,
        handleRequestLoan trim user loanData now nowISO loans
        = Updated (loans ++ [loan])
        /\ Loan.id loan = now
        /\ Loan.borrowerId loan = User.id user
        /\ Loan.status loan = Pending
        /\ Loan.lenderId loan = None
        /\ Loan.repayments loan = Some []
        /\ Loan.amount loan = form_amount loanData
        /\ Loan.duration loan = form_duration loanData).
  { unfold invalid, blank. rewrite !orb_false_iff.
    intros [[Ha Hd] [[H1 H2] H3]]. unfold handleRequestLoan.
    rewrite Ha, Hd, H1, H2, H3. simpl. eexists. split; [done|]. done. }
  split; [|split; [done|]].
  - unfold invalid, blank, handleRequestLoan.
    destruct (_ <=? _)%num; [by eexists|].
    destruct (_ <=? _)%num; [by eexists|]. simpl.
    destruct (is_empty (trim (form_aadhar loanData))); [by eexists|].
    destruct (is_empty (trim (form_pan loanData))); [by eexists|].
    destruct (is_empty (trim (form_address loanData))); [by eexists|].
    done.
  - intros Hnan Hdur Hblank.
    destruct Hok as (loan & Heq & _ & _ & _ & _ & _ & Hamount & _).
    + unfold invalid. rewrite Hnan, (positive_not_leb _ Hdur), Hblank. done.
    + exists loan. split; [done|]. by rewrite Hamount.
Qed.

End Request.

(** ** Writing the borrower's list back *)

Section BorrowerStore.
Import Borrower.

Lemma find_by_id (loans : list Loan.t) (loan : Loan.t) :
  NoDup (Loan.id <$> loans) -> loan ∈ loans ->
  List.find (fun l => Loan.id l =? Loan.id loan) loans = Some loan.
Proof.
  induction loans as [|l loans IH]; intros Hnd Hin.
  - by apply elem_of_nil in Hin.
  - rewrite fmap_cons in Hnd. apply NoDup_cons in Hnd as [Hfresh Hnd].
    apply elem_of_cons in Hin as [->|Hin]; simpl.
    + by rewrite Z.eqb_refl.
    + destruct (Z.eqb_spec (Loan.id l) (Loan.id loan)) as [Heq|_].
      * exfalso. apply Hfresh. rewrite Heq. by apply list_elem_of_fmap_2.
      * by apply IH.
Qed.

Lemma find_app_l (f : Loan.t -> bool) (l1 l2 : list Loan.t) (x : Loan.t) :
  List.find f l1 = Some x -> List.find f (l1 ++ l2) = Some x.
Proof.
  induction l1 as [|a l1 IH]; simpl; [done|]. by destruct (f a).
Qed.

Lemma filter_ids_NoDup (f : Loan.t -> bool) (loans : list Loan.t) :
  NoDup (Loan.id <$> loans) -> NoDup (Loan.id <$> List.filter f loans).
Proof.
  induction loans as [|l loans IH]; [done|].
  rewrite fmap_cons. intros [Hfresh Hnd]%NoDup_cons. cbn [List.filter].
  destruct (f l); [|by apply IH].
  rewrite fmap_cons. apply NoDup_cons. split; [|by apply IH].
  intros Hin. apply Hfresh.
  apply list_elem_of_fmap in Hin as (x & -> & Hx).
  apply list_elem_of_In, filter_In in Hx as [Hx _].
  apply list_elem_of_fmap_2. by apply list_elem_of_In.
Qed.

Lemma existsb_id_false (i : Z) (loans : list Loan.t) :
  i ∉ Loan.id <$> loans ->
  existsb (fun loan => Loan.id loan =? i) loans = false.
Proof.
  induction loans as [|l loans IH]; [done|].
  rewrite fmap_cons, not_elem_of_cons. intros [Hne Hnot]. simpl.
  rewrite IH by done. by destruct (Z.eqb_spec (Loan.id l) i) as [Heq|_].
Qed.

(** X2. After the initial load, with the stored ids pairwise distinct and
    [Date.now()] not among them, a request that is not refused shows the
    new loan at the end of the borrower's list and stores it at the end of
    the stored collection, every stored loan staying as it is. *)
Theorem request_is_stored (trim : string -> string) (user : User.t)
    (loanData : LoanForm) (now : Z) (nowISO : string)
    (allLoans updatedLoans : list Loan.t) :
  NoDup (Loan.id <$> allLoans) ->
  now ∉ Loan.id <$> allLoans ->
  handleRequestLoan trim user loanData now nowISO (view (load user allLoans))
  = Updated updatedLoans ->
  exists newLoan,
    Loan.id newLoan = now
    /\ updateLoans user updatedLoans (load user allLoans)
       = {| view := view (load user allLoans) ++ [newLoan];
            stored := allLoans ++ [newLoan] |}.
Proof.
  intros Hnd Hfresh Hreq.
  apply handleRequestLoan_updated in Hreq as (newLoan & -> & Hid).
  exists newLoan. split; [done|].
  set (own := List.filter (fun loan => Loan.borrowerId loan =? User.id user) allLoans).
  assert (Hview : view (load user allLoans) = own) by reflexivity.
  rewrite Hview. unfold updateLoans, load. cbn [view stored]. fold own.
  assert (Hmerged :
    (fun loan : Loan.t =>
       if Loan.borrowerId loan =? User.id user
       then match List.find (fun l => Loan.id l =? Loan.id loan) (own ++ [newLoan]) with
            | Some l => l
            | None => loan
            end
       else loan) <$> allLoans = allLoans).
  { rewrite <- (list_fmap_id allLoans) at 2.
    apply list_fmap_ext. intros j loan Hj. simpl.
    destruct (Loan.borrowerId loan =? User.id user) eqn:Hmine; [|done].
    rewrite (find_app_l _ own [newLoan] loan); [done|].
    apply find_by_id; [by apply filter_ids_NoDup|].
    apply list_elem_of_In, filter_In. split; [|done].
    apply list_elem_of_In. by eapply list_elem_of_lookup_2. }
  rewrite Hmerged. f_equal. f_equal.
  rewrite List.filter_app. rewrite filter_none.
  - simpl. rewrite Hid, existsb_id_false by done. done.
  - apply List.Forall_forall. intros b Hb.
    apply filter_In in Hb as [Hb _]. apply negb_false_iff.
    apply existsb_exists. exists b. split; [done|]. apply Z.eqb_refl.
Qed.

(** The hypotheses of X2 for the sample borrower and an empty storage. *)
Lemma request_is_stored_witness :
  exists newLoan,
    Loan.id newLoan = 1700000000000
    /\ updateLoans Sample.borrower [Sample.fresh] (load Sample.borrower [])
       = {| view := [newLoan]; stored := [newLoan] |}.
Proof.
  assert (Hnd : NoDup (Loan.id <$> ([] : list Loan.t))) by apply NoDup_nil_2.
  assert (Hfresh : 1700000000000 ∉ Loan.id <$> ([] : list Loan.t))
    by apply not_elem_of_nil.
  assert (Hreq : handleRequestLoan Sample.trim Sample.borrower Sample.form
                   1700000000000 "2023-11-14T22:13:20.000Z"
                   (view (load Sample.borrower []))
                 = Updated [Sample.fresh]) by reflexivity.
  exact (request_is_stored Sample.trim Sample.borrower Sample.form 1700000000000
           "2023-11-14T22:13:20.000Z" [] [Sample.fresh] Hnd Hfresh Hreq).
Defined.

End BorrowerStore.

Section BorrowerMerge.
Import Borrower.

(** X3. The borrower's [updateLoans] never removes a stored loan and never
    moves one: at each position the id stays.  A stored loan of another
    borrower stays as it is; a stored loan of this borrower is overwritten
    by the first loan of the list with its id, whatever the storage held,
    and is kept where the list has none. *)
Theorem updateLoans_last_write_wins (user : User.t)
    (updatedBorrowerLoans : list Loan.t) (st : Store) :
  let st' := updateLoans user updatedBorrowerLoans st in
  view st' = updatedBorrowerLoans
  /\ (length (stored st) <= length (stored st'))%nat
  /\ forall (j : nat) (loan : Loan.t),
       stored st !! j = Some loan ->
       (Loan.borrowerId loan <> User.id user -> stored st' !! j = Some loan)
       /\ (Loan.borrowerId loan = User.id user ->
           forall u,
             List.find (fun l => Loan.id l =? Loan.id loan) updatedBorrowerLoans
             = Some u ->
             stored st' !! j = Some u)
       /\ (Loan.borrowerId loan = User.id user ->
           List.find (fun l => Loan.id l =? Loan.id loan) updatedBorrowerLoans
           = None ->
           stored st' !! j = Some loan)
       /\ exists loan', stored st' !! j = Some loan' /\ Loan.id loan' = Loan.id loan.
Proof.
  intros st'. split; [done|]. split.
  - unfold st', updateLoans. cbn [stored]. rewrite length_app, length_fmap. lia.
  - intros j loan Hj.
    assert (Hat : stored st' !! j
                  = Some (if Loan.borrowerId loan =? User.id user
                          then match List.find (fun l => Loan.id l =? Loan.id loan)
                                                updatedBorrowerLoans with
                               | Some l => l
                               | None => loan
                               end
                          else loan)).
    { unfold st', updateLoans. cbn [stored].
      rewrite lookup_app_l by (rewrite length_fmap; by eapply lookup_lt_Some).
      by rewrite list_lookup_fmap, Hj. }
    rewrite Hat. split; [|split; [|split]].
    + intros Hne. by destruct (Z.eqb_spec (Loan.borrowerId loan) (User.id user)).
    + intros -> u ->. by rewrite Z.eqb_refl.
    + intros -> ->. by rewrite Z.eqb_refl.
    + eexists. split; [done|]. apply merged_id.
Qed.

End BorrowerMerge.

(** ** Giving loans their schedule *)

Section Scheduling.
Import Num Borrower.

Lemma needsSchedule_iff (loan : Loan.t) :
  needsSchedule loan = true
  <-> (Loan.status loan = Approved \/ Loan.status loan = FundsDisbursed)
      /\ Loan.schedule loan = [].
Proof.
  unfold needsSchedule, Loan.schedule.
  rewrite andb_true_iff, orb_true_iff, !status_eqb_eq.
  destruct (Loan.repayments loan) as [[|r rs]|]; simpl; intuition congruence.
Qed.

Lemma withSchedule_shape (loan : Loan.t) :
  withSchedule loan
  = if needsSchedule loan
    then (fun repayments => Loan.with_repayments repayments loan)
         <$> generateEMISchedule (Loan.amount loan) (Loan.duration loan)
    else Some loan.
Proof.
  unfold withSchedule. destruct (needsSchedule loan); [|done].
  by destruct (generateEMISchedule _ _).
Qed.

Lemma withSchedule_again (loan : Loan.t) :
  withSchedule loan ≫= withSchedule = withSchedule loan.
Proof.
  rewrite (withSchedule_shape loan).
  destruct (needsSchedule loan) eqn:Hneeds.
  - destruct (generateEMISchedule (Loan.amount loan) (Loan.duration loan))
      as [repayments|] eqn:Hgen; [|done].
    cbn [fmap option_fmap option_map mbind option_bind].
    rewrite withSchedule_shape.
    destruct (needsSchedule (Loan.with_repayments repayments loan)); [|done].
    change (Loan.amount (Loan.with_repayments repayments loan)) with (Loan.amount loan).
    change (Loan.duration (Loan.with_repayments repayments loan))
      with (Loan.duration loan).
    by rewrite Hgen.
  - cbn [mbind option_bind]. by rewrite withSchedule_shape, Hneeds.
Qed.

Lemma mapM_withSchedule_id (loans : list Loan.t) :
  existsb needsSchedule loans = false -> mapM withSchedule loans = Some loans.
Proof.
  induction loans as [|loan loans IH]; [done|]. cbn [existsb].
  intros [Hloan Hrest]%orb_false_iff. cbn [mapM]. rewrite IH by done.
  by rewrite withSchedule_shape, Hloan.
Qed.

(** X4. The effect that creates schedules changes a loan only when it is
    Approved or Funds Disbursed and has no repayment entry: every other
    loan, so every loan with entries, is left as it is, paid flags
    included.  A loan it changes gets the schedule of its amount and
    duration, all entries unpaid, and keeps its id, status and lender;
    where that schedule throws, so does the effect.  Applying it again
    changes nothing more, and on the dashboard it maps over the whole
    list. *)
Theorem withSchedule_only_unscheduled (loan : Loan.t) :
  ((Loan.status loan <> Approved /\ Loan.status loan <> FundsDisbursed)
   \/ Loan.schedule loan <> [] ->
   withSchedule loan = Some loan)
  /\ ((Loan.status loan = Approved \/ Loan.status loan = FundsDisbursed) ->
      Loan.schedule loan = [] ->
      Loan.schedule <$> withSchedule loan
      = generateEMISchedule (Loan.amount loan) (Loan.duration loan)
      /\ forall scheduled : Loan.t,
           withSchedule loan = Some scheduled ->
           Forall (fun r => Repayment.paid r = false) (Loan.schedule scheduled))
  /\ (forall scheduled : Loan.t,
        withSchedule loan = Some scheduled ->
        Loan.id scheduled = Loan.id loan
        /\ Loan.status scheduled = Loan.status loan
        /\ Loan.lenderId scheduled = Loan.lenderId loan
        /\ Loan.amount scheduled = Loan.amount loan
        /\ Loan.duration scheduled = Loan.duration loan)
  /\ withSchedule loan ≫= withSchedule = withSchedule loan
  /\ (forall (user : User.t) (st : Store),
        view <$> ensureSchedules user st = mapM withSchedule (view st)).
Proof.
  split; [|split; [|split; [|split]]].
  - intros Hcase. rewrite withSchedule_shape.
    destruct (needsSchedule loan) eqn:Hneeds; [|done].
    apply needsSchedule_iff in Hneeds as [Hactive Hempty].
    destruct Hcase as [[H1 H2]|H3]; [destruct Hactive; done|done].
  - intros Hactive Hempty.
    assert (Hneeds : needsSchedule loan = true) by (by apply needsSchedule_iff).
    rewrite withSchedule_shape, Hneeds.
    destruct (generateEMISchedule (Loan.amount loan) (Loan.duration loan))
      as [repayments|] eqn:Hgen; [|done].
    split; [done|]. intros scheduled [= <-].
    by apply (schedule_unpaid (Loan.amount loan) (Loan.duration loan)).
  - intros scheduled. rewrite withSchedule_shape.
    destruct (needsSchedule loan); [|by intros [= <-]].
    destruct (generateEMISchedule _ _); [|done]. by intros [= <-].
  - apply withSchedule_again.
  - intros user st. unfold ensureSchedules.
    destruct (view st) as [|loan0 loans] eqn:Hview; [cbn; by rewrite Hview|].
    cbn [length Nat.eqb].
    destruct (existsb needsSchedule (loan0 :: loans)) eqn:Hany.
    + by destruct (mapM withSchedule (loan0 :: loans)).
    + rewrite mapM_withSchedule_id by done. cbn [fmap option_fmap option_map].
      by rewrite Hview.
Qed.

Lemma zero_over_truthy (m : number) :
  truthy m = true -> toFixed2 (zero / m)%num = Fixed2 false 0.
Proof. by destruct m as [[]|[]| |[] ? ?]. Qed.

Lemma or_one_truthy (n : number) : truthy (n || of_Z 1)%num = true.
Proof. by destruct n as [[]|[]| |[] ? ?]. Qed.

(** X5. The edges of [generateEMISchedule].  It returns a schedule
    exactly when the duration, or 1 in place of a zero or NaN duration,
    gives an array length below 2^32, and otherwise throws: so for the
    durations Infinity and 2^32.  A schedule that it returns has that
    length, so a negative duration gives no entry at all; and with a
    principal that is zero or NaN every amount is "0.00", whatever the
    duration. *)
Theorem generateEMISchedule_edges (amount duration : number) :
  (generateEMISchedule amount duration = None
   <-> 2 ^ 32 <= ToLength (duration || of_Z 1)%num)
  /\ (forall entries : list Repayment.t,
        generateEMISchedule amount duration = Some entries ->
        length entries = Z.to_nat (ToLength (duration || of_Z 1)%num)
        /\ (truthy amount = false ->
            Forall (fun r => Repayment.amount r = Fixed2 false 0) entries))
  /\ ((duration <? zero)%num = true -> generateEMISchedule amount duration = Some [])
  /\ generateEMISchedule amount S754_nan = generateEMISchedule amount (of_Z 1)
  /\ generateEMISchedule amount (S754_infinity false) = None
  /\ generateEMISchedule amount (of_Z (2 ^ 32)) = None
  /\ (exists entry : Repayment.t,
        generateEMISchedule amount (of_Z 1) = Some [entry])
  /\ show_fixed2 false 0 = "0.00".
Proof.
  split; [|split; [|split; [|split; [done|split; [done|split; [done|split]]]]]].
  - rewrite schedule_shape. destruct (Z.leb_spec (2 ^ 32) (ToLength (duration || of_Z 1)%num)).
    + done.
    + split; [done|lia].
  - intros entries Hgen. split; [by apply (schedule_length amount)|].
    intros Hfalsy. eapply Forall_impl; [by apply schedule_amounts|].
    intros r ->. unfold or_else at 1. rewrite Hfalsy.
    apply zero_over_truthy, or_one_truthy.
  - intros Hneg. rewrite schedule_shape.
    assert (Hlen : ToLength (duration || of_Z 1)%num = 0)
      by (by destruct duration as [[]|[]| |[] ? ?]).
    by rewrite Hlen.
  - by eexists.
  - reflexivity.
Qed.

End Scheduling.

(** ** Paying a schedule off *)

Section PayingOff.
Import Borrower.

Lemma all_paid_unpaid (rs : list Repayment.t) :
  Forall (fun r => Repayment.paid r = false) rs ->
  Loan.all_paid rs = match rs with [] => true | _ => false end.
Proof. destruct 1 as [|r rs Hr _]; [done|]. unfold Loan.all_paid. simpl. by rewrite Hr. Qed.

Lemma all_paid_marked (rs rest : list Repayment.t) :
  Loan.all_paid ((Repayment.mark_paid <$> rs) ++ rest)%list = Loan.all_paid rest.
Proof.
  unfold Loan.all_paid. rewrite forallb_app.
  assert (Hpaid : forallb Repayment.paid (Repayment.mark_paid <$> rs) = true).
  { induction rs as [|r rs IH]; [done|]. by rewrite fmap_cons. }
  by rewrite Hpaid.
Qed.

(** Paying the entries 0, .., j-1 in turn. *)
Lemma pay_first (loan : Loan.t) (j : nat) :
  Forall (fun r => Repayment.paid r = false) (Loan.schedule loan) ->
  (j <= length (Loan.schedule loan))%nat ->
  let paid := fold_left (fun l i => repay i l) (seq 0 j) loan in
  Loan.schedule paid
  = ((Repayment.mark_paid <$> take j (Loan.schedule loan))
     ++ drop j (Loan.schedule loan))%list
  /\ Loan.status paid
     = (if (0 <? j)%nat && (j =? length (Loan.schedule loan))%nat
        then Completed else Loan.status loan).
Proof.
  intros Hunpaid. induction j as [|j IH]; intros Hj paid.
  - unfold paid. simpl. by rewrite drop_0.
  - unfold paid. rewrite seq_S, fold_left_app. cbn [fold_left Nat.add].
    destruct IH as [Hsched Hstatus]; [lia|].
    set (before := fold_left (fun l i => repay i l) (seq 0 j) loan) in *.
    set (rs := Loan.schedule loan) in *.
    destruct (lookup_lt_is_Some_2 rs j ltac:(lia)) as [r Hr].
    assert (Hrpaid : Repayment.paid r = false).
    { exact (Forall_lookup_1 _ _ _ _ Hunpaid Hr). }
    assert (Hlenj : length (Repayment.mark_paid <$> take j rs) = j)
      by (rewrite length_fmap, length_take; lia).
    assert (Hat : Loan.schedule before !! j = Some r).
    { rewrite Hsched, lookup_app_r by lia.
      rewrite Hlenj, Nat.sub_diag, lookup_drop, Nat.add_0_r. done. }
    assert (Hnext : <[j := Repayment.mark_paid r]> (Loan.schedule before)
                    = ((Repayment.mark_paid <$> take (S j) rs) ++ drop (S j) rs)%list).
    { rewrite Hsched, insert_app_r_alt by lia.
      rewrite Hlenj, Nat.sub_diag, (drop_S rs r j Hr). simpl.
      rewrite (take_S_r rs j r Hr), fmap_app, <- app_assoc. done. }
    rewrite (repay_unpaid j before r Hat Hrpaid). cbv zeta.
    rewrite schedule_with_repayments, Hnext. split; [done|].
    cbn [Loan.status Loan.with_status]. rewrite all_paid_marked.
    rewrite all_paid_unpaid by (by apply Forall_drop).
    change (Loan.status (Loan.with_repayments _ before)) with (Loan.status before).
    rewrite Hstatus.
    destruct (drop (S j) rs) as [|r' rest] eqn:Hdrop.
    + assert (S j = length rs).
      { apply (f_equal length) in Hdrop. rewrite length_drop in Hdrop. simpl in Hdrop. lia. }
      by rewrite (proj2 (Nat.eqb_eq _ _) H).
    + assert (S j <> length rs).
      { intros Heq. rewrite Heq, drop_all in Hdrop. done. }
      rewrite (proj2 (Nat.eqb_neq _ _) H), andb_false_r.
      assert (j <> length rs) by lia.
      by rewrite (proj2 (Nat.eqb_neq _ _) H0), andb_false_r.
Qed.

(** X6. On a loan whose schedule has [k >= 1] entries, none paid, paying
    the entries in turn leaves the status as it was as long as fewer than
    [k] are paid and makes the loan Completed with the [k]-th payment,
    with every entry paid and every amount as it was. *)
Theorem paying_all_completes (loan : Loan.t) (k : nat) :
  length (Loan.schedule loan) = k ->
  (1 <= k)%nat ->
  Forall (fun r => Repayment.paid r = false) (Loan.schedule loan) ->
  (forall j : nat,
      (j < k)%nat ->
      Loan.status (fold_left (fun l i => repay i l) (seq 0 j) loan)
      = Loan.status loan)
  /\ Loan.status (fold_left (fun l i => repay i l) (seq 0 k) loan) = Completed
  /\ Loan.all_paid
       (Loan.schedule (fold_left (fun l i => repay i l) (seq 0 k) loan)) = true
  /\ Repayment.amount
     <$> Loan.schedule (fold_left (fun l i => repay i l) (seq 0 k) loan)
     = Repayment.amount <$> Loan.schedule loan.
Proof.
  intros Hlen Hk Hunpaid. split; [|split; [|split]].
  - intros j Hj.
    destruct (pay_first loan j Hunpaid ltac:(lia)) as [_ ->].
    rewrite Hlen. by rewrite (proj2 (Nat.eqb_neq j k)), andb_false_r by lia.
  - destruct (pay_first loan k Hunpaid ltac:(lia)) as [_ ->].
    rewrite Hlen, Nat.eqb_refl. by destruct k; [lia|].
  - destruct (pay_first loan k Hunpaid ltac:(lia)) as [-> _].
    rewrite all_paid_marked, <- Hlen, drop_all. done.
  - destruct (pay_first loan k Hunpaid ltac:(lia)) as [-> _].
    rewrite <- Hlen, drop_all, app_nil_r, firstn_all, <- list_fmap_compose.
    by apply list_fmap_ext.
Qed.

(** The hypotheses of X6 for a disbursed loan with two unpaid entries. *)
Lemma paying_all_completes_witness :
  Loan.status
    (fold_left (fun l i => repay i l) (seq 0 2)
       (Sample.later FundsDisbursed [Sample.entry 1 false; Sample.entry 2 false]))
  = Completed.
Proof.
  pose (loan := Sample.later FundsDisbursed [Sample.entry 1 false; Sample.entry 2 false]).
  assert (Hlen : length (Loan.schedule loan) = 2%nat) by reflexivity.
  assert (Hk : (1 <= 2)%nat) by lia.
  assert (Hunpaid : Forall (fun r => Repayment.paid r = false) (Loan.schedule loan))
    by (repeat constructor).
  exact (proj1 (proj2 (paying_all_completes loan 2 Hlen Hk Hunpaid))).
Defined.

End PayingOff.

(** ** Counting EMIs *)

Section Counting.
Import Borrower Counters.

Lemma fold_left_count (f : Loan.t -> nat) (loans : list Loan.t) (a : nat) :
  fold_left (fun sum l => (sum + f l)%nat) loans a
  = (a + fold_right (fun l sum => (f l + sum)%nat) 0%nat loans)%nat.
Proof.
  revert a. induction loans as [|l loans IH]; intros a; simpl; [lia|].
  rewrite IH. lia.
Qed.

Lemma paid_count_insert (rs : list Repayment.t) (i : nat) (r : Repayment.t) :
  rs !! i = Some r -> Repayment.paid r = false ->
  length (List.filter Repayment.paid (<[i := Repayment.mark_paid r]> rs))
  = S (length (List.filter Repayment.paid rs)).
Proof.
  intros Hi Hr.
  rewrite insert_take_drop by (by eapply lookup_lt_Some).
  rewrite <- (take_drop_middle rs i r Hi) at 3.
  rewrite !List.filter_app, !length_app. simpl. rewrite Hr. simpl. lia.
Qed.

Lemma paid_count_le (rs : list Repayment.t) :
  (length (List.filter Repayment.paid rs) <= length rs)%nat.
Proof.
  induction rs as [|r rs IH]; simpl; [lia|]. destruct (Repayment.paid r); simpl; lia.
Qed.

Lemma repay_counts (index : nat) (loan : Loan.t) :
  length (Loan.schedule (repay index loan)) = length (Loan.schedule loan)
  /\ length (List.filter Repayment.paid (Loan.schedule (repay index loan)))
     = (length (List.filter Repayment.paid (Loan.schedule loan))
        + (if match Loan.schedule loan !! index with
              | Some r => negb (Repayment.paid r)
              | None => false
              end then 1 else 0))%nat.
Proof.
  destruct (Loan.schedule loan !! index) as [r|] eqn:Hix.
  - destruct (Repayment.paid r) eqn:Hr; simpl.
    + rewrite (repay_paid index loan r Hix Hr). lia.
    + rewrite (repay_unpaid index loan r Hix Hr). cbv zeta.
      rewrite schedule_with_repayments, length_insert.
      rewrite (paid_count_insert _ _ _ Hix Hr). lia.
  - rewrite (repay_missing index loan Hix). simpl. lia.
Qed.

(** X7. Recording a payment never changes the number of EMIs that the
    borrower's counter shows, and raises the number of paid EMIs by one for
    each loan with the id that has an unpaid repayment at the index, so by
    nothing where there is none; the paid ones are never more than all. *)
Theorem repayment_counters (loanId : Z) (index : nat) (loans : list Loan.t) :
  totalEmiCount (repaidLoans loanId index loans) = totalEmiCount loans
  /\ paidEmiCount (repaidLoans loanId index loans)
     = Nat.add (paidEmiCount loans)
         (length
            (List.filter
               (fun l => (Loan.id l =? loanId)
                         && match Loan.schedule l !! index with
                            | Some r => negb (Repayment.paid r)
                            | None => false
                            end)
               loans))
  /\ (paidEmiCount loans <= totalEmiCount loans)%nat.
Proof.
  unfold totalEmiCount, paidEmiCount. rewrite !fold_left_count. simpl.
  induction loans as [|l loans (IH1 & IH2 & IH3)]; [done|].
  unfold repaidLoans in *. rewrite fmap_cons. cbn [fold_right List.filter].
  destruct (repay_counts index l) as [Hlen Hpaid].
  pose proof (paid_count_le (Loan.schedule l)) as Hle.
  destruct (Loan.id l =? loanId); cbn [negb andb].
  - rewrite Hlen, Hpaid, IH1, IH2.
    destruct (match Loan.schedule l !! index with
              | Some r => negb (Repayment.paid r)
              | None => false
              end); cbn [length]; lia.
  - rewrite IH1, IH2. lia.
Qed.

End Counting.

(** ** Editing and deleting loans *)

Section Editing.
Import Num Admin.
Variable trim : string -> string.

Lemma handleSaveLoan_updated (editingLoan : EditingLoan) (loanId : Z)
    (loans updated : list Loan.t) :
  handleSaveLoan trim editingLoan loanId loans = Updated updated ->
  updated
  = (fun loan =>
       if Loan.id loan =? loanId
       then Loan.with_edit (edit_amount editingLoan) (edit_duration editingLoan)
              (trim (edit_purpose editingLoan))
              (match edit_status editingLoan with
               | Some s => s
               | None => Loan.status loan
               end) loan
       else loan) <$> loans.
Proof. unfold handleSaveLoan. destruct (_ || _); [done|]. by intros [= <-]. Qed.

(** X8. [handleSaveLoan] refuses exactly when the amount or the duration
    of the form is at most zero.  Otherwise, at each position the loan
    keeps its id, borrower, lender and repayment entries, also when the
    duration or the amount changes; a loan with another id stays as it
    is; and saving the form that [startEditLoan] filled, on a purpose that
    [trim] leaves as it is, changes nothing. *)
Theorem handleSaveLoan_keeps_schedule (editingLoan : EditingLoan) (loanId : Z)
    (loans : list Loan.t) :
  ((edit_amount editingLoan <=? zero)%num || (edit_duration editingLoan <=? zero)%num
   = true ->
   exists message, handleSaveLoan trim editingLoan loanId loans = Refused message)
  /\ ((edit_amount editingLoan <=? zero)%num || (edit_duration editingLoan <=? zero)%num
      = false ->
      exists updated,
        handleSaveLoan trim editingLoan loanId loans = Updated updated
        /\ forall (j : nat) (loan : Loan.t),
             loans !! j = Some loan ->
             exists loan',
               updated !! j = Some loan'
               /\ Loan.id loan' = Loan.id loan
               /\ Loan.borrowerId loan' = Loan.borrowerId loan
               /\ Loan.lenderId loan' = Loan.lenderId loan
               /\ Loan.repayments loan' = Loan.repayments loan
               /\ (Loan.id loan <> loanId -> loan' = loan)
               /\ (editingLoan = startEditLoan loan ->
                   trim (Loan.purpose loan) = Loan.purpose loan ->
                   loan' = loan)).
Proof.
  split.
  - intros Hbad. unfold handleSaveLoan. rewrite Hbad. by eexists.
  - intros Hok. unfold handleSaveLoan. rewrite Hok. eexists. split; [done|].
    intros j loan Hj. rewrite list_lookup_fmap, Hj. simpl.
    eexists. split; [done|].
    destruct (Z.eqb_spec (Loan.id loan) loanId) as [Heq|Hne]; simpl.
    + repeat split; try done. intros -> Htrim. simpl. rewrite Htrim.
      by destruct loan.
    + repeat split; done.
Qed.

End Editing.

Section Deleting.
Import Admin AdminLoans.

(** X9. [handleDeleteLoan] removes the loans with the id and no other: a
    loan is in the result exactly when it was there with another id, the
    others keep their order, and deleting an id that no loan has, or
    deleting twice, changes nothing more.  Deleting commutes with approving
    and with rejecting. *)
Theorem handleDeleteLoan_removes (loanId : Z) (loans : list Loan.t) :
  (forall loan : Loan.t,
      loan ∈ handleDeleteLoan loanId loans
      <-> loan ∈ loans /\ Loan.id loan <> loanId)
  /\ sublist (handleDeleteLoan loanId loans) loans
  /\ ((forall loan, loan ∈ loans -> Loan.id loan <> loanId) ->
      handleDeleteLoan loanId loans = loans)
  /\ handleDeleteLoan loanId (handleDeleteLoan loanId loans)
     = handleDeleteLoan loanId loans
  /\ (forall id : Z,
        handleDeleteLoan loanId (handleApprove id loans)
        = handleApprove id (handleDeleteLoan loanId loans)
        /\ handleDeleteLoan loanId (handleReject id loans)
           = handleReject id (handleDeleteLoan loanId loans)).
Proof.
  unfold handleDeleteLoan.
  assert (Hcomm : forall (f : Loan.t -> Loan.t) (ls : list Loan.t),
             (forall l, Loan.id (f l) = Loan.id l) ->
             List.filter (fun l => negb (Loan.id l =? loanId)) (f <$> ls)
             = f <$> List.filter (fun l => negb (Loan.id l =? loanId)) ls).
  { intros f ls Hf. induction ls as [|l ls IH]; [done|].
    rewrite fmap_cons. cbn [List.filter]. rewrite Hf, IH.
    by destruct (negb (Loan.id l =? loanId)). }
  split; [|split; [|split; [|split]]].
  - intros loan. rewrite !list_elem_of_In, filter_In, negb_true_iff, Z.eqb_neq.
    done.
  - induction loans as [|l loans IH]; [constructor|]. cbn [List.filter].
    destruct (negb (Loan.id l =? loanId)); by constructor.
  - intros Hnone. induction loans as [|l loans IH]; [done|]. cbn [List.filter].
    rewrite (proj2 (Z.eqb_neq _ _) (Hnone l ltac:(left))). simpl.
    rewrite IH; [done|]. intros loan Hin. apply Hnone. by right.
  - induction loans as [|l loans IH]; [done|]. cbn [List.filter].
    destruct (negb (Loan.id l =? loanId)) eqn:Hl; [|done].
    cbn [List.filter]. by rewrite Hl, IH.
  - intros id. unfold handleApprove, handleReject.
    split; apply Hcomm; intros l; by destruct (Loan.id l =? id).
Qed.

End Deleting.

(** ** Counting and filtering by status *)

Section ByStatus.
Import AdminLoans.

Lemma count_cons (s : Status) (l : Loan.t) (loans : list Loan.t) :
  count s (l :: loans)
  = ((if status_eqb (Loan.status l) s then 1 else 0) + count s loans)%nat.
Proof. unfold count. simpl. by destruct (status_eqb _ _). Qed.

Lemma count_partition (loans : list Loan.t) :
  (count Pending loans + count Approved loans + count Assigned loans
   + count FundsDisbursed loans + count Completed loans + count Rejected loans
   = length loans)%nat.
Proof.
  induction loans as [|l loans IH]; [done|].
  rewrite !count_cons. cbn [length]. destruct (Loan.status l); simpl; lia.
Qed.

Lemma filter_sublist (f : Loan.t -> bool) (loans : list Loan.t) :
  sublist (List.filter f loans) loans.
Proof.
  induction loans as [|l loans IH]; [constructor|]. simpl.
  destruct (f l); by constructor.
Qed.

(** X10. The five counters of the admin's header cards leave out the
    loans that are Assigned: together with their number they add up to the
    number of loans. *)
Theorem stats_leave_out_assigned (loans : list Loan.t) :
  (pendingCount (stats loans) + approvedCount (stats loans)
   + rejectedCount (stats loans) + disbursedCount (stats loans)
   + completedCount (stats loans) + count Assigned loans
   = totalLoans (stats loans))%nat.
Proof. pose proof (count_partition loans). simpl. lia. Qed.

(** X11. Every filter of the admin's loan table keeps the order of the
    loans and drops some; the filters pending, active, completed and
    rejected split the loans between them, each loan falling under exactly
    one; the approved loans are among the active ones; and a filter with an
    unknown name shows all loans, as "all" does. *)
Theorem filteredLoans_split (loans : list Loan.t) :
  (forall filterStatus : string, sublist (filteredLoans filterStatus loans) loans)
  /\ (length (filteredLoans "pending" loans) + length (filteredLoans "active" loans)
      + length (filteredLoans "completed" loans)
      + length (filteredLoans "rejected" loans)
      = length loans)%nat
  /\ sublist (filteredLoans "approved" loans) (filteredLoans "active" loans)
  /\ filteredLoans "all" loans = loans
  /\ (forall filterStatus : string,
        filterStatus ∉ ["all"; "pending"; "approved"; "completed"; "rejected"; "active"] ->
        filteredLoans filterStatus loans = loans).
Proof.
  split; [|split; [|split; [|split]]].
  - intros filterStatus. unfold filteredLoans.
    repeat (destruct (String.eqb filterStatus _); [done || apply filter_sublist|]).
    done.
  - cbn [filteredLoans String.eqb Ascii.eqb Bool.eqb].
    induction loans as [|l loans IH]; [done|]. cbn [List.filter].
    destruct (Loan.status l); simpl in *; lia.
  - cbn [filteredLoans String.eqb Ascii.eqb Bool.eqb].
    induction loans as [|l loans IH]; [constructor|]. cbn [List.filter].
    destruct (Loan.status l); simpl; try done; by constructor.
  - reflexivity.
  - intros filterStatus Hnot. unfold filteredLoans.
    repeat match goal with
           | |- context [String.eqb filterStatus ?name] =>
               destruct (String.eqb_spec filterStatus name) as [->|_];
               [exfalso; apply Hnot; set_solver|]
           end.
    done.
Qed.

(** X12. In the analyst's pie chart the Funds Disbursed loans are counted
    twice, under "Approved / Active" and under "Funds Disbursed", and the
    Assigned loans not at all: the slices add up to the number of loans
    plus the Funds Disbursed ones minus the Assigned ones. *)
Theorem statusData_counts_disbursed_twice (loans : list Loan.t) :
  (fold_right Nat.add 0 (snd <$> Analyst.statusData loans) + count Assigned loans
   = Analyst.totalLoans (Analyst.metrics loans) + count FundsDisbursed loans)%nat
  /\ Analyst.activeLoans (Analyst.metrics loans)
     = (count Approved loans + count FundsDisbursed loans)%nat.
Proof. pose proof (count_partition loans). split; [simpl; lia|done]. Qed.

End ByStatus.

(** ** The amount per borrower *)

Section PerBorrower.
Import Num Analyst.

Lemma map_get_set (k k' : string) (v : number) (m : list (string * number)) :
  map_get k' (map_set k v m) = if String.eqb k k' then Some v else map_get k' m.
Proof.
  induction m as [|[k0 v0] m IH]; simpl.
  - done.
  - destruct (String.eqb_spec k0 k) as [->|Hne]; simpl.
    + by destruct (String.eqb k k').
    + rewrite IH. destruct (String.eqb_spec k0 k') as [->|_]; [|done].
      by rewrite (proj2 (String.eqb_neq _ _)) by congruence.
Qed.

Lemma map_set_keys (k : string) (v : number) (m : list (string * number)) :
  NoDup (fst <$> m) ->
  NoDup (fst <$> map_set k v m)
  /\ forall k', k' ∈ fst <$> map_set k v m <-> k' = k \/ k' ∈ fst <$> m.
Proof.
  induction m as [|[k0 v0] m IH]; cbn [map_set].
  - intros _. change (fst <$> [(k, v)]) with [k].
    split; [apply NoDup_singleton|]. intros k'. set_solver.
  - rewrite fmap_cons. cbn [fst]. intros [Hfresh Hnd]%NoDup_cons.
    destruct (String.eqb_spec k0 k) as [->|Hne]; rewrite fmap_cons; cbn [fst].
    + split; [by apply NoDup_cons|]. intros k'. rewrite !elem_of_cons. tauto.
    + destruct (IH Hnd) as [Hnd' Hkeys]. split.
      * apply NoDup_cons. split; [|done]. rewrite Hkeys. intros [Heq|Hin]; done.
      * intros k'. rewrite !elem_of_cons, Hkeys. tauto.
Qed.

(** The step of [borrowerData] on the amount kept for a name. *)
Lemma borrowerData_from (loans : list Loan.t) (m : list (string * number)) :
  let step := fun (map : list (string * number)) (l : Loan.t) =>
    map_set (key l)
      ((match map_get (key l) map with
        | Some v => (v || zero)%num
        | None => zero
        end) + (Loan.amount l || zero))%num map in
  NoDup (fst <$> m) ->
  NoDup (fst <$> fold_left step loans m)
  /\ (forall name,
        name ∈ fst <$> fold_left step loans m
        <-> name ∈ fst <$> m \/ exists l, l ∈ loans /\ key l = name)
  /\ (forall name,
        map_get name (fold_left step loans m)
        = fold_left
            (fun (current : option number) (l : Loan.t) =>
               Some ((match current with
                      | Some v => (v || zero)%num
                      | None => zero
                      end) + (Loan.amount l || zero))%num)
            (List.filter (fun l => String.eqb (key l) name) loans)
            (map_get name m)).
Proof.
  intros step. revert m. induction loans as [|l loans IH]; intros m Hnd.
  - simpl. split; [done|]. split; [|done]. intros name. split; [by left|].
    intros [Hin|(l & Hl & _)]; [done|]. by apply elem_of_nil in Hl.
  - cbn [fold_left].
    destruct (map_set_keys (key l)
                ((match map_get (key l) m with
                  | Some v => (v || zero)%num
                  | None => zero
                  end) + (Loan.amount l || zero))%num m Hnd) as [Hnd' Hkeys].
    destruct (IH (step m l) Hnd') as (IH1 & IH2 & IH3).
    split; [done|]. split.
    + intros name. rewrite IH2. unfold step at 1. rewrite Hkeys. split.
      * intros [[->|Hin]|(l' & Hl' & Hkey)].
        -- right. exists l. split; [by left|done].
        -- by left.
        -- right. exists l'. split; [by right|done].
      * intros [Hin|(l' & Hl' & Hkey)]; [by left; right|].
        apply elem_of_cons in Hl' as [->|Hl'].
        -- left. by left.
        -- right. by exists l'.
    + intros name. rewrite IH3. unfold step at 1. rewrite map_get_set.
      cbn [List.filter].
      destruct (String.eqb_spec (key l) name) as [<-|Hne]; [done|done].
Qed.

(** X13. [borrowerData] has one entry per borrower name, a loan with an
    empty name falling under "Unknown"; the names are those of the loans,
    none twice; and the amount of a name is the sum, taken in the order of
    the list, of the amounts of the loans with that name, where an amount
    that is zero or NaN counts as zero and a running sum that is zero or
    NaN starts again from zero. *)
Theorem borrowerData_groups (loans : list Loan.t) :
  NoDup (fst <$> borrowerData loans)
  /\ (forall name,
        name ∈ fst <$> borrowerData loans <-> exists l, l ∈ loans /\ key l = name)
  /\ (forall l, key l <> "")
  /\ (forall name,
        map_get name (borrowerData loans)
        = fold_left
            (fun (current : option number) (l : Loan.t) =>
               Some ((match current with
                      | Some v => (v || zero)%num
                      | None => zero
                      end) + (Loan.amount l || zero))%num)
            (List.filter (fun l => String.eqb (key l) name) loans)
            None).
Proof.
  destruct (borrowerData_from loans [] (NoDup_nil_2)) as (H1 & H2 & H3).
  split; [exact H1|]. split; [|split; [|exact H3]].
  - intros name. unfold borrowerData. rewrite H2. split; [|by right].
    intros [Hin|Hex]; [|done]. by apply elem_of_nil in Hin.
  - intros l. unfold key. by destruct (Loan.borrowerName l).
Qed.

End PerBorrower.

(** ** The users *)

Lemma find_email (e : string) (users : list Account.t) :
  List.find (fun u => String.eqb (Account.email u) e) users = None
  <-> e ∉ Account.email <$> users.
Proof.
  induction users as [|u users IH]; cbn [List.find].
  - split; [intros _; apply not_elem_of_nil|done].
  - rewrite fmap_cons, not_elem_of_cons, <- IH.
    destruct (String.eqb_spec (Account.email u) e) as [->|Hne]; split;
      try done; try tauto.
Qed.

Section Users.
Import AdminUsers.
Variable trim : string -> string.
Variable toLowerCase : string -> string.

(** X14. [handleAddUser] refuses an email that, trimmed and in lower case,
    a stored user has already, and otherwise appends one user with that
    email, the id [Date.now()] and the name, password and role of the form
    as they are; so if no two stored users shared an email, none do
    afterwards. *)
Theorem handleAddUser_keeps_emails_distinct (newUser : NewUser) (now : Z)
    (existing : list Account.t) :
  let email := toLowerCase (trim (new_email newUser)) in
  (email ∈ Account.email <$> existing ->
   handleAddUser trim toLowerCase newUser now existing = Refused "User already exists!")
  /\ (email ∉ Account.email <$> existing ->
      exists user,
        handleAddUser trim toLowerCase newUser now existing
        = Updated (existing ++ [user])
        /\ Account.id user = now
        /\ Account.email user = email
        /\ Account.name user = new_name newUser
        /\ Account.password user = new_password newUser
        /\ Account.role user = new_role newUser)
  /\ (NoDup (Account.email <$> existing) ->
      forall users,
        handleAddUser trim toLowerCase newUser now existing = Updated users ->
        NoDup (Account.email <$> users)).
Proof.
  intros email. unfold handleAddUser. fold email.
  destruct (List.find _ existing) as [u|] eqn:Hfind.
  - assert (Hin : email ∈ Account.email <$> existing).
    { apply find_some in Hfind as [Hin Heq].
      apply String.eqb_eq in Heq as <-.
      by apply list_elem_of_fmap_2, list_elem_of_In. }
    split; [done|]. split; [done|]. done.
  - apply find_email in Hfind. split; [done|]. split.
    + intros _. eexists. split; [done|]. done.
    + intros Hnd users [= <-]. rewrite fmap_app. apply NoDup_app.
      split; [done|]. split; [|apply NoDup_singleton].
      intros e He [->|[]%elem_of_nil]%elem_of_cons. done.
Qed.

Lemma saved_emails (userId : Z) (n e r : string) (users : list Account.t) :
  NoDup (Account.id <$> users) ->
  NoDup (Account.email <$> users) ->
  (forall u, u ∈ users -> Account.id u <> userId -> Account.email u <> e) ->
  NoDup (Account.email
         <$> ((fun u => if Account.id u =? userId
                        then Account.with_profile n e r u else u) <$> users)).
Proof.
  induction users as [|u users IH]; [done|].
  rewrite !fmap_cons. intros [Hid Hids]%NoDup_cons [Hemail Hemails]%NoDup_cons Hother.
  apply NoDup_cons. split.
  - intros Hin. apply list_elem_of_fmap in Hin as (v' & Hv' & Hin).
    apply list_elem_of_fmap in Hin as (v & -> & Hv).
    assert (Hvu : Account.id v <> Account.id u).
    { intros Heq. apply Hid. rewrite <- Heq. by apply list_elem_of_fmap_2. }
    destruct (Z.eqb_spec (Account.id u) userId) as [Hu|Hu];
    destruct (Z.eqb_spec (Account.id v) userId) as [Hv0|Hv0]; simpl in Hv'.
    + congruence.
    + apply (Hother v); [by right|done|done].
    + apply (Hother u); [by left|done|done].
    + apply Hemail. rewrite Hv'. by apply list_elem_of_fmap_2.
  - apply IH; [done|done|]. intros v Hv. apply Hother. by right.
Qed.

(** X15. [handleSaveUser] refuses a blank name, a blank email and an email
    that a user with another id has.  Otherwise it rewrites name, email and
    role of the users with the id and leaves ids and passwords as they
    are; with the ids pairwise distinct and no email shared before, no
    email is shared afterwards. *)
Theorem handleSaveUser_keeps_emails_distinct (editingUser : EditingUser)
    (userId : Z) (users updated : list Account.t) :
  NoDup (Account.id <$> users) ->
  NoDup (Account.email <$> users) ->
  handleSaveUser trim toLowerCase editingUser userId users = Updated updated ->
  NoDup (Account.email <$> updated)
  /\ Account.id <$> updated = Account.id <$> users
  /\ Account.password <$> updated = Account.password <$> users
  /\ trim (edit_name editingUser) <> ""
  /\ toLowerCase (trim (edit_email editingUser)) <> ""
  /\ (forall u, u ∈ users -> Account.id u <> userId ->
        Account.email u <> toLowerCase (trim (edit_email editingUser)))
  /\ (forall (j : nat) (u : Account.t),
        users !! j = Some u ->
        updated !! j
        = Some (if Account.id u =? userId
                then Account.with_profile (trim (edit_name editingUser))
                       (toLowerCase (trim (edit_email editingUser)))
                       (edit_role editingUser) u
                else u)).
Proof.
  intros Hids Hemails. unfold handleSaveUser.
  destruct (is_empty (trim (edit_name editingUser))) eqn:Hname; [done|].
  destruct (is_empty (toLowerCase (trim (edit_email editingUser)))) eqn:Hmail; [done|].
  destruct (existsb _ users) eqn:Hother; [done|]. intros [= <-].
  assert (Hnone : forall u, u ∈ users -> Account.id u <> userId ->
            Account.email u <> toLowerCase (trim (edit_email editingUser))).
  { intros u Hu Hne Heq.
    assert (Hex : existsb
              (fun u => negb (Account.id u =? userId)
                        && String.eqb (Account.email u)
                             (toLowerCase (trim (edit_email editingUser))))
              users = true).
    { apply existsb_exists. exists u. split; [by apply list_elem_of_In|].
      rewrite (proj2 (Z.eqb_neq _ _) Hne), Heq, String.eqb_refl. done. }
    congruence. }
  split; [by apply saved_emails|]. split; [|split; [|split; [|split; [|split]]]].
  - rewrite <- list_fmap_compose. apply list_fmap_ext. intros j u _. simpl.
    by destruct (Account.id u =? userId).
  - rewrite <- list_fmap_compose. apply list_fmap_ext. intros j u _. simpl.
    by destruct (Account.id u =? userId).
  - intros Heq. by rewrite Heq in Hname.
  - intros Heq. by rewrite Heq in Hmail.
  - done.
  - intros j u Hj. by rewrite list_lookup_fmap, Hj.
Qed.

End Users.

(** The hypotheses of X15 for the sample users and a new email for the
    lender. *)
Lemma handleSaveUser_keeps_emails_distinct_witness :
  exists updated,
    AdminUsers.handleSaveUser SampleUsers.trim SampleUsers.toLowerCase
      SampleUsers.edit 2 SampleUsers.users = AdminUsers.Updated updated
    /\ NoDup (Account.email <$> updated).
Proof.
  assert (Hids : NoDup (Account.id <$> SampleUsers.users)).
  { apply NoDup_cons. split; [|apply NoDup_singleton].
    intros [=]%list_elem_of_singleton. }
  assert (Hemails : NoDup (Account.email <$> SampleUsers.users)).
  { apply NoDup_cons. split; [|apply NoDup_singleton].
    intros [=]%list_elem_of_singleton. }
  eexists. split; [reflexivity|].
  exact (proj1 (handleSaveUser_keeps_emails_distinct SampleUsers.trim
                  SampleUsers.toLowerCase SampleUsers.edit 2 SampleUsers.users _
                  Hids Hemails eq_refl)).
Defined.


Section DeletingUsers.
Import AdminUsers.

(** X16. [handleDeleteUser] refuses the id of the admin who is logged in
    and leaves the users as they are; for every other id it removes the
    users with the id and no other, in the order they had, so that no
    email becomes shared and the lenders left are the lenders that were
    there with another id. *)
Theorem handleDeleteUser_spares_current (currentUser : Account.t) (userId : Z)
    (users : list Account.t) :
  (Account.id currentUser = userId ->
   handleDeleteUser (Some currentUser) userId users
   = Refused "You cannot delete your own admin account.")
  /\ (Account.id currentUser <> userId ->
      exists updated,
        handleDeleteUser (Some currentUser) userId users = Updated updated
        /\ (forall u, u ∈ updated <-> u ∈ users /\ Account.id u <> userId)
        /\ sublist updated users
        /\ (currentUser ∈ users -> currentUser ∈ updated)
        /\ (NoDup (Account.email <$> users) -> NoDup (Account.email <$> updated))
        /\ (forall u, u ∈ lenders updated
                      <-> u ∈ lenders users /\ Account.id u <> userId)).
Proof.
  unfold handleDeleteUser. split.
  - intros ->. by rewrite Z.eqb_refl.
  - intros Hne. rewrite (proj2 (Z.eqb_neq _ _) Hne). eexists. split; [done|].
    assert (Hmem : forall u,
              u ∈ List.filter (fun u => negb (Account.id u =? userId)) users
              <-> u ∈ users /\ Account.id u <> userId).
    { intros u. rewrite !list_elem_of_In, filter_In, negb_true_iff, Z.eqb_neq.
      done. }
    split; [done|]. split; [|split; [|split]].
    + clear Hmem. induction users as [|u users IH]; [constructor|].
      cbn [List.filter].
      destruct (negb (Account.id u =? userId)); by constructor.
    + intros Hin. by apply Hmem.
    + intros Hnd. clear Hmem. induction users as [|u users IH]; [done|].
      rewrite fmap_cons in Hnd. apply NoDup_cons in Hnd as [Hfresh Hnd].
      cbn [List.filter]. destruct (negb (Account.id u =? userId)); [|by apply IH].
      rewrite fmap_cons. apply NoDup_cons. split; [|by apply IH].
      intros Hin. apply Hfresh.
      apply list_elem_of_fmap in Hin as (v & -> & Hv).
      apply list_elem_of_In, filter_In in Hv as [Hv _].
      by apply list_elem_of_fmap_2, list_elem_of_In.
    + intros u. unfold lenders.
      rewrite !list_elem_of_In, !filter_In, negb_true_iff, Z.eqb_neq. tauto.
Qed.

End DeletingUsers.

(** ** The timeline of a loan *)

Section Timeline.
Import Admin AdminLoans.

(** X17. The timeline of the details panel has the two steps created and
    rejected for a Rejected loan, and otherwise the five steps created,
    approved, assigned, disbursed, completed, of which a step is done only
    if every step before it is; a step is shown active exactly when it is
    done.  Binding a lender with [handleAssignLender] never marks the step
    "Lender Assigned" for a loan that was Pending, Approved or Assigned:
    the loan has the lender and the step is not done. *)
Theorem steps_follow_the_status (loan : Loan.t) :
  (Loan.status loan = Rejected ->
   steps loan = [ mkStep "created" "Request Created" true true;
                  mkStep "rejected" "Rejected by Admin" true true ])
  /\ (Loan.status loan <> Rejected ->
      key <$> steps loan = ["created"; "approved"; "assigned"; "disbursed"; "completed"]
      /\ forall (i j : nat) (s s' : Step),
           (i <= j)%nat -> steps loan !! i = Some s -> steps loan !! j = Some s' ->
           done s' = true -> done s = true)
  /\ Forall (fun s => active s = done s) (steps loan)
  /\ (forall lender : User.t,
        Loan.status loan = Pending \/ Loan.status loan = Approved
        \/ Loan.status loan = Assigned ->
        Loan.lenderId (assign lender loan) = Some (User.id lender)
        /\ steps (assign lender loan) !! 2%nat
           = Some (mkStep "assigned" "Lender Assigned" false false)).
Proof.
  split; [|split; [|split]].
  - unfold steps. by intros ->.
  - intros Hne. unfold steps.
    destruct (Loan.status loan) eqn:Hs; try done; (split; [done|]);
      intros [|[|[|[|[|i]]]]] [|[|[|[|[|j]]]]] s s' Hij Hi Hj; simpl in *;
      try lia; try done; injection Hi as <-; injection Hj as <-; done.
  - unfold steps. destruct (Loan.status loan); simpl; repeat constructor.
  - intros lender Hs. split; [done|]. unfold steps. rewrite assign_status.
    by destruct Hs as [->|[->| ->]].
Qed.

End Timeline.

(** ** Disbursing and approving again *)

Section Again.
Import Admin Lender.

(** X18. Disbursing a second time, at whatever time, changes nothing: the
    loan keeps the time of the first disbursement.  A loan that was not
    Funds Disbursed gets the time of the call; id, lender, amount and
    repayments always stay. *)
Theorem disburse_keeps_first_time (now later : string) (loan : Loan.t) :
  disburse later (disburse now loan) = disburse now loan
  /\ (Loan.status loan <> FundsDisbursed ->
      Loan.disbursedAt (disburse now loan) = Some now)
  /\ (Loan.status loan = FundsDisbursed ->
      Loan.disbursedAt (disburse now loan) = Loan.disbursedAt loan)
  /\ Loan.id (disburse now loan) = Loan.id loan
  /\ Loan.lenderId (disburse now loan) = Loan.lenderId loan
  /\ Loan.amount (disburse now loan) = Loan.amount loan
  /\ Loan.repayments (disburse now loan) = Loan.repayments loan
  /\ (forall (user : User.t) (loanId : Z) (st : Store),
        view (handleDisburse user later loanId (handleDisburse user now loanId st))
        = view (handleDisburse user now loanId st)).
Proof.
  assert (Htwice : forall l, disburse later (disburse now l) = disburse now l).
  { intros l. apply disburse_again, disburse_status. }
  split; [done|].
  split; [|split; [|split; [|split; [|split; [|split]]]]].
  - intros Hne. unfold disburse.
    destruct (status_eqb (Loan.status loan) FundsDisbursed) eqn:Hs; [|done].
    by apply status_eqb_eq in Hs.
  - intros Hs. by rewrite disburse_again.
  - unfold disburse. by destruct (status_eqb _ _).
  - apply disburse_lenderId.
  - unfold disburse. by destruct (status_eqb _ _).
  - unfold disburse. by destruct (status_eqb _ _).
  - intros user loanId st. unfold handleDisburse, updateLoans. cbn [view].
    rewrite <- list_fmap_compose. apply list_fmap_ext. intros j l _. simpl.
    destruct (Loan.id l =? loanId) eqn:Hid; simpl; [|by rewrite Hid].
    assert (Hkeep : Loan.id (disburse now l) = Loan.id l)
      by (unfold disburse; by destruct (status_eqb _ _)).
    by rewrite Hkeep, Hid, Htwice.
Qed.

Lemma with_status_twice (s s' : Status) (loan : Loan.t) :
  Loan.with_status s (Loan.with_status s' loan) = Loan.with_status s loan.
Proof. reflexivity. Qed.

(** X19. Approving and rejecting change nothing but the status, so an
    approved loan has no more repayment entries than before; of two such
    decisions on one id the later one wins, a repeated one changes nothing
    more, and decisions on two different ids can be taken in either
    order. *)
Theorem decisions_compose (id id' : Z) (loans : list Loan.t) :
  handleReject id (handleApprove id loans) = handleReject id loans
  /\ handleApprove id (handleReject id loans) = handleApprove id loans
  /\ handleApprove id (handleApprove id loans) = handleApprove id loans
  /\ handleReject id (handleReject id loans) = handleReject id loans
  /\ (id <> id' ->
      handleApprove id (handleReject id' loans)
      = handleReject id' (handleApprove id loans)
      /\ handleApprove id (handleApprove id' loans)
         = handleApprove id' (handleApprove id loans))
  /\ Loan.with_status Pending <$> handleApprove id loans
     = Loan.with_status Pending <$> loans
  /\ Loan.with_status Pending <$> handleReject id loans
     = Loan.with_status Pending <$> loans.
Proof.
  unfold handleApprove, handleReject.
  repeat split; try intros Hne; rewrite <- !list_fmap_compose;
    apply list_fmap_ext; intros j l _; simpl;
    destruct (Loan.id l =? id) eqn:E1; simpl; rewrite ?E1; try reflexivity;
    destruct (Loan.id l =? id') eqn:E2; simpl; rewrite ?E1, ?E2; try reflexivity;
    apply Z.eqb_eq in E1, E2; congruence.
Qed.

End Again.

(** ** The named calculator without its guard *)

Section Unguarded.
Import Num.

(** X20. For an annual rate of zero the named export does not return zero
    as the default export does: with a [Math.pow] that gives 1 for the
    base 1 it divides zero by zero and returns the text of NaN, whatever
    the principal. *)
Theorem named_export_zero_rate (Math_pow : number -> number -> number)
    (P n : number) :
  Math_pow (of_Z 1) n = of_Z 1 ->
  EmiNamed.calculateEMI Math_pow P zero n = General S754_nan
  /\ EmiDefault.calculateEMI Math_pow P zero n = zero.
Proof.
  intros Hpow. split.
  - unfold EmiNamed.calculateEMI.
    assert (Hrate : (zero / (of_Z 12 * of_Z 100))%num = zero) by reflexivity.
    assert (Hbase : (of_Z 1 + zero)%num = of_Z 1) by reflexivity.
    assert (Hden : (of_Z 1 - of_Z 1)%num = zero) by reflexivity.
    rewrite Hrate, Hbase, Hpow, Hden.
    assert (Hone : of_Z 1 = S754_finite false 4503599627370496 (-52)) by reflexivity.
    rewrite Hone. by destruct P as [[]|[]| |[] ? ?].
  - unfold EmiDefault.calculateEMI.
    assert (Hr : ((zero || zero) / of_Z 12 / of_Z 100 <=? zero)%num = true)
      by reflexivity.
    rewrite Hr. by rewrite orb_true_r.
Qed.

(** The hypothesis of X20 for the reference power and the term 12. *)
Lemma named_export_zero_rate_witness :
  EmiNamed.calculateEMI RefPow.pow (of_Z 100000) zero (of_Z 12) = General S754_nan.
Proof.
  assert (Hpow : RefPow.pow (of_Z 1) (of_Z 12) = of_Z 1) by reflexivity.
  exact (proj1 (named_export_zero_rate RefPow.pow (of_Z 100000) (of_Z 12) Hpow)).
Defined.

End Unguarded.

(** ** From the request to the last payment *)

Section Lifecycle.
Import Num.

Lemma paid_count_marked (rs rest : list Repayment.t) :
  Forall (fun r => Repayment.paid r = false) rest ->
  length (List.filter Repayment.paid ((Repayment.mark_paid <$> rs) ++ rest)%list)
  = length rs.
Proof.
  intros Hrest. rewrite List.filter_app, length_app.
  assert (Hnone : List.filter Repayment.paid rest = []).
  { induction Hrest as [|r rest Hr _ IH]; [done|]. simpl. by rewrite Hr. }
  rewrite Hnone. simpl. rewrite Nat.add_0_r.
  induction rs as [|r rs IH]; [done|]. rewrite fmap_cons. simpl. by rewrite IH.
Qed.

(** X21. A loan that is Pending with no repayment entry, a principal and,
    as duration, the integer [k >= 1].  For [k] below 2^32: once
    approved, the borrower's dashboard gives it [k] unpaid entries;
    binding a lender keeps it Approved and disbursing makes it Funds
    Disbursed, both keeping the entries; then after [j < k] payments [j]
    of the [k] EMIs count as paid and the loan is still Funds Disbursed,
    and the [k]-th payment makes it Completed, with the lender and the
    time of disbursement kept.  From [k = 2^32] on the approved loan gets
    no schedule: the dashboard's effect throws. *)
Theorem lifecycle_runs_through (loan : Loan.t) (lender : User.t)
    (nowISO : string) (k : Z) :
  Loan.status loan = Pending ->
  Loan.schedule loan = [] ->
  natural (Loan.duration loan) = Some k ->
  1 <= k ->
  let approved := Loan.with_status Approved loan in
  (k < 2 ^ 32 ->
   exists scheduled : Loan.t,
     Borrower.withSchedule approved = Some scheduled
     /\ let bound := Admin.assign lender scheduled in
        let disbursed := Lender.disburse nowISO bound in
        let paid := fun j : nat =>
          fold_left (fun l i => Borrower.repay i l) (seq 0 j) disbursed in
        AdminLoans.totalEmis scheduled = Z.to_nat k
        /\ AdminLoans.paidEmis scheduled = 0%nat
        /\ Loan.status bound = Approved
        /\ Loan.status disbursed = FundsDisbursed
        /\ Loan.schedule disbursed = Loan.schedule scheduled
        /\ (forall j : nat,
              (j < Z.to_nat k)%nat ->
              Loan.status (paid j) = FundsDisbursed
              /\ AdminLoans.paidEmis (paid j) = j
              /\ AdminLoans.totalEmis (paid j) = Z.to_nat k)
        /\ Loan.status (paid (Z.to_nat k)) = Completed
        /\ AdminLoans.paidEmis (paid (Z.to_nat k)) = Z.to_nat k
        /\ Loan.lenderId (paid (Z.to_nat k)) = Some (User.id lender)
        /\ Loan.disbursedAt (paid (Z.to_nat k)) = Some nowISO)
  /\ (2 ^ 32 <= k -> Borrower.withSchedule approved = None).
Proof.
  intros Hpending Hempty Hnat Hk approved.
  assert (Hneeds : Borrower.needsSchedule approved = true).
  { apply needsSchedule_iff. split; [by left|done]. }
  destruct (months_natural _ k Hnat Hk) as (Hmonths & Hsmall & Hlarge).
  split; cycle 1.
  { intros Hge. unfold Borrower.withSchedule. rewrite Hneeds.
    change (Loan.amount approved) with (Loan.amount loan).
    change (Loan.duration approved) with (Loan.duration loan).
    rewrite schedule_thrown; [done|]. rewrite Hmonths. by apply Hlarge. }
  intros Hlt.
  destruct (Borrower.generateEMISchedule (Loan.amount loan) (Loan.duration loan))
    as [entries|] eqn:Hgen;
    [|by rewrite schedule_returned in Hgen by (by rewrite Hmonths, Hsmall)].
  exists (Loan.with_repayments entries approved).
  split.
  { unfold Borrower.withSchedule. rewrite Hneeds.
    change (Loan.amount approved) with (Loan.amount loan).
    change (Loan.duration approved) with (Loan.duration loan).
    by rewrite Hgen. }
  set (scheduled := Loan.with_repayments entries approved).
  intros bound disbursed paid.
  assert (Hsched : Loan.schedule scheduled = entries) by reflexivity.
  assert (Hlen : length (Loan.schedule scheduled) = Z.to_nat k).
  { rewrite Hsched, (schedule_length _ _ _ Hgen), Hmonths. by rewrite Hsmall. }
  assert (Hunpaid : Forall (fun r => Repayment.paid r = false) (Loan.schedule scheduled)).
  { rewrite Hsched. by apply (schedule_unpaid _ _ _ Hgen). }
  assert (Hbound : Loan.status bound = Approved).
  { unfold bound. by rewrite assign_status. }
  assert (Hdisbursed : disbursed = Loan.with_disbursement FundsDisbursed nowISO bound).
  { unfold disbursed, Lender.disburse. by rewrite Hbound. }
  assert (Hsame : Loan.schedule disbursed = Loan.schedule scheduled)
    by (by rewrite Hdisbursed).
  assert (Hfields : forall j : nat,
            (j <= Z.to_nat k)%nat ->
            Loan.lenderId (paid j) = Some (User.id lender)
            /\ Loan.disbursedAt (paid j) = Some nowISO).
  { intros j _. unfold paid. generalize (seq 0 j). intros ixs.
    assert (Hfold : forall l : Loan.t,
              Loan.lenderId l = Some (User.id lender) ->
              Loan.disbursedAt l = Some nowISO ->
              Loan.lenderId (fold_left (fun l i => Borrower.repay i l) ixs l)
              = Some (User.id lender)
              /\ Loan.disbursedAt (fold_left (fun l i => Borrower.repay i l) ixs l)
                 = Some nowISO).
    { induction ixs as [|i ixs IH]; intros l Hl Hd; [done|]. cbn [fold_left].
      apply IH; unfold Borrower.repay;
        destruct (Loan.schedule l !! i) as [r|]; try done;
        by destruct (Repayment.paid r). }
    apply Hfold; by rewrite Hdisbursed. }
  assert (Hstep : forall j : nat,
            (j <= Z.to_nat k)%nat ->
            Loan.schedule (paid j)
            = ((Repayment.mark_paid <$> take j (Loan.schedule scheduled))
               ++ drop j (Loan.schedule scheduled))%list
            /\ Loan.status (paid j)
               = (if (0 <? j)%nat && (j =? Z.to_nat k)%nat
                  then Completed else FundsDisbursed)).
  { intros j Hj.
    destruct (pay_first disbursed j) as [Hs Hst].
    - by rewrite Hsame.
    - rewrite Hsame. lia.
    - fold (paid j) in Hs, Hst. rewrite Hsame in Hs, Hst.
      rewrite Hlen in Hst. split; [done|]. rewrite Hst.
      by rewrite Hdisbursed. }
  assert (Hcount : forall j : nat,
            (j <= Z.to_nat k)%nat ->
            AdminLoans.paidEmis (paid j) = j
            /\ AdminLoans.totalEmis (paid j) = Z.to_nat k).
  { intros j Hj. destruct (Hstep j Hj) as [Hs _].
    unfold AdminLoans.paidEmis, AdminLoans.totalEmis. rewrite Hs. split.
    - rewrite paid_count_marked by (by apply Forall_drop).
      rewrite length_take. lia.
    - rewrite length_app, length_fmap, length_take, length_drop. lia. }
  split; [done|]. split.
  { unfold AdminLoans.paidEmis.
    rewrite <- (app_nil_l (Loan.schedule scheduled)).
    change [] with (Repayment.mark_paid <$> []) at 1.
    by rewrite paid_count_marked. }
  split; [done|]. split; [by rewrite Hdisbursed|]. split; [done|].
  split; [|split; [|split; [|split]]].
  - intros j Hj. destruct (Hstep j ltac:(lia)) as [_ Hst].
    destruct (Hcount j ltac:(lia)) as [Hp Ht].
    split; [|done]. rewrite Hst.
    by rewrite (proj2 (Nat.eqb_neq j (Z.to_nat k))), andb_false_r by lia.
  - destruct (Hstep (Z.to_nat k) ltac:(lia)) as [_ ->].
    rewrite Nat.eqb_refl.
    by rewrite (proj2 (Nat.ltb_lt 0 (Z.to_nat k))) by lia.
  - by apply Hcount.
  - by apply Hfields.
  - by apply Hfields.
Qed.

(** The hypotheses of X21 for the requested sample loan, over 2 months. *)
Lemma lifecycle_runs_through_witness :
  exists scheduled : Loan.t,
    Borrower.withSchedule (Loan.with_status Approved Sample.fresh) = Some scheduled
    /\ Loan.status
         (fold_left (fun l i => Borrower.repay i l) (seq 0 2)
            (Lender.disburse "2023-12-01T00:00:00.000Z"
               (Admin.assign Sample.lender scheduled)))
       = Completed.
Proof.
  assert (Hpending : Loan.status Sample.fresh = Pending) by reflexivity.
  assert (Hempty : Loan.schedule Sample.fresh = []) by reflexivity.
  assert (Hnat : natural (Loan.duration Sample.fresh) = Some 2) by reflexivity.
  assert (Hk : 1 <= 2) by lia.
  assert (Hlt : 2 < 2 ^ 32) by reflexivity.
  destruct (proj1 (lifecycle_runs_through Sample.fresh Sample.lender
                     "2023-12-01T00:00:00.000Z" 2 Hpending Hempty Hnat Hk) Hlt)
    as (scheduled & Hsome & _ & _ & _ & _ & _ & _ & Hdone & _).
  by exists scheduled.
Defined.

End Lifecycle.

(** ** The pattern of an email *)

Section Patterns.
Import Regex.

Lemma append_cons (c : ascii) (u v : string) :
  (String c u ++ v)%string = String c (u ++ v).
Proof. reflexivity. Qed.

Lemma append_empty_l (v : string) : ("" ++ v)%string = v.
Proof. reflexivity. Qed.

Lemma append_empty (u v : string) : (u ++ v)%string = "" -> u = "" /\ v = "".
Proof. destruct u; [done|]. rewrite append_cons. discriminate. Qed.

Lemma append_unit (u v : string) (c : ascii) (s : string) :
  (u ++ v)%string = String c s ->
  (u = "" /\ v = String c s) \/ (exists u', u = String c u' /\ s = (u' ++ v)%string).
Proof.
  destruct u as [|c' u']; [by left|]. rewrite append_cons.
  intros [= -> <-]. right. by exists u'.
Qed.

Lemma nullable_matches (r : t) : nullable r = true <-> matches r "".
Proof.
  split.
  - induction r as [| |p|r IHr s IHs|r IHr s IHs|r IHr]; simpl; try done.
    + intros _. constructor.
    + intros [Hr Hs]%andb_true_iff.
      change "" with ("" ++ "")%string. constructor; auto.
    + intros [Hr|Hs]%orb_true_iff; [apply matches_alt_l|apply matches_alt_r]; auto.
    + intros _. constructor.
  - intros H. remember "" as e eqn:He.
    induction H as [|p c Hc|r s u v Hu IHu Hv IHv|r s u Hu IHu|r s u Hu IHu
                   |r|r u v Hu IHu Hv IHv]; simpl; try done.
    + apply append_empty in He as [-> ->]. by rewrite IHu, IHv.
    + by rewrite IHu.
    + rewrite IHu by done. apply orb_true_r.
Qed.

Lemma derive_matches (c : ascii) (r : t) (s : string) :
  matches (derive c r) s <-> matches r (String c s).
Proof.
  split.
  - revert s. induction r as [| |p|r1 IH1 r2 IH2|r1 IH1 r2 IH2|r IH];
      simpl; intros s H.
    + inversion H.
    + inversion H.
    + destruct (p c) eqn:Hp; inversion H; subst. by constructor.
    + inversion H as [| | |? ? ? Hl|? ? ? Hr| |]; subst.
      * inversion Hl as [| |? ? u v Hu Hv| | | |]; subst.
        change (String c (u ++ v)) with (String c u ++ v)%string.
        constructor; auto.
      * destruct (nullable r1) eqn:Hn; [|inversion Hr].
        change (String c s) with ("" ++ String c s)%string.
        constructor; [by apply nullable_matches|auto].
    + inversion H; subst; [apply matches_alt_l|apply matches_alt_r]; auto.
    + inversion H as [| |? ? u v Hu Hv| | | |]; subst.
      change (String c (u ++ v)) with (String c u ++ v)%string.
      constructor; auto.
  - intros H. remember (String c s) as w eqn:Hw. revert s Hw.
    induction H as [|p c' Hc|r1 r2 u v Hu IHu Hv IHv|r1 r2 u Hu IHu|r1 r2 u Hu IHu
                   |r|r u v Hu IHu Hv IHv]; intros s0 Hw; simpl.
    + discriminate.
    + injection Hw as -> <-. rewrite Hc. constructor.
    + apply append_unit in Hw as [[-> ->]|(u' & -> & ->)].
      * apply matches_alt_r.
        rewrite (proj2 (nullable_matches r1) Hu). by apply IHv.
      * apply matches_alt_l. constructor; [by apply IHu|done].
    + apply matches_alt_l. by apply IHu.
    + apply matches_alt_r. by apply IHu.
    + discriminate.
    + apply append_unit in Hw as [[-> ->]|(u' & -> & ->)].
      * by apply IHv.
      * constructor; [by apply IHu|done].
Qed.

Lemma test_matches (r : t) (s : string) : test r s = true <-> matches r s.
Proof.
  revert r. induction s as [|c s IH]; intros r; simpl.
  - apply nullable_matches.
  - rewrite IH. apply derive_matches.
Qed.

Lemma matches_seq_inv (r s : t) (w : string) :
  matches (Seq r s) w <-> exists u v, w = (u ++ v)%string /\ matches r u /\ matches s v.
Proof.
  split.
  - intros H. inversion H; subst. by eexists _, _.
  - intros (u & v & -> & Hu & Hv). by constructor.
Qed.

Lemma matches_unit_inv (c : ascii) (w : string) :
  matches (Unit c) w <-> w = String c "".
Proof.
  split.
  - intros H. inversion H as [|? c' Hc| | | | |]; subst.
    by apply Ascii.eqb_eq in Hc as ->.
  - intros ->. constructor. apply Ascii.eqb_refl.
Qed.

Lemma matches_star_class (p : ascii -> bool) (w : string) :
  matches (Star (Class p)) w <-> all_units p w = true.
Proof.
  split.
  - intros H. remember (Star (Class p)) as r eqn:Hr.
    induction H as [| | | | |r|r u v Hu _ Hv IHv]; try discriminate; [done|].
    injection Hr as ->. inversion Hu as [|? c Hc| | | | |]; subst.
    rewrite append_cons, append_empty_l. simpl. rewrite Hc. by apply IHv.
  - induction w as [|c w IH]; simpl; [constructor|].
    intros [Hc Hw]%andb_true_iff.
    change (String c w) with (String c "" ++ w)%string.
    constructor; [by constructor|auto].
Qed.

Lemma matches_plus_class (p : ascii -> bool) (w : string) :
  matches (Plus (Class p)) w <-> w <> "" /\ all_units p w = true.
Proof.
  unfold Plus. rewrite matches_seq_inv. split.
  - intros (u & v & -> & Hu & Hv). apply matches_star_class in Hv.
    inversion Hu as [|? c Hc| | | | |]; subst.
    rewrite append_cons, append_empty_l. simpl. by rewrite Hc, Hv.
  - destruct w as [|c w]; [by intros [[] _]|]. simpl.
    intros [_ [Hc Hw]%andb_true_iff].
    exists (String c ""), w. split; [done|].
    split; [by constructor|by apply matches_star_class].
Qed.

Lemma all_units_app (p : ascii -> bool) (u v : string) :
  all_units p (u ++ v)%string = all_units p u && all_units p v.
Proof.
  induction u as [|c u IH]; [done|].
  rewrite append_cons. simpl. by rewrite IH, andb_assoc.
Qed.

End Patterns.

(** ** Registering and logging in *)

Lemma length_append (u v : string) :
  String.length (u ++ v) = (String.length u + String.length v)%nat.
Proof.
  induction u as [|c u IH]; [done|]. rewrite append_cons. simpl. by rewrite IH.
Qed.

Lemma length_part (u : string) : u <> "" -> (1 <= String.length u)%nat.
Proof. destruct u; [done|]. simpl. lia. Qed.

Lemma all_units_weaken (p q : ascii -> bool) (u : string) :
  (forall c, p c = true -> q c = true) ->
  Regex.all_units p u = true -> Regex.all_units q u = true.
Proof.
  intros Hpq. induction u as [|c u IH]; [done|]. simpl.
  intros [Hc Hu]%andb_true_iff. by rewrite (Hpq c Hc), IH.
Qed.

Lemma existsb_eqb_elem (x : string) (l : list string) :
  existsb (String.eqb x) l = true <-> x ∈ l.
Proof.
  induction l as [|y l IH]; simpl.
  - split; [done|by intros ?%elem_of_nil].
  - rewrite orb_true_iff, IH, elem_of_cons, String.eqb_eq. done.
Qed.

Lemma is_empty_iff (s : string) : AdminUsers.is_empty s = true <-> s = "".
Proof. by destruct s. Qed.

Lemma find_none_all {A : Type} (f : A -> bool) (l : list A) :
  (forall x, In x l -> f x = false) -> List.find f l = None.
Proof.
  induction l as [|a l IH]; [done|]. intros Hall. simpl.
  rewrite (Hall a) by (by left). apply IH. intros x Hx. apply Hall. by right.
Qed.

Lemma find_app_none {A : Type} (f : A -> bool) (l1 l2 : list A) :
  List.find f l1 = None -> List.find f (l1 ++ l2) = List.find f l2.
Proof.
  induction l1 as [|a l1 IH]; [done|]. simpl. destruct (f a); [done|apply IH].
Qed.

Section LoginPage.
Import Login.
Variable trim : string -> string.
Variable toLowerCase : string -> string.

(** X22. [validateEmail] accepts exactly the emails whose lower-case form
    is a@b.c with a, b and c not empty and free of white space and of
    "@"; so the lower-case form of an accepted email has no white space
    and at least five code units. *)
Theorem validateEmail_accepts (email : string) :
  let part := fun u : string =>
    u <> "" /\ Regex.all_units Regex.no_space_no_at u = true in
  (validateEmail toLowerCase email = true
   <-> exists a b c,
         toLowerCase email = (a ++ "@" ++ b ++ "." ++ c)%string
         /\ part a /\ part b /\ part c)
  /\ (validateEmail toLowerCase email = true ->
      Regex.all_units (fun c => negb (Regex.is_space c)) (toLowerCase email) = true
      /\ (5 <= String.length (toLowerCase email))%nat).
Proof.
  intros part.
  assert (Hiff : validateEmail toLowerCase email = true
                 <-> exists a b c,
                       toLowerCase email = (a ++ "@" ++ b ++ "." ++ c)%string
                       /\ part a /\ part b /\ part c).
  { unfold validateEmail, email_pattern. rewrite test_matches. split.
    - intros (a & w1 & -> & Ha & H1)%matches_seq_inv.
      apply matches_seq_inv in H1 as (x & w2 & -> & Hx & H2).
      apply matches_unit_inv in Hx as ->.
      apply matches_seq_inv in H2 as (b & w3 & -> & Hb & H3).
      apply matches_seq_inv in H3 as (y & c & -> & Hy & Hc).
      apply matches_unit_inv in Hy as ->.
      apply matches_plus_class in Ha, Hb, Hc. by exists a, b, c.
    - intros (a & b & c & -> & Ha & Hb & Hc).
      apply matches_plus_class in Ha, Hb, Hc.
      repeat (apply Regex.matches_seq; [done || by apply matches_unit_inv|]).
      done. }
  split; [done|].
  intros (a & b & c & -> & [Ha Hpa] & [Hb Hpb] & [Hc Hpc])%Hiff.
  assert (Hplain : forall u, Regex.all_units Regex.no_space_no_at u = true ->
            Regex.all_units (fun c => negb (Regex.is_space c)) u = true).
  { intros u. apply all_units_weaken. intros ch. unfold Regex.no_space_no_at.
    rewrite negb_orb. by intros [-> _]%andb_true_iff. }
  split.
  - rewrite !all_units_app, (Hplain a), (Hplain b), (Hplain c) by done.
    reflexivity.
  - rewrite !length_append. simpl.
    pose proof (length_part a Ha). pose proof (length_part b Hb).
    pose proof (length_part c Hc). lia.
Qed.

(** What an accepted registration has passed and what it saves. *)
Lemma handleRegister_registered (form : Form) (now : Z) (nowISO : string)
    (users updated : list Account.t) :
  handleRegister trim toLowerCase form now nowISO users = Registered updated ->
  trim (form_name form) <> ""
  /\ validateEmail toLowerCase (toLowerCase (trim (form_email form))) = true
  /\ (6 <= String.length (form_password form))%nat
  /\ (toLowerCase (trim (form_email form)) ∉ Account.email <$> users)
  /\ updated
     = (users
        ++ [ {| Account.id := now;
                Account.name := trim (form_name form);
                Account.email := toLowerCase (trim (form_email form));
                Account.password := form_password form;
                Account.role :=
                  if existsb (String.eqb (form_role form)) validRoles
                  then form_role form else "borrower";
                Account.createdAt := Some nowISO |} ])%list.
Proof.
  unfold handleRegister.
  destruct (AdminUsers.is_empty (trim (form_name form))) eqn:Hname; [done|].
  destruct (validateEmail toLowerCase _) eqn:Hvalid; [|done]. simpl.
  destruct (String.length (form_password form) <? 6)%nat eqn:Hlen; [done|].
  destruct (List.find _ users) eqn:Hfind; [done|]. intros [= <-].
  split. { intros Heq. by rewrite Heq in Hname. }
  split; [done|]. split. { apply Nat.ltb_ge in Hlen. lia. }
  split; [by apply find_email|done].
Qed.

(** X23. [handleRegister] saves a user exactly when the trimmed name is
    not empty, the normalised email is accepted by [validateEmail], the
    password has at least six code units and no stored user has the email.
    It appends one user then, with the id [Date.now()], the trimmed name,
    the normalised email, the password as typed, the time of the call, and
    a role that is always one of the four known ones: the role of the form
    if that is one of them, and "borrower" otherwise.  If no two stored
    users shared an email, none do afterwards. *)
Theorem handleRegister_outcome (form : Form) (now : Z) (nowISO : string)
    (users : list Account.t) :
  let name := trim (form_name form) in
  let email := toLowerCase (trim (form_email form)) in
  ((exists updated,
       handleRegister trim toLowerCase form now nowISO users = Registered updated)
   <-> name <> ""
       /\ validateEmail toLowerCase email = true
       /\ (6 <= String.length (form_password form))%nat
       /\ email ∉ (Account.email <$> users))
  /\ (forall updated,
        handleRegister trim toLowerCase form now nowISO users = Registered updated ->
        exists user,
          updated = (users ++ [user])%list
          /\ Account.id user = now
          /\ Account.name user = name
          /\ Account.email user = email
          /\ Account.password user = form_password form
          /\ Account.createdAt user = Some nowISO
          /\ Account.role user ∈ validRoles
          /\ (form_role form ∈ validRoles -> Account.role user = form_role form)
          /\ (form_role form ∉ validRoles -> Account.role user = "borrower")
          /\ (NoDup (Account.email <$> users) -> NoDup (Account.email <$> updated))).
Proof.
  intros name email. split.
  - split.
    + intros [updated Hreg].
      by destruct (handleRegister_registered _ _ _ _ _ Hreg) as (? & ? & ? & ? & _).
    + intros (Hname & Hvalid & Hlen & Hnew). unfold handleRegister.
      fold name email.
      destruct (AdminUsers.is_empty name) eqn:Hempty;
        [by apply is_empty_iff in Hempty|].
      rewrite Hvalid. simpl.
      rewrite (proj2 (Nat.ltb_ge _ _)) by lia.
      apply find_email in Hnew. rewrite Hnew. by eexists.
  - intros updated Hreg.
    destruct (handleRegister_registered _ _ _ _ _ Hreg)
      as (Hname & Hvalid & Hlen & Hnew & ->).
    eexists. split; [done|]. cbn [Account.id Account.name Account.email
      Account.password Account.createdAt Account.role].
    repeat (split; [done|]).
    destruct (existsb (String.eqb (form_role form)) validRoles) eqn:Hrole.
    + apply existsb_eqb_elem in Hrole. repeat (split; [done|]).
      intros Hnd. rewrite fmap_app. apply NoDup_app.
      split; [done|]. split; [|apply NoDup_singleton].
      intros e He [->|[]%elem_of_nil]%elem_of_cons. done.
    + assert (Hnot : form_role form ∉ validRoles).
      { intros Hin%existsb_eqb_elem. congruence. }
      split. { unfold validRoles. rewrite !elem_of_cons. tauto. }
      split; [done|]. split; [done|].
      intros Hnd. rewrite fmap_app. apply NoDup_app.
      split; [done|]. split; [|apply NoDup_singleton].
      intros e He [->|[]%elem_of_nil]%elem_of_cons. done.
Qed.

(** X24. Every handler that writes the users keeps their emails in lower
    case, given that [toLowerCase] changes nothing in a text that it has
    produced: registering, adding, editing and deleting a user. *)
Theorem writers_keep_emails_lowered (users : list Account.t) :
  (forall x, toLowerCase (toLowerCase x) = toLowerCase x) ->
  lowered toLowerCase users ->
  (forall form now nowISO updated,
      handleRegister trim toLowerCase form now nowISO users = Registered updated ->
      lowered toLowerCase updated)
  /\ (forall newUser now updated,
        AdminUsers.handleAddUser trim toLowerCase newUser now users
        = AdminUsers.Updated updated ->
        lowered toLowerCase updated)
  /\ (forall editingUser userId updated,
        AdminUsers.handleSaveUser trim toLowerCase editingUser userId users
        = AdminUsers.Updated updated ->
        lowered toLowerCase updated)
  /\ (forall currentUser userId updated,
        AdminUsers.handleDeleteUser currentUser userId users
        = AdminUsers.Updated updated ->
        lowered toLowerCase updated).
Proof.
  intros Hidem Hlow. unfold lowered in *. split; [|split; [|split]].
  - intros form now nowISO updated Hreg.
    destruct (handleRegister_registered _ _ _ _ _ Hreg) as (_ & _ & _ & _ & ->).
    apply Forall_app. split; [done|]. apply Forall_singleton. simpl. apply Hidem.
  - intros newUser now updated. unfold AdminUsers.handleAddUser.
    destruct (List.find _ users); [done|]. intros [= <-].
    apply Forall_app. split; [done|]. apply Forall_singleton. simpl. apply Hidem.
  - intros editingUser userId updated. unfold AdminUsers.handleSaveUser.
    destruct (AdminUsers.is_empty (trim _)); [done|].
    destruct (AdminUsers.is_empty (toLowerCase _)); [done|].
    destruct (existsb _ users); [done|]. intros [= <-].
    apply Forall_fmap. eapply Forall_impl; [exact Hlow|].
    intros u Hu. simpl. destruct (Account.id u =? userId); [apply Hidem|done].
  - intros currentUser userId updated. unfold AdminUsers.handleDeleteUser.
    destruct (match currentUser with Some _ => _ | None => _ end); [done|].
    intros [= <-]. apply Forall_forall. intros u Hu.
    apply list_elem_of_In, filter_In in Hu as [Hu _].
    apply list_elem_of_In in Hu. revert u Hu. by apply Forall_forall.
Qed.

(** X25. Registering and then logging in with the same form: when the
    stored emails are in lower case and [toLowerCase] changes nothing in a
    text that it has produced, the login after an accepted registration
    succeeds, its user is the one just registered, and it navigates to the
    dashboard of that user's role, never to the login page. *)
Theorem register_then_login (form : Form) (now : Z) (nowISO : string)
    (users updated : list Account.t) :
  (forall x, toLowerCase (toLowerCase x) = toLowerCase x) ->
  lowered toLowerCase users ->
  handleRegister trim toLowerCase form now nowISO users = Registered updated ->
  exists user,
    handleLogin trim toLowerCase form updated
    = LoggedIn user (destination (Account.role user))
    /\ updated = (users ++ [user])%list
    /\ Account.id user = now
    /\ Account.password user = form_password form
    /\ destination (Account.role user) <> "/".
Proof.
  intros Hidem Hlow Hreg.
  destruct (handleRegister_registered _ _ _ _ _ Hreg)
    as (Hname & Hvalid & Hlen & Hnew & ->).
  eexists. split; [|split; [done|split; [done|split; [done|]]]].
  - unfold handleLogin. rewrite Hvalid. simpl.
    destruct (AdminUsers.is_empty (form_password form)) eqn:Hpw.
    { apply is_empty_iff in Hpw. rewrite Hpw in Hlen. simpl in Hlen. lia. }
    assert (Hnone : List.find
              (fun u => String.eqb (toLowerCase (Account.email u))
                                   (toLowerCase (trim (form_email form)))
                        && String.eqb (Account.password u) (form_password form))
              users = None).
    { apply find_none_all. intros u Hu.
      apply andb_false_iff. left. apply String.eqb_neq.
      assert (Hu' : u ∈ users) by (by apply list_elem_of_In).
      rewrite (proj1 (Forall_forall _ _) Hlow u Hu').
      intros Heq. apply Hnew. rewrite <- Heq. by apply list_elem_of_fmap_2. }
    rewrite (find_app_none _ _ _ Hnone). cbn [List.find Account.email Account.password].
    by rewrite Hidem, !String.eqb_refl.
  - cbn [Account.role].
    destruct (existsb (String.eqb (form_role form)) validRoles) eqn:Hrole; [|done].
    apply existsb_eqb_elem in Hrole. unfold validRoles in Hrole.
    rewrite !elem_of_cons in Hrole.
    destruct Hrole as [->|[->|[->|[->|[]%elem_of_nil]]]]; done.
Qed.

End LoginPage.

(** The hypotheses of X24 for the sample users: deleting the lender. *)
Lemma writers_keep_emails_lowered_witness :
  Login.lowered SampleUsers.toLowerCase [SampleUsers.admin].
Proof.
  assert (Hidem : forall x,
            SampleUsers.toLowerCase (SampleUsers.toLowerCase x)
            = SampleUsers.toLowerCase x) by reflexivity.
  assert (Hlow : Login.lowered SampleUsers.toLowerCase SampleUsers.users)
    by (repeat constructor).
  destruct (writers_keep_emails_lowered SampleUsers.trim SampleUsers.toLowerCase
              SampleUsers.users Hidem Hlow) as (_ & _ & _ & Hdelete).
  exact (Hdelete (Some SampleUsers.admin) 2 [SampleUsers.admin] eq_refl).
Defined.

(** The hypotheses of X25 for the sample users and a new borrower. *)
Lemma register_then_login_witness :
  exists user,
    Login.handleLogin SampleUsers.trim SampleUsers.toLowerCase SampleUsers.form
      (SampleUsers.users ++ [user])%list
    = Login.LoggedIn user "/borrower".
Proof.
  assert (Hidem : forall x,
            SampleUsers.toLowerCase (SampleUsers.toLowerCase x)
            = SampleUsers.toLowerCase x) by reflexivity.
  assert (Hlow : Login.lowered SampleUsers.toLowerCase SampleUsers.users)
    by (repeat constructor).
  destruct (register_then_login SampleUsers.trim SampleUsers.toLowerCase
              SampleUsers.form 1700000000000 "2023-11-14T22:13:20.000Z"
              SampleUsers.users _ Hidem Hlow eq_refl)
    as (user & Hlogin & Hupdated & _).
  exists user. injection Hupdated as <-. exact Hlogin.
Defined.

(** ** Who may stay on which page *)

Section Guards.
Import Login Pages.

(** X26. Where the login sends a user, the page keeps that user: for each of the
    four known roles the path is a route of the application to a
    dashboard whose initial load keeps the user, the login page sends a
    visitor who is logged in already to the same path, and the sidebar
    offers that path alone.  With any other role the login stores the
    session and stays on the login page.  The borrower's and the lender's
    dashboard keep every logged-in user whatever the role, the admin's
    and the analyst's only their own role, and nobody who is not logged
    in stays on a dashboard. *)
Theorem pages_keep_by_role (user : Account.t) :
  (Account.role user ∈ validRoles ->
   exists page,
     route (destination (Account.role user)) = Some page
     /\ page <> LoginPage
     /\ lets_in page (Some user) = true
     /\ redirect (Some user) = Some (destination (Account.role user))
     /\ path <$> allowedRoutes user = [destination (Account.role user)])
  /\ (Account.role user ∉ validRoles ->
      destination (Account.role user) = "/"
      /\ route (destination (Account.role user)) = Some LoginPage
      /\ redirect (Some user) = None
      /\ allowedRoutes user = [])
  /\ lets_in BorrowerDashboard (Some user) = true
  /\ lets_in LenderDashboard (Some user) = true
  /\ (lets_in AdminDashboard (Some user) = true <-> Account.role user = "admin")
  /\ (lets_in AnalystDashboard (Some user) = true <-> Account.role user = "analyst")
  /\ (forall page, page <> LoginPage -> lets_in page None = false).
Proof.
  split; [|split; [|split; [done|split; [done|split; [|split]]]]].
  - unfold validRoles. rewrite !elem_of_cons.
    unfold redirect, allowedRoutes.
    intros [Hr|[Hr|[Hr|[Hr|[]%elem_of_nil]]]]; rewrite Hr; simpl.
    + exists AdminDashboard. simpl. by rewrite Hr.
    + by exists LenderDashboard.
    + by exists BorrowerDashboard.
    + exists AnalystDashboard. simpl. by rewrite Hr.
  - unfold validRoles. rewrite !elem_of_cons. intros Hnot.
    assert (H1 : Account.role user <> "admin") by tauto.
    assert (H2 : Account.role user <> "lender") by tauto.
    assert (H3 : Account.role user <> "borrower") by tauto.
    assert (H4 : Account.role user <> "analyst") by tauto.
    unfold destination, redirect, allowedRoutes, navItems. cbn [List.filter role].
    rewrite (String.eqb_sym "admin"), (String.eqb_sym "lender"),
      (String.eqb_sym "borrower"), (String.eqb_sym "analyst").
    apply String.eqb_neq in H1, H2, H3, H4. by rewrite H1, H2, H3, H4.
  - simpl. apply String.eqb_eq.
  - simpl. apply String.eqb_eq.
  - by intros [].
Qed.

End Guards.

(** ** Two dashboards over one storage *)

Section Behind.

Lemma find_fmap_by_id (g : Loan.t -> Loan.t) (loans : list Loan.t) (loan : Loan.t) :
  (forall l, Loan.id (g l) = Loan.id l) ->
  NoDup (Loan.id <$> loans) -> loan ∈ loans ->
  List.find (fun l => Loan.id l =? Loan.id loan) (g <$> loans) = Some (g loan).
Proof.
  intros Hg. induction loans as [|l loans IH]; intros Hnd Hin.
  - by apply elem_of_nil in Hin.
  - rewrite fmap_cons in Hnd. apply NoDup_cons in Hnd as [Hfresh Hnd].
    rewrite fmap_cons. cbn [List.find]. rewrite Hg.
    apply elem_of_cons in Hin as [->|Hin].
    + by rewrite Z.eqb_refl.
    + destruct (Z.eqb_spec (Loan.id l) (Loan.id loan)) as [Heq|_].
      * exfalso. apply Hfresh. rewrite Heq. by apply list_elem_of_fmap_2.
      * by apply IH.
Qed.

Lemma repay_lenderId (index : nat) (loan : Loan.t) :
  Loan.lenderId (Borrower.repay index loan) = Loan.lenderId loan.
Proof.
  unfold Borrower.repay. destruct (Loan.schedule loan !! index) as [r|]; [|done].
  by destruct (Repayment.paid r).
Qed.

Lemma elem_of_filter_list (f : Loan.t -> bool) (loans : list Loan.t) (loan : Loan.t) :
  loan ∈ loans -> f loan = true -> loan ∈ List.filter f loans.
Proof.
  intros Hin Hf. apply list_elem_of_In, filter_In. split; [|done].
  by apply list_elem_of_In.
Qed.

(** What the storage holds at a position after the borrower has paid. *)
Lemma handleRepayment_stored (borrower : User.t) (allLoans : list Loan.t)
    (loanId : Z) (index j : nat) (loan : Loan.t) :
  NoDup (Loan.id <$> allLoans) ->
  allLoans !! j = Some loan ->
  stored (Borrower.handleRepayment borrower loanId index
            (Borrower.load borrower allLoans)) !! j
  = Some (if (Loan.borrowerId loan =? User.id borrower) && (Loan.id loan =? loanId)
          then Borrower.repay index loan else loan).
Proof.
  intros Hnd Hj. unfold Borrower.handleRepayment, Borrower.updateLoans, Borrower.load.
  cbn [view stored].
  rewrite lookup_app_l by (rewrite length_fmap; by eapply lookup_lt_Some).
  rewrite list_lookup_fmap, Hj. simpl. f_equal.
  destruct (Loan.borrowerId loan =? User.id borrower) eqn:Hmine; [|done].
  unfold Borrower.repaidLoans.
  rewrite (find_fmap_by_id
             (fun l => if negb (Loan.id l =? loanId) then l else Borrower.repay index l)).
  - by destruct (Loan.id loan =? loanId).
  - intros l. destruct (negb (Loan.id l =? loanId)); [done|apply repay_id].
  - by apply filter_ids_NoDup.
  - apply elem_of_filter_list; [by eapply list_elem_of_lookup_2|done].
Qed.

(** X27. A lender's dashboard that was loaded before a borrower paid
    writes its own copies back: with pairwise distinct ids, after the
    borrower's payment is stored and the lender then marks any loan as
    disbursed, every stored loan of that lender is the one the dashboard
    had loaded, disbursed if it was the one marked, so a payment stored
    in between is no longer there. *)
Theorem lender_write_undoes_payment (borrower lender : User.t)
    (allLoans : list Loan.t) (loanId : Z) (index : nat) (nowISO : string)
    (marked : Z) :
  NoDup (Loan.id <$> allLoans) ->
  let paid :=
    Borrower.handleRepayment borrower loanId index (Borrower.load borrower allLoans) in
  let st' :=
    Lender.handleDisburse lender nowISO marked
      (behind (Lender.load lender allLoans) paid) in
  forall (j : nat) (loan : Loan.t),
    allLoans !! j = Some loan ->
    stored paid !! j
    = Some (if (Loan.borrowerId loan =? User.id borrower) && (Loan.id loan =? loanId)
            then Borrower.repay index loan else loan)
    /\ (Loan.lenderId loan = Some (User.id lender) ->
        stored st' !! j
        = Some (if Loan.id loan =? marked then Lender.disburse nowISO loan else loan))
    /\ (Loan.lenderId loan = Some (User.id lender) ->
        Loan.id loan <> marked ->
        stored st' !! j = Some loan).
Proof.
  intros Hnd paid st' j loan Hj.
  pose proof (handleRepayment_stored borrower allLoans loanId index j loan Hnd Hj)
    as Hpaid.
  fold paid in Hpaid. split; [done|].
  assert (Hmine : Loan.lenderId loan = Some (User.id lender) ->
            stored st' !! j
            = Some (if Loan.id loan =? marked
                    then Lender.disburse nowISO loan else loan)).
  { intros Hbound. unfold st', Lender.handleDisburse, Lender.updateLoans, behind.
    cbn [view stored].
    rewrite lookup_app_l
      by (rewrite length_fmap; by eapply lookup_lt_Some).
    rewrite list_lookup_fmap, Hpaid. simpl. f_equal.
    set (stored_now := if (Loan.borrowerId loan =? User.id borrower)
                          && (Loan.id loan =? loanId)
                       then Borrower.repay index loan else loan).
    assert (Hid : Loan.id stored_now = Loan.id loan).
    { unfold stored_now. destruct (_ && _); [apply repay_id|done]. }
    assert (Hlender : Loan.lenderId stored_now = Some (User.id lender)).
    { unfold stored_now. destruct (_ && _); [by rewrite repay_lenderId|done]. }
    rewrite Hlender, Z.eqb_refl, Hid.
    rewrite (find_fmap_by_id
               (fun l => if negb (Loan.id l =? marked)
                         then l else Lender.disburse nowISO l)).
    - by destruct (Loan.id loan =? marked).
    - intros l. destruct (negb (Loan.id l =? marked)); [done|].
      unfold Lender.disburse. by destruct (status_eqb _ _).
    - by apply filter_ids_NoDup.
    - apply elem_of_filter_list; [by eapply list_elem_of_lookup_2|].
      by rewrite Hbound, Z.eqb_refl. }
  split; [done|].
  intros Hbound Hne. rewrite (Hmine Hbound).
  by rewrite (proj2 (Z.eqb_neq _ _) Hne).
Qed.

(** The hypothesis of X27 for a disbursed sample loan with two unpaid
    entries: the first payment is stored and then gone. *)
Lemma lender_write_undoes_payment_witness :
  let loan :=
    Admin.assign Sample.lender
      (Sample.later FundsDisbursed [Sample.entry 1 false; Sample.entry 2 false]) in
  let paid :=
    Borrower.handleRepayment Sample.borrower (Loan.id loan) 0
      (Borrower.load Sample.borrower [loan]) in
  stored paid !! 0%nat = Some (Borrower.repay 0 loan)
  /\ Borrower.repay 0 loan <> loan
  /\ stored (Lender.handleDisburse Sample.lender "2023-12-01T00:00:00.000Z" 0
               (behind (Lender.load Sample.lender [loan]) paid)) !! 0%nat
     = Some loan.
Proof.
  intros loan paid.
  assert (Hnd : NoDup (Loan.id <$> [loan])) by apply NoDup_singleton.
  destruct (lender_write_undoes_payment Sample.borrower Sample.lender [loan]
              (Loan.id loan) 0 "2023-12-01T00:00:00.000Z" 0 Hnd 0%nat loan eq_refl)
    as (Hpaid & _ & Hgone).
  split; [exact Hpaid|]. split; [discriminate|].
  apply Hgone; [reflexivity|discriminate].
Defined.

(** X28. The admin's handlers store the admin's own list in place of what
    the storage holds: a loan that a borrower's request has stored since
    that list was loaded is stored no more once the admin approves,
    rejects or deletes any loan. *)
Theorem admin_write_drops_later_request (trim : string -> string)
    (user : User.t) (loanData : Borrower.LoanForm) (now : Z) (nowISO : string)
    (allLoans updatedLoans : list Loan.t) (id : Z) :
  now ∉ Loan.id <$> allLoans ->
  Borrower.handleRequestLoan trim user loanData now nowISO
    (view (Borrower.load user allLoans)) = Updated updatedLoans ->
  let requested :=
    Borrower.updateLoans user updatedLoans (Borrower.load user allLoans) in
  let st := behind (AdminStore.load allLoans) requested in
  (now ∈ Loan.id <$> stored requested)
  /\ stored (AdminStore.handleApprove id st) = Admin.handleApprove id allLoans
  /\ stored (AdminStore.handleReject id st) = Admin.handleReject id allLoans
  /\ stored (AdminStore.handleDeleteLoan id st) = AdminLoans.handleDeleteLoan id allLoans
  /\ (now ∉ Loan.id <$> stored (AdminStore.handleApprove id st))
  /\ (now ∉ Loan.id <$> stored (AdminStore.handleReject id st))
  /\ (now ∉ Loan.id <$> stored (AdminStore.handleDeleteLoan id st)).
Proof.
  intros Hfresh Hreq requested st.
  apply handleRequestLoan_updated in Hreq as (newLoan & -> & Hid).
  assert (Hids : forall (f : Loan.t -> Loan.t),
            (forall l, Loan.id (f l) = Loan.id l) ->
            Loan.id <$> (f <$> allLoans) = Loan.id <$> allLoans).
  { intros f Hf. rewrite <- list_fmap_compose. apply list_fmap_ext.
    intros j l _. simpl. apply Hf. }
  split; [|split; [done|split; [done|split; [done|split; [|split]]]]].
  - unfold requested, Borrower.updateLoans. cbn [stored Borrower.load].
    rewrite fmap_app. apply elem_of_app. right.
    rewrite List.filter_app, fmap_app. apply elem_of_app. right.
    cbn [List.filter]. rewrite existsb_id_fmap by (intros l; apply merged_id).
    rewrite Hid, existsb_id_false by done. simpl. rewrite Hid. by left.
  - cbn [AdminStore.handleApprove AdminStore.updateLoans stored view st behind
         AdminStore.load].
    unfold Admin.handleApprove. rewrite Hids; [done|].
    intros l. by destruct (Loan.id l =? id).
  - cbn [AdminStore.handleReject AdminStore.updateLoans stored view st behind
         AdminStore.load].
    unfold Admin.handleReject. rewrite Hids; [done|].
    intros l. by destruct (Loan.id l =? id).
  - cbn [AdminStore.handleDeleteLoan AdminStore.updateLoans stored view st behind
         AdminStore.load].
    intros Hin. apply Hfresh.
    apply list_elem_of_fmap in Hin as (l & -> & Hl).
    apply list_elem_of_In, filter_In in Hl as [Hl _].
    by apply list_elem_of_fmap_2, list_elem_of_In.
Qed.

(** The hypotheses of X28 for the sample request on an empty storage. *)
Lemma admin_write_drops_later_request_witness :
  let requested :=
    Borrower.updateLoans Sample.borrower [Sample.fresh] (Borrower.load Sample.borrower []) in
  stored requested = [Sample.fresh]
  /\ stored (AdminStore.handleApprove 7 (behind (AdminStore.load []) requested)) = [].
Proof.
  intros requested.
  assert (Hfresh : 1700000000000 ∉ Loan.id <$> ([] : list Loan.t))
    by apply not_elem_of_nil.
  destruct (admin_write_drops_later_request Sample.trim Sample.borrower Sample.form
              1700000000000 "2023-11-14T22:13:20.000Z" [] [Sample.fresh] 7
              Hfresh eq_refl) as (_ & Happrove & _).
  split; [reflexivity|exact Happrove].
Defined.

End Behind.

(** ** The button that pays an EMI *)

Section PayButton.
Import Borrower.

(** X29. The row of a repayment entry renders [Pay EMI] exactly when the
    entry is unpaid and the loan is Approved or Funds Disbursed.  Pressing
    it marks the entry paid, after which the row renders the button no
    more.  The handler itself looks at no status: it marks an unpaid entry
    of any loan, of a Pending or Rejected one too. *)
Theorem pay_button_pays (index : nat) (loan : Loan.t) (emi : Repayment.t) :
  Loan.schedule loan !! index = Some emi ->
  (showPayEMI loan emi = true
   <-> (Loan.status loan = Approved \/ Loan.status loan = FundsDisbursed)
       /\ Repayment.paid emi = false)
  /\ (Repayment.paid emi = false ->
      Loan.schedule (repay index loan) !! index = Some (Repayment.mark_paid emi)
      /\ showPayEMI (repay index loan) (Repayment.mark_paid emi) = false
      /\ repay index loan <> loan)
  /\ (Repayment.paid emi = true -> repay index loan = loan).
Proof.
  intros Hemi. split; [|split].
  - unfold showPayEMI, repayable.
    rewrite !andb_true_iff, !orb_true_iff, !negb_true_iff, !status_eqb_eq.
    destruct (Loan.status loan), (Repayment.paid emi); simpl; intuition congruence.
  - intros Hunpaid.
    assert (Hat : Loan.schedule (repay index loan) !! index
                  = Some (Repayment.mark_paid emi)).
    { rewrite (repay_unpaid index loan emi Hemi Hunpaid). cbv zeta.
      rewrite schedule_with_repayments. apply list_lookup_insert_eq.
      by eapply lookup_lt_Some. }
    split; [done|]. split.
    + unfold showPayEMI. simpl. apply andb_false_r.
    + intros Heq. rewrite Heq, Hemi in Hat. injection Hat as Hat.
      apply (f_equal Repayment.paid) in Hat. simpl in Hat. congruence.
  - intros Hpaid. by apply (repay_paid index loan emi).
Qed.

(** The hypothesis of X29 for the first entry of a Pending loan with a
    schedule: no button, and yet the handler records the payment. *)
Lemma pay_button_pays_witness :
  let loan := Sample.later Pending [Sample.entry 1 false; Sample.entry 2 false] in
  showPayEMI loan (Sample.entry 1 false) = false
  /\ repay 0 loan <> loan.
Proof.
  intros loan.
  destruct (pay_button_pays 0 loan (Sample.entry 1 false) eq_refl)
    as (_ & Hpays & _).
  split; [reflexivity|]. by apply Hpays.
Defined.

End PayButton.
